(** * ArticleScraper: the Readability extraction engine (src/readability.js)

    A shallow embedding of the parts of [Readability.prototype] that the
    specification makes claims about, and the theorems that settle them.

    Conventions of the model.
    - A JavaScript string is the list of its UTF-16 code units ([jsstring]).
    - Integer-valued numbers (lengths, counts, indexes, flags) are [Z];
      ratios (scores, densities, similarities) are exact rationals [Q]:
      the rounding of IEEE doubles is not modelled.
    - A DOM node is a rose tree; the expando properties the engine hangs on
      elements ([readability], [_readabilityDataTable]) are fields of the
      element.  A mutation of the tree is a function from trees to trees.
    - What the host provides and the source only calls ([new URL],
      [innerHTML], [String.prototype.toLowerCase]) is a field of [Host]. *)

From stdpp Require Import gmap list.
From Stdlib Require Import ZArith QArith Ascii Lia Lqa Bool.
From Stdlib Require String.
Import String.StringSyntax.

Close Scope Q_scope.
Local Open Scope Z_scope.
Local Open Scope string_scope.
Set Warnings "-register-all".

(* ================================================================== *)
(** * JavaScript strings *)
(* ================================================================== *)

Module JS.

Definition jsstring := list N.

(** An ASCII literal as a JavaScript string. *)
Definition lit (s : String.string) : jsstring :=
  map N_of_ascii (String.list_ascii_of_string s).

Definition len (s : jsstring) : Z := Z.of_nat (length s).

(** [array.length]. *)
Definition lenOf {A : Type} (l : list A) : Z := Z.of_nat (length l).

Definition eqb (a b : jsstring) : bool := bool_decide (a = b).

(** A string is truthy when it is not empty. *)
Definition truthy (s : jsstring) : bool :=
  match s with [] => false | _ => true end.

(** [\s] of a regular expression and the characters [trim] strips:
    WhiteSpace and LineTerminator of ECMAScript. *)
Definition isSpace (c : N) : bool :=
  ((9 <=? c) && (c <=? 13) || (c =? 32) || (c =? 160) || (c =? 5760)
   || ((8192 <=? c) && (c <=? 8202)) || (c =? 8232) || (c =? 8233)
   || (c =? 8239) || (c =? 8287) || (c =? 12288) || (c =? 65279))%N.

Definition isDigit (c : N) : bool := ((48 <=? c) && (c <=? 57))%N.
Definition isUpper (c : N) : bool := ((65 <=? c) && (c <=? 90))%N.
Definition isLower (c : N) : bool := ((97 <=? c) && (c <=? 122))%N.

(** [\w]: [A-Za-z0-9_]. *)
Definition isWord (c : N) : bool :=
  isUpper c || isLower c || isDigit c || (c =? 95)%N.

(** [.] without the [s] flag: anything but a line terminator. *)
Definition isLineTerminator (c : N) : bool :=
  ((c =? 10) || (c =? 13) || (c =? 8232) || (c =? 8233))%N.

Definition lowerChar (c : N) : N := if isUpper c then (c + 32)%N else c.
Definition upperChar (c : N) : N := if isLower c then (c - 32)%N else c.

(** The ASCII part of [toLowerCase] and [toUpperCase]. *)
Definition asciiLower (s : jsstring) : jsstring := map lowerChar s.
Definition asciiUpper (s : jsstring) : jsstring := map upperChar s.

Fixpoint trimStart (s : jsstring) : jsstring :=
  match s with
  | c :: t => if isSpace c then trimStart t else s
  | [] => []
  end.

Definition trimEnd (s : jsstring) : jsstring := rev (trimStart (rev s)).

Definition trim (s : jsstring) : jsstring := trimEnd (trimStart s).

Fixpoint startsWith (s p : jsstring) : bool :=
  match p, s with
  | [], _ => true
  | a :: p', b :: s' => (a =? b)%N && startsWith s' p'
  | _ :: _, [] => false
  end.

(** [s.indexOf(p)] as a count of code units, [None] for -1. *)
Fixpoint indexOfNat (s p : jsstring) : option nat :=
  if startsWith s p then Some O
  else match s with
       | [] => None
       | _ :: t => S <$> indexOfNat t p
       end.

Definition indexOf (s p : jsstring) : Z :=
  match indexOfNat s p with Some i => Z.of_nat i | None => -1 end.

Definition includes (s p : jsstring) : bool :=
  match indexOfNat s p with Some _ => true | None => false end.

(** [s.lastIndexOf(p)]: the greatest index at which [p] starts. *)
Fixpoint lastIndexOfNat (s p : jsstring) : option nat :=
  match s with
  | [] => if startsWith [] p then Some O else None
  | _ :: t =>
      match lastIndexOfNat t p with
      | Some i => Some (S i)
      | None => if startsWith s p then Some O else None
      end
  end.

Definition lastIndexOf (s p : jsstring) : Z :=
  match lastIndexOfNat s p with Some i => Z.of_nat i | None => -1 end.

(** [s.substring(start)]: a negative start counts as 0, one past the end
    as the length. *)
Definition substringFrom (s : jsstring) (start : Z) : jsstring :=
  drop (Z.to_nat start) s.

(** [s.substring(start, stop)]: both clamped to [0, length], and swapped
    when [start > stop]. *)
Definition substring (s : jsstring) (start stop : Z) : jsstring :=
  let a := Z.min (Z.max start 0) (len s) in
  let b := Z.min (Z.max stop 0) (len s) in
  let lo := Z.min a b in
  let hi := Z.max a b in
  take (Z.to_nat (hi - lo)) (drop (Z.to_nat lo) s).

(** [parts.join(sep)]. *)
Fixpoint join (sep : jsstring) (parts : list jsstring) : jsstring :=
  match parts with
  | [] => []
  | [p] => p
  | p :: rest => p ++ sep ++ join sep rest
  end.

(** The decimal digits of a non-negative integer ([String(n)]). *)
Definition digitsOf (n : Z) : jsstring :=
  let fix go (fuel : nat) (n : N) (acc : jsstring) : jsstring :=
    match fuel with
    | O => acc
    | S f =>
        let acc' := (48 + n mod 10)%N :: acc in
        if (n / 10 =? 0)%N then acc' else go f (n / 10)%N acc'
    end in
  go (S (N.to_nat (N.log2 (Z.to_N n)))) (Z.to_N n) [].

End JS.

Export JS.

(* ================================================================== *)
(** * Regular expressions *)
(* ================================================================== *)

(** The engine's regular expressions use no back-reference and no
    lookaround, so a pattern is a term of [regex] and matching is the
    backtracking search of ECMAScript: alternatives left to right, greedy
    repetition, an empty iteration of a repetition refused. *)

Module Regex.

Inductive regex : Type :=
| RChar (p : N -> bool)          (* one code unit of a class *)
| REps                           (* the empty pattern *)
| RSeq (a b : regex)
| RAlt (a b : regex)             (* a|b *)
| RStar (a : regex)              (* a*, greedy *)
| RGroup (i : nat) (a : regex)   (* the i-th capturing group *)
| RBol                           (* ^ *)
| REol                           (* $ *)
| RWordB.                        (* \b *)

(** A position of the match: the code units before it (nearest first),
    those after it, and the captures made so far. *)
Record mstate : Type := MState {
  m_pre : list N;
  m_rest : list N;
  m_caps : list (nat * jsstring);
}.

Definition consumed (s0 s1 : mstate) : nat :=
  (length (m_rest s0) - length (m_rest s1))%nat.

Definition setCap (i : nat) (s0 s1 : mstate) : mstate :=
  MState (m_pre s1) (m_rest s1)
         ((i, take (consumed s0 s1) (m_rest s0)) :: m_caps s1).

Definition atWordBoundary (s : mstate) : bool :=
  let a := match m_pre s with c :: _ => isWord c | [] => false end in
  let b := match m_rest s with c :: _ => isWord c | [] => false end in
  xorb a b.

Section Matcher.
Context {A : Type}.

(** [rmatch r s k]: match [r] at [s] and hand the position reached to the
    continuation [k]; [None] when every way of matching fails. *)
Fixpoint rmatch (r : regex) (s : mstate) (k : mstate -> option A)
  {struct r} : option A :=
  match r with
  | RChar p =>
      match m_rest s with
      | c :: t => if p c then k (MState (c :: m_pre s) t (m_caps s)) else None
      | [] => None
      end
  | REps => k s
  | RSeq a b => rmatch a s (fun s1 => rmatch b s1 k)
  | RAlt a b =>
      match rmatch a s k with
      | Some x => Some x
      | None => rmatch b s k
      end
  | RStar a =>
      (fix iter (n : nat) (s : mstate) {struct n} : option A :=
         match n with
         | O => k s
         | S n' =>
             match rmatch a s (fun s1 =>
                     if (length (m_rest s1) <? length (m_rest s))%nat
                     then iter n' s1 else None) with
             | Some x => Some x
             | None => k s
             end
         end) (S (length (m_rest s))) s
  | RGroup i a => rmatch a s (fun s1 => k (setCap i s s1))
  | RBol => match m_pre s with [] => k s | _ => None end
  | REol => match m_rest s with [] => k s | _ => None end
  | RWordB => if atWordBoundary s then k s else None
  end.

End Matcher.

(** ** Building patterns *)

Definition rseq (l : list regex) : regex := foldr RSeq REps l.

Definition ralt (l : list regex) : regex :=
  match l with
  | [] => RChar (fun _ => false)
  | a :: t => foldl RAlt a t
  end.

Definition rplus (a : regex) : regex := RSeq a (RStar a).
Definition ropt (a : regex) : regex := RAlt a REps.

Definition chr (c : N) : regex := RChar (N.eqb c).

(** A character of a pattern under the [i] flag: for an ASCII letter the
    two cases of it, and nothing else (a character above 127 is never
    canonicalised to one below). *)
Definition chri (c : N) : regex :=
  RChar (fun x => (lowerChar x =? lowerChar c)%N).

Definition oneOf (cs : jsstring) : N -> bool :=
  fun x => existsb (N.eqb x) cs.

(** A literal, and a literal under the [i] flag. *)
Definition str (s : String.string) : regex := rseq (chr <$> lit s).
Definition stri (s : String.string) : regex := rseq (chri <$> lit s).
Definition codes (s : jsstring) : regex := rseq (chr <$> s).

(** ** [exec], [test], [replace], [split] *)

Definition matchAt (r : regex) (pre rest : list N) : option mstate :=
  rmatch r (MState pre rest []) Some.

Record found : Type := Found {
  f_index : nat;                    (* where the match starts *)
  f_text : jsstring;                (* match[0] *)
  f_caps : list (nat * jsstring);   (* the groups that took part *)
}.

Definition foundAt (pre rest : list N) (e : mstate) : found :=
  Found (length pre)
        (take (length rest - length (m_rest e))%nat rest)
        (m_caps e).

(** The i-th group of a match: [None] is [undefined]. *)
Definition cap (m : found) (i : nat) : option jsstring :=
  snd <$> List.find (fun c => Nat.eqb (fst c) i) (f_caps m).

Fixpoint execFrom (r : regex) (pre rest : list N) : option found :=
  match matchAt r pre rest with
  | Some e => Some (foundAt pre rest e)
  | None =>
      match rest with
      | [] => None
      | c :: t => execFrom r (c :: pre) t
      end
  end.

(** [re.exec(s)] and [s.match(re)] of a pattern without the [g] flag. *)
Definition exec (r : regex) (s : jsstring) : option found := execFrom r [] s.

(** [re.test(s)]. *)
Definition test (r : regex) (s : jsstring) : bool :=
  match exec r s with Some _ => true | None => false end.

(** [s.replace(re, f)] of a pattern with the [g] flag: the matches are
    taken left to right, the search resuming where a match ended, one
    code unit further after an empty match.  [pieces] cuts the string
    into the matches and the code units between them. *)
Fixpoint piecesScan (r : regex) (skip : nat) (pre rest : list N)
  {struct rest} : list (N + found) :=
  match skip, rest with
  | S k, c :: t => piecesScan r k (c :: pre) t
  | S _, [] => []
  | O, _ =>
      match matchAt r pre rest with
      | Some e =>
          let m := foundAt pre rest e in
          inr m ::
          match rest with
          | [] => []
          | c :: t =>
              match length (f_text m) with
              | O => inl c :: piecesScan r O (c :: pre) t
              | S k => piecesScan r k (c :: pre) t
              end
          end
      | None =>
          match rest with
          | [] => []
          | c :: t => inl c :: piecesScan r O (c :: pre) t
          end
      end
  end.

Definition pieces (r : regex) (s : jsstring) : list (N + found) :=
  piecesScan r O [] s.

Definition replaceAll (r : regex) (f : found -> jsstring) (s : jsstring)
  : jsstring :=
  concat ((fun piece =>
             match piece with inl c => [c] | inr m => f m end) <$> pieces r s).

(** The same when [f] may throw: [None] is the exception. *)
Definition replaceAllM (r : regex) (f : found -> option jsstring)
  (s : jsstring) : option jsstring :=
  (fun parts => concat parts) <$> mapM (fun piece =>
                     match piece with
                     | inl c => Some [c]
                     | inr m => f m
                     end) (pieces r s).

(** How often a pattern with the [g] flag matches ([s.match(re).length],
    and [s.split(re).length - 1] for a pattern that matches no empty
    string). *)
Fixpoint countScan (r : regex) (skip : nat) (pre rest : list N)
  {struct rest} : nat :=
  match skip, rest with
  | S k, c :: t => countScan r k (c :: pre) t
  | S _, [] => O
  | O, _ =>
      match matchAt r pre rest with
      | Some e =>
          S match rest with
            | [] => O
            | c :: t =>
                countScan r (pred (length (f_text (foundAt pre rest e))))
                          (c :: pre) t
            end
      | None =>
          match rest with
          | [] => O
          | c :: t => countScan r O (c :: pre) t
          end
      end
  end.

Definition countMatches (r : regex) (s : jsstring) : nat :=
  countScan r O [] s.

(** [s.split(re)]: [cur] holds, nearest first, the code units since the
    last cut; the groups [1..groups] of each separator are spliced in
    (a group that took no part gives the empty string here: the
    patterns split with have none such). *)
Fixpoint splitScan (r : regex) (groups : nat) (skip : nat) (cur : list N)
  (pre rest : list N) {struct rest} : list jsstring :=
  match rest with
  | [] => [rev cur]
  | c :: t =>
      match skip with
      | S k => splitScan r groups k [] (c :: pre) t
      | O =>
          match matchAt r pre rest with
          | Some e =>
              let m := foundAt pre rest e in
              let caps := (fun i => default [] (cap m (S i))) <$> seq 0 groups in
              match length (f_text m), cur with
              | O, [] => splitScan r groups O [c] (c :: pre) t
              | O, _ => rev cur :: caps ++ splitScan r groups O [c] (c :: pre) t
              | S k, _ => rev cur :: caps ++ splitScan r groups k [] (c :: pre) t
              end
          | None => splitScan r groups O (c :: cur) (c :: pre) t
          end
      end
  end.

Definition split (r : regex) (groups : nat) (s : jsstring) : list jsstring :=
  match s with
  | [] => match matchAt r [] [] with Some _ => [] | None => [[]] end
  | _ => splitScan r groups O [] [] s
  end.

End Regex.

Export Regex.

(* ================================================================== *)
(** * The document tree *)
(* ================================================================== *)

Module Dom.

(** A node is a text node or an element.  [tagName] is as the DOM reports
    it (upper case for an HTML element); an attribute name is lower case.
    [readability] and [dataTable] are the expando properties
    [node.readability.contentScore] and [node._readabilityDataTable];
    [None] is [undefined]. *)
Inductive node : Type :=
| Text (data : jsstring)
| Elem (tagName : jsstring) (attributes : list (jsstring * jsstring))
       (readability : option Q) (dataTable : option bool)
       (childNodes : list node).

Definition attrs := list (jsstring * jsstring).

(** An element created by [doc.createElement(tag)]. *)
Definition createElement (tag : jsstring) (kids : list node) : node :=
  Elem tag [] None None kids.

Definition isElement (n : node) : bool :=
  match n with Elem _ _ _ _ _ => true | Text _ => false end.

Definition isText (n : node) : bool :=
  match n with Text _ => true | _ => false end.

(** [node.tagName]; [undefined] on a text node. *)
Definition tagName (n : node) : option jsstring :=
  match n with Elem t _ _ _ _ => Some t | Text _ => None end.

Definition hasTag (tag : String.string) (n : node) : bool :=
  match n with Elem t _ _ _ _ => JS.eqb t (lit tag) | Text _ => false end.

Definition hasTagIn (tags : list String.string) (n : node) : bool :=
  existsb (fun t => hasTag t n) tags.

Definition childNodes (n : node) : list node :=
  match n with Elem _ _ _ _ k => k | Text _ => [] end.

Definition attributes (n : node) : attrs :=
  match n with Elem _ a _ _ _ => a | Text _ => [] end.

(** [node.children]: the element children. *)
Definition children (n : node) : list node :=
  List.filter isElement (childNodes n).

Definition withChildren (n : node) (k : list node) : node :=
  match n with Elem t a r d _ => Elem t a r d k | Text s => Text s end.

Definition withAttributes (n : node) (a : attrs) : node :=
  match n with Elem t _ r d k => Elem t a r d k | Text s => Text s end.

(** ** Attributes *)

Fixpoint lookupAttr (a : attrs) (name : jsstring) : option jsstring :=
  match a with
  | [] => None
  | (k, v) :: rest => if JS.eqb k name then Some v else lookupAttr rest name
  end.

(** [node.getAttribute(name)]; [None] is [null]. *)
Definition getAttribute (n : node) (name : String.string) : option jsstring :=
  lookupAttr (attributes n) (lit name).

Definition hasAttribute (n : node) (name : String.string) : bool :=
  match getAttribute n name with Some _ => true | None => false end.

(** The value of an attribute when it is present and not empty: what
    [if (value)] lets through. *)
Definition truthyAttr (n : node) (name : String.string) : option jsstring :=
  match getAttribute n name with
  | Some v => if truthy v then Some v else None
  | None => None
  end.

Fixpoint setAttr (a : attrs) (name value : jsstring) : attrs :=
  match a with
  | [] => [(name, value)]
  | (k, v) :: rest =>
      if JS.eqb k name then (k, value) :: rest
      else (k, v) :: setAttr rest name value
  end.

(** [node.setAttribute(name, value)]. *)
Definition setAttribute (n : node) (name : String.string) (value : jsstring)
  : node :=
  withAttributes n (setAttr (attributes n) (lit name) value).

(** [node.removeAttribute(name)]. *)
Definition removeAttribute (n : node) (name : String.string) : node :=
  withAttributes n
    (List.filter (fun kv => negb (JS.eqb (fst kv) (lit name))) (attributes n)).

(** [node.className] and [node.id]: the attribute, or the empty string. *)
Definition className (n : node) : jsstring := default [] (getAttribute n "class").
Definition id (n : node) : jsstring := default [] (getAttribute n "id").

(** ** Text *)

(** [node.textContent]. *)
Fixpoint textContent (n : node) : jsstring :=
  match n with
  | Text s => s
  | Elem _ _ _ _ k => concat (map textContent k)
  end.

(** ** Descendants *)

(** The element descendants of a node in document order, the node itself
    left out: what [getElementsByTagName("*")] and [querySelectorAll]
    range over. *)
Fixpoint descendants (n : node) : list node :=
  match n with
  | Text _ => []
  | Elem _ _ _ _ k =>
      concat (map (fun c =>
                match c with
                | Text _ => []
                | Elem _ _ _ _ _ => c :: descendants c
                end) k)
  end.

(** [_getAllNodesWithTag(node, tags)] (source lines 338-350), the tags in
    upper case: [querySelectorAll] of the comma-joined tag names, so the
    matches come in document order. *)
Definition _getAllNodesWithTag (n : node) (tags : list String.string)
  : list node :=
  List.filter (hasTagIn tags) (descendants n).

(** [node.getElementsByTagName(tag)], read at one moment. *)
Definition getElementsByTagName (n : node) (tag : String.string) : list node :=
  List.filter (hasTag tag) (descendants n).

(** The number of elements of the subtree, its root included. *)
Definition countElements (n : node) : Z :=
  (if isElement n then 1 else 0) + Z.of_nat (length (descendants n)).

(** ** Cloning *)

(** [node.cloneNode(true)]: the subtree is copied; an expando property is
    a property of the object cloned, not of the copy. *)
Fixpoint cloneNode (n : node) : node :=
  match n with
  | Text s => Text s
  | Elem t a _ _ k => Elem t a None None (map cloneNode k)
  end.

(** No element of the subtree carries a score. *)
Fixpoint unscored (n : node) : bool :=
  match n with
  | Text _ => true
  | Elem _ _ r _ k =>
      match r with None => forallb unscored k | Some _ => false end
  end.

(** ** Paths *)

(** A node of a tree is named by its path from the root: the index, among
    the child nodes, of each step down. *)
Definition path := list nat.

Fixpoint getNode (n : node) (p : path) : option node :=
  match p with
  | [] => Some n
  | i :: p' =>
      match childNodes n !! i with
      | Some c => getNode c p'
      | None => None
      end
  end.

(** The tree with [f] applied to the node at [p]. *)
Fixpoint modifyNode (f : node -> node) (p : path) (n : node) : node :=
  match p with
  | [] => f n
  | i :: p' => withChildren n (alter (modifyNode f p') i (childNodes n))
  end.

(** The paths of the ancestors of the node at [p], the parent first. *)
Definition ancestorPaths (p : path) : list path :=
  (fun k => take k p) <$> reverse (seq 0 (length p)).

(** [node.readability.contentScore]. *)
Definition score (n : node) : option Q :=
  match n with Elem _ _ r _ _ => r | Text _ => None end.

Definition withScore (r : option Q) (n : node) : node :=
  match n with Elem t a _ d k => Elem t a r d k | Text s => Text s end.

(** ** Induction on trees *)

Section NodeInd.
Variable P : node -> Prop.
Hypothesis HText : forall s, P (Text s).
Hypothesis HElem : forall t a r d k, Forall P k -> P (Elem t a r d k).

Fixpoint node_ind' (n : node) : P n :=
  match n with
  | Text s => HText s
  | Elem t a r d k =>
      HElem t a r d k
        ((fix all (l : list node) : Forall P l :=
            match l with
            | [] => List.Forall_nil P
            | c :: l0 => List.Forall_cons P c l0 (node_ind' c) (all l0)
            end) k)
  end.

End NodeInd.

(** ** The document *)

Record document : Type := Document {
  title : jsstring;            (* doc.title *)
  documentElement : node;      (* the html element *)
  baseURI : jsstring;
  documentURI : jsstring;
}.

(** [doc.body]: the first body child of the html element. *)
Definition body (doc : document) : option node :=
  List.find (hasTag "BODY") (childNodes (documentElement doc)).

End Dom.

Export Dom.

(* ================================================================== *)
(** * The engine *)
(* ================================================================== *)

Module Readability.

(** ** Constants of [Readability.prototype] (source lines 111-220) *)

Definition FLAG_STRIP_UNLIKELYS : Z := 1.
Definition FLAG_WEIGHT_CLASSES : Z := 2.
Definition FLAG_CLEAN_CONDITIONALLY : Z := 4.

Definition DEFAULT_MAX_ELEMS_TO_PARSE : Z := 0.
Definition DEFAULT_N_TOP_CANDIDATES : Z := 5.
Definition DEFAULT_CHAR_THRESHOLD : Z := 500.

Definition DEFAULT_TAGS_TO_SCORE : list String.string :=
  ["SECTION"; "H2"; "H3"; "H4"; "H5"; "H6"; "P"; "TD"; "PRE"].

Definition PRESENTATIONAL_ATTRIBUTES : list String.string :=
  ["align"; "background"; "bgcolor"; "border"; "cellpadding";
   "cellspacing"; "frame"; "hspace"; "rules"; "style"; "valign"; "vspace"].

Definition DEPRECATED_SIZE_ATTRIBUTE_ELEMS : list String.string :=
  ["TABLE"; "TH"; "TD"; "HR"; "PRE"].

Definition PHRASING_ELEMS : list String.string :=
  ["ABBR"; "AUDIO"; "B"; "BDO"; "BR"; "BUTTON"; "CITE"; "CODE"; "DATA";
   "DATALIST"; "DFN"; "EM"; "EMBED"; "I"; "IMG"; "INPUT"; "KBD"; "LABEL";
   "MARK"; "MATH"; "METER"; "NOSCRIPT"; "OBJECT"; "OUTPUT"; "PROGRESS";
   "Q"; "RUBY"; "SAMP"; "SCRIPT"; "SELECT"; "SMALL"; "SPAN"; "STRONG";
   "SUB"; "SUP"; "TEXTAREA"; "TIME"; "VAR"; "WBR"].

(** ** [REGEXPS] (source lines 136-175) *)

Module REGEXPS.

Definition sp : regex := RChar isSpace.
Definition nonSp : regex := RChar (fun c => negb (isSpace c)).
Definition dot : regex := RChar (fun c => negb (isLineTerminator c)).

(** /article|body|content|entry|hentry|h-entry|main|page|pagination|post|text|blog|story/i *)
Definition positive : regex :=
  ralt (stri <$> ["article"; "body"; "content"; "entry"; "hentry"; "h-entry";
                  "main"; "page"; "pagination"; "post"; "text"; "blog";
                  "story"]).

(** /-ad-|hidden|^hid$| hid$| hid |^hid |banner|combx|comment|com-|contact|footer|gdpr|masthead|media|meta|outbrain|promo|related|scroll|share|shoutbox|sidebar|skyscraper|sponsor|shopping|tags|widget/i *)
Definition negative : regex :=
  ralt ([stri "-ad-"; stri "hidden";
         rseq [RBol; stri "hid"; REol]; rseq [stri " hid"; REol];
         stri " hid "; rseq [RBol; stri "hid "]]
        ++ (stri <$> ["banner"; "combx"; "comment"; "com-"; "contact";
                      "footer"; "gdpr"; "masthead"; "media"; "meta";
                      "outbrain"; "promo"; "related"; "scroll"; "share";
                      "shoutbox"; "sidebar"; "skyscraper"; "sponsor";
                      "shopping"; "tags"; "widget"])).

(** /\s{2,}/g *)
Definition normalize : regex := rseq [sp; sp; RStar sp].

(** /\W+/g *)
Definition tokenize : regex := rplus (RChar (fun c => negb (isWord c))).

(** /^\s*$/ *)
Definition whitespace : regex := rseq [RBol; RStar sp; REol].

(** /\S$/ *)
Definition hasContent : regex := rseq [nonSp; REol].

(** /^#.+/ *)
Definition hashUrl : regex := rseq [RBol; chr 35; rplus dot].

(** /(\b|_)(share|sharedaddy)(\b|_)/i *)
Definition shareElements : regex :=
  rseq [RGroup 1 (RAlt RWordB (chr 95));
        RGroup 2 (RAlt (stri "share") (stri "sharedaddy"));
        RGroup 3 (RAlt RWordB (chr 95))].

(** /,|،|﹐|︐|︑|⹁|⸴|⸲|，/g *)
Definition commas : regex :=
  ralt (chr <$> [44; 1548; 65104; 65040; 65041; 11841; 11828; 11826; 65292]%N).

(** /^data:\s*([^\s;,]+)\s*;\s*base64\s*,/i *)
Definition b64DataUrl : regex :=
  rseq [RBol; stri "data:"; RStar sp;
        RGroup 1 (rplus (RChar (fun c =>
                     negb (isSpace c || (c =? 59)%N || (c =? 44)%N))));
        RStar sp; chr 59; RStar sp; stri "base64"; RStar sp; chr 44].

(** /(\S+)(\s+[\d.]+[xw])?(\s*(?:,|$))/g *)
Definition srcsetUrl : regex :=
  rseq [RGroup 1 (rplus nonSp);
        ropt (RGroup 2 (rseq [rplus sp;
                              rplus (RChar (fun c => isDigit c || (c =? 46)%N));
                              RChar (oneOf (lit "xw"))]));
        RGroup 3 (rseq [RStar sp; RAlt (chr 44) REol])].

(** /\/\/(www\.)?((dailymotion|youtube|youtube-nocookie|player\.vimeo|v\.qq|bilibili|live.bilibili)\.com|(archive|upload\.wikimedia)\.org|player\.twitch\.tv)/i *)
Definition videos : regex :=
  rseq [str "//"; ropt (RGroup 1 (stri "www."));
        RGroup 2 (ralt [
          rseq [RGroup 3 (ralt [stri "dailymotion"; stri "youtube";
                                stri "youtube-nocookie"; stri "player.vimeo";
                                stri "v.qq"; stri "bilibili";
                                rseq [stri "live"; dot; stri "bilibili"]]);
                stri ".com"];
          rseq [RGroup 4 (ralt [stri "archive"; stri "upload.wikimedia"]);
                stri ".org"];
          stri "player.twitch.tv"])].

(** Simple case folding of the letters the two [iu] patterns spell:
    ASCII, the long s and the Kelvin sign, Latin-1 and basic Cyrillic. *)
Definition foldChar (c : N) : N :=
  (if isUpper c then c + 32
   else if c =? 383 then 115
   else if c =? 8490 then 107
   else if (192 <=? c) && (c <=? 222) && negb (c =? 215) then c + 32
   else if (1040 <=? c) && (c <=? 1071) then c + 32
   else c)%N.

Definition chru (c : N) : regex := RChar (fun x => (foldChar x =? foldChar c)%N).
Definition codesu (s : jsstring) : regex := rseq (chru <$> s).
Definition stru (s : String.string) : regex := codesu (lit s).

(** /^(ad(vertising|vertisement)?|pub(licité)?|werb(ung)?|广告|Реклама|Anuncio)$/iu *)
Definition adWords : regex :=
  rseq [RBol;
        RGroup 1 (ralt [
          rseq [stru "ad"; ropt (RGroup 2 (RAlt (stru "vertising") (stru "vertisement")))];
          rseq [stru "pub"; ropt (RGroup 3 (codesu (lit "licit" ++ [233%N])))];
          rseq [stru "werb"; ropt (RGroup 4 (stru "ung"))];
          codesu [24191; 21578]%N;
          codesu [1056; 1077; 1082; 1083; 1072; 1084; 1072]%N;
          stru "Anuncio"]);
        REol].

(** /^((loading|正在加载|Загрузка|chargement|cargando)(…|\.\.\.)?)$/iu *)
Definition loadingWords : regex :=
  rseq [RBol;
        RGroup 1 (rseq [
          RGroup 2 (ralt [
            stru "loading";
            codesu [27491; 22312; 21152; 36733]%N;
            codesu [1047; 1072; 1075; 1088; 1091; 1079; 1082; 1072]%N;
            stru "chargement"; stru "cargando"]);
          ropt (RGroup 3 (RAlt (chr 8230) (str "...")))]);
        REol].

End REGEXPS.

(** ** Text of a node *)

(** [_getInnerText(e, normalizeSpaces)] (source lines 1954-1963). *)
Definition _getInnerText (e : node) (normalizeSpaces : bool) : jsstring :=
  let textContent := trim (textContent e) in
  if normalizeSpaces
  then replaceAll REGEXPS.normalize (fun _ => lit " ") textContent
  else textContent.

(** [_getCharCount(e, s)] (source lines 1972-1979) for a one-character [s]. *)
Definition _getCharCount (e : node) (s : N) : Z :=
  Z.of_nat (countMatches (chr s) (_getInnerText e true)).

(** ** The article title: [_getArticleTitle] (source lines 531-663) *)

(** [wordCount] (source line 559): the pieces between runs of white
    space, an empty piece before a leading or after a trailing run
    counted. *)
Definition wordCount (str : jsstring) : Z :=
  if truthy str then lenOf (Regex.split (rplus REGEXPS.sp) 0 str) else 0.

(** The separator characters [| - – — \ / »] of source line 564. *)
Definition isTitleSeparator (c : N) : bool :=
  oneOf [124; 45; 8211; 8212; 92; 47; 187]%N c.

(** [\s([\|\-–—\\\/»])\s], the pattern built at source line 565. *)
Definition separatorPattern : regex :=
  rseq [REGEXPS.sp; RGroup 1 (RChar isTitleSeparator); REGEXPS.sp].

(** [separatorsForSplit] (source line 572):
    /(\s(?:\||\-|\–|\—|\\|\/|»)\s)/g. *)
Definition separatorsForSplit : regex :=
  RGroup 1 (rseq [REGEXPS.sp;
                  ralt (chr <$> [124; 45; 8211; 8212; 92; 47; 187]%N);
                  REGEXPS.sp]).

(** /[\|\-–—\\\/»:]/ of source lines 641, 654 and 655. *)
Definition separatorOrColon : regex :=
  RChar (fun c => isTitleSeparator c || (c =? 58)%N).

(** [Array.prototype.sort] with the comparator
    [(a, b) => key(b) - key(a)]: greatest key first, and stable. *)
Section SortDesc.
Context {A : Type} (key : A -> Z).

Fixpoint insertDesc (x : A) (l : list A) : list A :=
  match l with
  | [] => [x]
  | y :: t => if key x <? key y then y :: insertDesc x t else x :: l
  end.

Definition sortDesc (l : list A) : list A := foldr insertDesc [] l.

End SortDesc.

(** Source lines 549-557: a very long or very short title gives way to
    the text of the only h1, when that is shorter and longer than 10. *)
Definition h1Title (doc : document) (curTitle : jsstring) : jsstring :=
  if truthy curTitle && ((len curTitle >? 150) || (len curTitle <? 15)) then
    match getElementsByTagName (documentElement doc) "H1" with
    | [hOne] =>
        let h1Text := trim (_getInnerText hOne true) in
        if truthy h1Text && (len h1Text <? len curTitle) && (len h1Text >? 10)
        then h1Text else curTitle
    | _ => curTitle
    end
  else curTitle.

(** Source lines 567-601: the title has a separator between spaces. *)
Definition separatorTitle (origTitle curTitle : jsstring) (separatorMatch : found)
  : jsstring :=
  let parts := Regex.split separatorsForSplit 1 curTitle in
  let first := default [] (head parts) in
  let final := default [] (last parts) in
  let possibleTitles :=
    (if (lenOf parts >? 1) && (len first >? 3) then [first] else [])
    ++ (if (lenOf parts >? 2) && (len final >? 3) then [final] else []) in
  let curTitle :=
    match sortDesc len possibleTitles with
    | longest :: _ => longest
    | [] => curTitle
    end in
  if (wordCount curTitle <? 3) && (lenOf parts >? 1)
  then substringFrom origTitle
         (indexOf origTitle (f_text separatorMatch) + len (f_text separatorMatch))
  else curTitle.

(** Source lines 602-634: the title has a colon and a space. *)
Definition colonTitle (doc : document) (origTitle curTitle : jsstring)
  : jsstring :=
  let hTags := _getAllNodesWithTag (documentElement doc) ["H1"; "H2"] in
  let firstColonIndex := indexOf curTitle (lit ": ") in
  let potentialTitle := trim (substringFrom curTitle (firstColonIndex + 2)) in
  let headingMatches :=
    truthy potentialTitle &&
    existsb (fun heading =>
               JS.eqb (trim (_getInnerText heading true)) potentialTitle) hTags in
  if headingMatches then potentialTitle
  else
    let lastColonIndex := lastIndexOf curTitle (lit ": ") in
    if lastColonIndex >? 0 then
      let titleAfterLastColon := substringFrom curTitle (lastColonIndex + 2) in
      if wordCount titleAfterLastColon >=? 3 then titleAfterLastColon
      else if (firstColonIndex >? 0)
              && (wordCount (substring curTitle 0 firstColonIndex) <=? 5)
      then substringFrom curTitle (firstColonIndex + 2)
      else origTitle
    else curTitle.

(** Source lines 563-635: the clean-up by separators or by colons, for a
    title of more than four words. *)
Definition cleanupTitle (doc : document) (origTitle curTitle : jsstring)
  : jsstring :=
  if truthy curTitle && (wordCount curTitle >? 4) then
    match exec separatorPattern curTitle with
    | Some separatorMatch => separatorTitle origTitle curTitle separatorMatch
    | None =>
        if includes curTitle (lit ": ") then colonTitle doc origTitle curTitle
        else curTitle
    end
  else curTitle.

(** Source line 641: the words of the original title once the separator
    characters and the colons are taken out. *)
Definition origTitleWordCount (origTitle : jsstring) : Z :=
  wordCount (replaceAll separatorOrColon (fun _ => []) origTitle).

(** Source lines 640-650: the final check. *)
Definition finalCheck (origTitle curTitle : jsstring) : jsstring :=
  let curTitleWordCount := wordCount curTitle in
  if (curTitleWordCount <=? 4)
     && (curTitleWordCount <? origTitleWordCount origTitle - 2)
  then if wordCount origTitle >? 4 then origTitle else curTitle
  else curTitle.

(** Source lines 654-659: a title still the original one, with a
    separator in it, is cut to its first part. *)
Definition firstPartTitle (origTitle curTitle : jsstring) : jsstring :=
  if JS.eqb curTitle origTitle && test separatorOrColon origTitle then
    let firstPart :=
      trim (default [] (head (Regex.split separatorOrColon 0 origTitle))) in
    if (wordCount firstPart >=? 3) && (wordCount firstPart <? wordCount origTitle)
    then firstPart else curTitle
  else curTitle.

(** The title as the document gives it (source lines 536-546). *)
Definition rawTitle (doc : document) : jsstring :=
  let t := trim (title doc) in
  if truthy t then t
  else match getElementsByTagName (documentElement doc) "TITLE" with
       | titleElement :: _ => trim (_getInnerText titleElement true)
       | [] => t
       end.

Definition _getArticleTitle (doc : document) : jsstring :=
  let origTitle := rawTitle doc in
  let curTitle := h1Title doc origTitle in
  let curTitle := cleanupTitle doc origTitle curTitle in
  let curTitle := replaceAll REGEXPS.normalize (fun _ => lit " ") (trim curTitle) in
  let curTitle := finalCheck origTitle curTitle in
  let curTitle := firstPartTitle origTitle curTitle in
  if truthy curTitle then curTitle else origTitle.

(** ** What the host provides *)

(** A parsed URL, as far as the engine reads it. *)
Record url : Type := Url {
  href : jsstring;
  protocol : jsstring;
}.

Record Host : Type := {
  (** [String.prototype.toLowerCase]. *)
  toLowerCase : jsstring -> jsstring;
  (** [new URL(uri)] and [new URL(uri, base)]; [None] when the
      constructor throws. *)
  newURL : jsstring -> option jsstring -> option url;
  (** [element.innerHTML]. *)
  innerHTML : node -> jsstring;
}.

(** Numbers compared with [>]. *)
Definition Qgtb (a b : Q) : bool := negb (Qle_bool a b).

(** What [JSON.parse] returns. *)
Inductive json : Type :=
| JNull
| JBool (b : bool)
| JNumber (q : Q)
| JString (s : jsstring)
| JArray (items : list json)
| JObject (fields : list (jsstring * json)).

Section WithHost.
Context (host : Host).

(** ** Text similarity: [_textSimilarity] (source lines 968-988) *)

Definition tokens (text : jsstring) : list jsstring :=
  List.filter truthy (Regex.split REGEXPS.tokenize 0 (toLowerCase host text)).

Definition _textSimilarity (textA textB : jsstring) : Q :=
  if negb (truthy textA) || negb (truthy textB) then 0%Q
  else
    let tokensA := tokens textA in
    let tokensB := tokens textB in
    if (lenOf tokensA =? 0) || (lenOf tokensB =? 0) then 0%Q
    else
      let uniqTokensB :=
        List.filter (fun token => negb (existsb (JS.eqb token) tokensA)) tokensB in
      let uniqueLengthB := len (join (lit " ") uniqTokensB) in
      let totalLengthB := len (join (lit " ") tokensB) in
      if totalLengthB =? 0 then 0%Q
      else (1 - inject_Z uniqueLengthB / inject_Z totalLengthB)%Q.

(** ** Metadata from JSON-LD: [_getJSONLD] (source lines 1607-1710) *)

(** [value.key]: [None] is [undefined]; of a key written twice the
    parser keeps the last value. *)
Definition prop (value : json) (key : String.string) : option json :=
  match value with
  | JObject fields =>
      snd <$> List.find (fun kv => JS.eqb (fst kv) (lit key)) (rev fields)
  | _ => None
  end.

Definition jsonTruthy (v : option json) : bool :=
  match v with
  | None | Some JNull => false
  | Some (JBool b) => b
  | Some (JNumber q) => negb (Qeq_bool q 0)
  | Some (JString s) => truthy s
  | Some (JArray _) | Some (JObject _) => true
  end.

(** [_unescapeHtmlEntities] (source lines 1587-1600). *)
Definition _unescapeHtmlEntities (s : jsstring) : jsstring :=
  let s := replaceAll (str "&lt;") (fun _ => lit "<") s in
  let s := replaceAll (str "&gt;") (fun _ => lit ">") s in
  let s := replaceAll (str "&quot;") (fun _ => [34%N]) s in
  let s := replaceAll (str "&apos;") (fun _ => lit "'") s in
  replaceAll (str "&amp;") (fun _ => lit "&") s.

(** Source lines 1654-1663: the title of the article object [parsed],
    before the values are cleaned. *)
Definition jsonldTitle (doc : document) (parsed : json) : option json :=
  match prop parsed "name", prop parsed "headline" with
  | Some (JString name), Some (JString headline) =>
      if negb (JS.eqb name headline) then
        let title := _getArticleTitle doc in
        let nameSimilarity := _textSimilarity name title in
        let headlineSimilarity := _textSimilarity headline title in
        Some (JString
                (if Qgtb headlineSimilarity nameSimilarity
                    && Qgtb headlineSimilarity (3 # 4)
                 then headline else name))
      else
        if jsonTruthy (prop parsed "name") then prop parsed "name"
        else prop parsed "headline"
  | _, _ =>
      if jsonTruthy (prop parsed "name") then prop parsed "name"
      else prop parsed "headline"
  end.



End WithHost.

(** ** The engine's own state *)

(** The fields of [this] that the functions below read (source lines
    48-73) besides [_flags], which every attempt sets anew and which
    is passed on its own. *)
Record reader : Type := Reader {
  _articleTitle : jsstring;        (* the empty string when there is none *)
  _maxElemsToParse : Z;
  _charThreshold : Z;
  _allowedVideoRegex : regex;
  _linkDensityModifier : Q;
}.

(** [ToInt32] of an integer: what [&] and [~] make of an operand, the
    two's complement value of its low 32 bits. *)
Definition toInt32 (x : Z) : Z := (x + 2 ^ 31) mod 2 ^ 32 - 2 ^ 31.

(** [_flagIsActive] (source lines 2570-2572): [(this._flags & flag) > 0],
    on 32-bit integers. *)
Definition _flagIsActive (flags flag : Z) : bool :=
  Z.land (toInt32 flags) (toInt32 flag) >? 0.

Section Scoring.
Context (flags : Z).

(** [_getClassWeight] (source lines 2041-2063). *)
Definition _getClassWeight (e : node) : Z :=
  if negb (_flagIsActive flags FLAG_WEIGHT_CLASSES) then 0
  else
    let weight := 0 in
    let weight :=
      if truthy (className e) then
        weight - (if test REGEXPS.negative (className e) then 25 else 0)
               + (if test REGEXPS.positive (className e) then 25 else 0)
      else weight in
    if truthy (id e) then
      weight - (if test REGEXPS.negative (id e) then 25 else 0)
             + (if test REGEXPS.positive (id e) then 25 else 0)
    else weight.

(** The score a tag starts from (source lines 900-913). *)
Definition tagScore (n : node) : Z :=
  if hasTagIn ["DIV"] n then 5
  else if hasTagIn ["PRE"; "TD"; "BLOCKQUOTE"] n then 3
  else if hasTagIn ["ADDRESS"; "OL"; "UL"; "DL"; "DD"; "DT"; "LI"; "FORM"] n
       then -3
  else if hasTagIn ["H1"; "H2"; "H3"; "H4"; "H5"; "H6"; "TH"] n then -5
  else 0.

(** [_initializeNode] (source lines 894-915). *)
Definition _initializeNode (n : node) : node :=
  match score n with
  | Some _ => n
  | None => withScore (Some (inject_Z (0 + tagScore n + _getClassWeight n))) n
  end.

(** [_getLinkDensity] (source lines 2016-2033). *)
Definition linkCoefficient (link : node) : Q :=
  match truthyAttr link "href" with
  | Some href => if test REGEXPS.hashUrl href then (3 # 10)%Q else 1%Q
  | None => 1%Q
  end.

Definition _getLinkDensity (element : node) : Q :=
  let textLength := len (_getInnerText element true) in
  if textLength =? 0 then 0%Q
  else
    let linkLength :=
      foldl (fun acc linkNode =>
               (acc + inject_Z (len (_getInnerText linkNode true))
                      * linkCoefficient linkNode)%Q)
            0%Q (_getAllNodesWithTag element ["A"]) in
    (linkLength / inject_Z textLength)%Q.

(** [_getNodeAncestors(node, maxDepth)] (source lines 1023-1035), by
    paths; a [maxDepth] of 0 is no limit. *)
Definition _getNodeAncestors (p : path) (maxDepth : nat) : list path :=
  match maxDepth with
  | O => ancestorPaths p
  | _ => take maxDepth (ancestorPaths p)
  end.

(** *** Scoring (source lines 1243-1306)

    The state of the loops is the tree of the attempt, whose elements
    carry the scores, and the array [candidates]. *)
Definition scoring : Type := node * list path.

(** The points an element brings (source lines 1260-1262). *)
Definition contentScoreOf (innerText : jsstring) : Z :=
  let contentScore := 1 in
  let contentScore :=
    contentScore + (lenOf (Regex.split REGEXPS.commas 0 innerText) - 1) in
  contentScore + Z.min (len innerText / 100) 3.

(** Source lines 1276-1278. *)
Definition scoreDivider (level : Z) : Z :=
  if level =? 1 then 2 else if level >? 1 then level * 3 else 1.

Definition addScore (q : Q) (n : node) : node :=
  withScore ((fun s => (s + q)%Q) <$> score n) n.

(** The body of [ancestors.forEach] (source lines 1265-1281): an
    ancestor without an element for parent, which in the tree of the
    attempt is the root alone, is passed over. *)
Definition scoreAncestor (contentScore : Z) (st : scoring) (level : Z)
  (ancestor : path) : scoring :=
  let '(tree, candidates) := st in
  match getNode tree ancestor with
  | Some (Elem _ _ readability _ _) =>
      match ancestor with
      | [] => st
      | _ =>
          let '(tree, candidates) :=
            match readability with
            | None => (modifyNode _initializeNode ancestor tree,
                       candidates ++ [ancestor])
            | Some _ => (tree, candidates)
            end in
          (modifyNode
             (addScore (inject_Z contentScore / inject_Z (scoreDivider level))%Q)
             ancestor tree,
           candidates)
      end
  | _ => st
  end.

Fixpoint scoreAncestors (contentScore : Z) (level : Z) (ancestors : list path)
  (st : scoring) : scoring :=
  match ancestors with
  | [] => st
  | ancestor :: rest =>
      scoreAncestors contentScore (level + 1) rest
        (scoreAncestor contentScore st level ancestor)
  end.

(** One turn of the loop over [elementsToScore] (source lines 1244-1282). *)
Definition scoreElement (st : scoring) (elementToScore : path) : scoring :=
  match elementToScore, getNode (fst st) elementToScore with
  | _ :: _, Some element =>
      let innerText := _getInnerText element true in
      if len innerText <? 25 then st
      else
        match _getNodeAncestors elementToScore 5 with
        | [] => st
        | ancestors =>
            scoreAncestors (contentScoreOf innerText) 0 ancestors st
        end
  | _, _ => st
  end.

Definition scoreElements (tree : node) (elementsToScore : list path) : scoring :=
  foldl scoreElement (tree, []) elementsToScore.

(** Source lines 1290-1291: the score of a candidate is scaled by the
    share of its text that is not link text. *)
Definition scaleCandidate (tree : node) (candidate : path) : node :=
  modifyNode
    (fun n => withScore ((fun s => (s * (1 - _getLinkDensity n))%Q) <$> score n) n)
    candidate tree.

Definition scaleCandidates (st : scoring) : scoring :=
  (foldl scaleCandidate (fst st) (snd st), snd st).

End Scoring.

(** ** Shapes of subtrees *)

(** [n._readabilityDataTable === true]. *)
Definition isDataTable (n : node) : bool :=
  match n with Elem _ _ _ (Some true) _ => true | _ => false end.

Definition withDataTable (d : option bool) (n : node) : node :=
  match n with Elem t a r _ k => Elem t a r d k | Text s => Text s end.

(** [_hasAncestorTag(node, tagName, maxDepth, filterFn)] (source lines
    2103-2117); [ancestors] are the ancestors of the node, the parent
    first.  A [maxDepth] that is not positive is no limit. *)
Definition _hasAncestorTag (ancestors : list node) (tagName : String.string)
  (maxDepth : Z) (filterFn : node -> bool) : bool :=
  existsb (fun current => hasTag tagName current && filterFn current)
          (if maxDepth >? 0 then take (Z.to_nat maxDepth) ancestors
           else ancestors).

(** [_isPhrasingContent] (source lines 1925-1933). *)
Fixpoint _isPhrasingContent (n : node) : bool :=
  match n with
  | Text _ => true
  | Elem _ _ _ _ k =>
      hasTagIn PHRASING_ELEMS n
      || (hasTagIn ["A"; "DEL"; "INS"] n && forallb _isPhrasingContent k)
  end.

(** [_isWhitespace] (source lines 1940-1945). *)
Definition _isWhitespace (n : node) : bool :=
  match n with
  | Text s => len (trim s) =? 0
  | Elem _ _ _ _ _ => hasTag "BR" n
  end.

Definition textWithContent (n : node) : bool :=
  isText n && test REGEXPS.hasContent (textContent n).

(** [_hasSingleTagInsideElement] (source lines 1878-1887). *)
Definition _hasSingleTagInsideElement (element : node) (tag : String.string)
  : bool :=
  match children element with
  | [child] => hasTag tag child
  | _ => false
  end
  && negb (existsb textWithContent (childNodes element)).

Definition firstElementChild (n : node) : option node := head (children n).

(** [_isSingleImage] (source lines 1792-1812). *)
Fixpoint _isSingleImage (n : node) : bool :=
  match n with
  | Text _ => false
  | Elem _ _ _ _ k =>
      hasTag "IMG" n
      || match List.filter (fun c => fst c) (map (fun c => (isElement c, _isSingleImage c)) k) with
         | [(_, single)] => negb (existsb textWithContent k) && single
         | _ => false
         end
  end.

(** [_nextNode(node)] (source lines 690-696), from the siblings that
    follow the node. *)
Fixpoint _nextNode (following : list node) : option node :=
  match following with
  | [] => None
  | next :: rest =>
      if negb (isElement next) && test REGEXPS.whitespace (textContent next)
      then _nextNode rest else Some next
  end.

(** [_setNodeTag(node, tag)] (source lines 769-799): the children, the
    attributes and the score move to the new element. *)
Definition _setNodeTag (n : node) (tag : String.string) : node :=
  match n with
  | Elem _ a r _ k => Elem (lit tag) a r None k
  | Text s => Text s
  end.

(** ** Ways of going through a static list of descendants *)

(** [_removeNodes(nodeList, filterFn)] (source lines 243-255) for the
    descendants with one of [tags]: the list is gone through backwards,
    so a node is judged once all that follows it in the document, its
    own descendants first of all, has been judged; [filterFn] reads the
    subtree of the node alone. *)
Fixpoint _removeNodes (tags : list String.string) (filterFn : node -> bool)
  (n : node) : node :=
  match n with
  | Text s => Text s
  | Elem t a r d k =>
      Elem t a r d
        (omap (fun c =>
                 let c' := _removeNodes tags filterFn c in
                 if hasTagIn tags c' && filterFn c' then None else Some c') k)
  end.

(** A loop that goes forward through the static list of the descendants
    with a tag, and removes the node at hand when [judge] says so: a node
    is judged before its descendants are, among the ancestors it has
    (the parent first); what hangs below a removed node is out of the
    tree, and judging it changes nothing in the tree. *)
Fixpoint removeForward (matches : node -> bool)
  (judge : list node -> node -> bool) (ancestors : list node) (n : node)
  : node :=
  match n with
  | Text s => Text s
  | Elem t a r d k =>
      Elem t a r d
        (omap (fun c =>
                 if matches c && judge (n :: ancestors) c then None
                 else Some (removeForward matches judge (n :: ancestors) c)) k)
  end.

(** A loop that goes forward through a static list of descendants and
    changes the node at hand with [f]: its tag, its attributes, its
    expando properties, and children it appends after those it has.  The
    node is changed as it stands before its descendants are; an appended
    child is not in the list. *)
Fixpoint mapTree (f : node -> node) (n : node) : node :=
  match n with
  | Text s => Text s
  | Elem _ _ _ _ k =>
      match f n with
      | Elem t a r d k' => Elem t a r d (map (mapTree f) k ++ drop (length k) k')
      | Text s => Text s
      end
  end.

Definition mapDescendants (f : node -> node) (root : node) : node :=
  withChildren root (map (mapTree f) (childNodes root)).

(** ** Numbers that may be [NaN] *)

(** [None] is [NaN]. *)
Definition num : Type := option Z.

Definition numAdd (a b : num) : num :=
  match a, b with Some x, Some y => Some (x + y) | _, _ => None end.

Definition numMul (a b : num) : num :=
  match a, b with Some x, Some y => Some (x * y) | _, _ => None end.

(** [Math.max(a, b)]. *)
Definition numMax (a b : num) : num :=
  match a, b with Some x, Some y => Some (Z.max x y) | _, _ => None end.

(** A comparison with [NaN] is false. *)
Definition numGt (a : num) (b : Z) : bool :=
  match a with Some x => x >? b | None => false end.

Definition numGe (a : num) (b : Z) : bool :=
  match a with Some x => x >=? b | None => false end.

Fixpoint leadingDigits (s : jsstring) : jsstring :=
  match s with
  | c :: t => if isDigit c then c :: leadingDigits t else []
  | [] => []
  end.

Definition digitsValue (ds : jsstring) : Z :=
  foldl (fun acc c => acc * 10 + (Z.of_N c - 48)) 0 ds.

(** [parseInt(s, 10)]. *)
Definition parseInt10 (s : jsstring) : num :=
  let s := trimStart s in
  let '(sign, s) :=
    match s with
    | 45%N :: t => (-1, t)
    | 43%N :: t => (1, t)
    | _ => (1, s)
    end in
  match leadingDigits s with
  | [] => None
  | ds => Some (sign * digitsValue ds)
  end.

Definition Qltb (a b : Q) : bool := Qgtb b a.

(** ** The sanitizer: [_prepArticle] and what it calls *)

Section Sanitizer.
Context (host : Host) (this : reader) (flags : Z).

Definition removeAttributes (names : list String.string) (e : node) : node :=
  foldl removeAttribute e names.

(** [_cleanStyles] (source lines 1987-2008). *)
Fixpoint _cleanStyles (e : node) : node :=
  match e with
  | Text s => Text s
  | Elem t a r d k =>
      if JS.eqb (toLowerCase host t) (lit "svg") then e
      else
        let e := removeAttributes PRESENTATIONAL_ATTRIBUTES e in
        let e :=
          if hasTagIn DEPRECATED_SIZE_ATTRIBUTE_ELEMS e
          then removeAttributes ["width"; "height"] e else e in
        withChildren e (map _cleanStyles k)
  end.

(** [_getRowAndColumnCount] (source lines 2124-2143). *)
Definition spanOf (n : node) (name : String.string) : num :=
  parseInt10 (default (lit "1") (truthyAttr n name)).

Definition _getRowAndColumnCount (table : node) : num * num :=
  foldl (fun '(rows, columns) tr =>
           let rows := numAdd rows (spanOf tr "rowspan") in
           let columnsInThisRow :=
             foldl (fun acc cell =>
                      if hasTagIn ["TD"; "TH"] cell
                      then numAdd acc (spanOf cell "colspan") else acc)
                   (Some 0) (children tr) in
           (rows, numMax columns columnsInThisRow))
        (Some 0, Some 0) (getElementsByTagName table "TR").

(** What [_markDataTables] (source lines 2150-2196) sets on a table. *)
Definition dataTableFlag (table : node) : bool :=
  let role := getAttribute table "role" in
  if bool_decide (role = Some (lit "presentation"))
     || bool_decide (role = Some (lit "none")) then false
  else if bool_decide (getAttribute table "datatable" = Some (lit "0")) then false
  else if bool_decide (is_Some (truthyAttr table "summary")) then true
  else if match getElementsByTagName table "CAPTION" with
          | caption :: _ => test REGEXPS.hasContent (textContent caption)
          | [] => false
          end then true
  else if existsb (fun tag =>
                     bool_decide (getElementsByTagName table tag <> []))
                  ["COL"; "COLGROUP"; "TFOOT"; "THEAD"; "TH"] then true
  else if bool_decide (getElementsByTagName table "TABLE" <> []) then false
  else
    let '(rows, columns) := _getRowAndColumnCount table in
    if numGe rows 10 || numGt columns 4 then true
    else numGt (numMul rows columns) 10.

Definition _markDataTables (root : node) : node :=
  mapDescendants
    (fun table =>
       if hasTag "TABLE" table
       then withDataTable (Some (dataTableFlag table)) table else table)
    root.

(** [_isUrl] (source lines 386-399). *)
Definition _isUrl (str : jsstring) : bool :=
  if negb (truthy str) then false
  else if (startsWith str (lit "http:") || startsWith str (lit "https:")
           || startsWith str (lit "//"))
          && bool_decide (is_Some (newURL host str None)) then true
  else
    test (rseq [RBol; RAlt (rseq [Regex.str "http"; ropt (chr 115)])
                           (Regex.str "ftp"); Regex.str "://"]) str
    || test (rseq [RBol; chr 47; ropt (RChar (fun c => negb (c =? 47)%N))]) str
    || test (rseq [RBol; chr 35]) str.

(** /\.(jpg|jpeg|png|webp|gif|bmp|svg)/i (source line 2206). *)
Definition imageExtensions : regex :=
  rseq [chr 46; RGroup 1 (ralt (stri <$> ["jpg"; "jpeg"; "png"; "webp";
                                          "gif"; "bmp"; "svg"]))].

(** /\.(jpg|jpeg|png|webp)\s+\d/ (source line 2247). *)
Definition srcsetLike : regex :=
  rseq [chr 46; RGroup 1 (ralt (Regex.str <$> ["jpg"; "jpeg"; "png"; "webp"]));
        rplus REGEXPS.sp; RChar isDigit].

(** The body of the loop of [_fixLazyImages] (source lines 2208-2292). *)
Definition lazySources (elem : node) : option jsstring * option jsstring :=
  foldl (fun '(potentialSrc, potentialSrcset) attr =>
           let attrName := toLowerCase host (fst attr) in
           let attrValue := snd attr in
           if negb (truthy attrValue) || JS.eqb attrName (lit "src")
              || JS.eqb attrName (lit "srcset")
           then (potentialSrc, potentialSrcset)
           else
             let '(potentialSrc, potentialSrcset) :=
               if test srcsetLike attrValue then
                 (potentialSrc,
                  match potentialSrcset with
                  | None => Some attrValue
                  | Some _ => potentialSrcset
                  end)
               else if test imageExtensions attrValue
                       && negb (includes attrValue (lit " "))
                       && _isUrl attrValue then
                 (match potentialSrc with
                  | None => Some attrValue
                  | Some _ => potentialSrc
                  end, potentialSrcset)
               else (potentialSrc, potentialSrcset) in
             if (includes attrName (lit "lazy") || includes attrName (lit "load"))
                && test imageExtensions attrValue
             then
               match potentialSrc, potentialSrcset with
               | None, None =>
                   if _isUrl attrValue then (Some attrValue, potentialSrcset)
                   else (potentialSrc, potentialSrcset)
               | _, _ => (potentialSrc, potentialSrcset)
               end
             else (potentialSrc, potentialSrcset))
        (None, None) (attributes elem).

Definition fixLazyImage (elem : node) : node :=
  let currentSrc := truthyAttr elem "src" in
  let currentSrcset := truthyAttr elem "srcset" in
  let hasRealSrc :=
    match currentSrc with
    | Some src => negb (test REGEXPS.b64DataUrl src)
    | None => false
    end || bool_decide (is_Some currentSrcset) in
  let canRemovePlaceholder :=
    match currentSrc with
    | Some src =>
        match exec REGEXPS.b64DataUrl src with
        | Some parts =>
            negb (bool_decide (cap parts 1 = Some (lit "image/svg+xml")))
            && (len src - len (f_text parts) <? 150)
            && existsb (fun attr => negb (JS.eqb (fst attr) (lit "src"))
                                    && test imageExtensions (snd attr))
                       (attributes elem)
        | None => false
        end
    | None => false
    end in
  let elem := if canRemovePlaceholder then removeAttribute elem "src" else elem in
  let '(potentialSrc, potentialSrcset) := lazySources elem in
  let elem :=
    if negb hasRealSrc || canRemovePlaceholder then
      let elem :=
        match potentialSrcset with
        | Some v => setAttribute elem "srcset" v
        | None => elem
        end in
      match potentialSrc with
      | Some v =>
          match truthyAttr elem "srcset" with
          | None => setAttribute elem "src" v
          | Some _ => elem
          end
      | None => elem
      end
    else elem in
  if hasTag "FIGURE" elem
     && bool_decide (_getAllNodesWithTag elem ["IMG"; "PICTURE"] = [])
     && bool_decide (is_Some potentialSrcset \/ is_Some potentialSrc)
  then
    let img := createElement (lit "IMG") [] in
    let img := match potentialSrcset with
               | Some v => setAttribute img "srcset" v | None => img end in
    let img := match potentialSrc with
               | Some v => setAttribute img "src" v | None => img end in
    withChildren elem (childNodes elem ++ [img])
  else elem.

(** [_fixLazyImages] (source lines 2204-2293). *)
Definition _fixLazyImages (root : node) : node :=
  mapDescendants
    (fun elem =>
       if hasTagIn ["IMG"; "PICTURE"; "FIGURE"] elem
       then fixLazyImage elem else elem)
    root.

(** An attribute value, or for an object its markup, names an allowed
    video (source lines 2077-2087 and 2390-2392). *)
Definition isVideoEmbed (element : node) : bool :=
  existsb (fun attr => test (_allowedVideoRegex this) (snd attr))
          (attributes element)
  || (hasTag "OBJECT" element
      && test (_allowedVideoRegex this) (innerHTML host element)).

(** [_clean(e, tag)] (source lines 2071-2092). *)
Definition _clean (e : node) (tag : String.string) : node :=
  let isEmbedTag :=
    bool_decide (tag ∈ ["OBJECT"; "EMBED"; "IFRAME"]) in
  _removeNodes [tag]
    (fun element => if isEmbedTag then negb (isVideoEmbed element) else true)
    e.

(** [`${node.className || ""} ${node.id || ""}`]. *)
Definition matchString (n : node) : jsstring :=
  className n ++ lit " " ++ id n.

(** [_cleanMatchedNodes(e, filter)] (source lines 2513-2528). *)
Definition _cleanMatchedNodes (e : node) (filter : node -> jsstring -> bool)
  : node :=
  removeForward isElement (fun _ n => filter n (matchString n)) [] e.

(** [_headerDuplicatesTitle] (source lines 2554-2568). *)
Definition _headerDuplicatesTitle (n : node) : bool :=
  if negb (hasTagIn ["H1"; "H2"] n) then false
  else if negb (truthy (_articleTitle this)) then false
  else
    let heading := _getInnerText n false in
    let title := _articleTitle this in
    let similarity := _textSimilarity host title heading in
    Qgtb similarity (3 # 4)
    || (Qgtb similarity (1 # 2)
        && Qltb (inject_Z (len heading) * (3 # 2)) (inject_Z (len title))).

(** [_cleanHeaders] (source lines 2535-2546). *)
Definition _cleanHeaders (e : node) : node :=
  _removeNodes ["H1"; "H2"]
    (fun n =>
       let isNegative := _getClassWeight flags n <? 0 in
       let isDuplicate :=
         truthy (_articleTitle this) && _headerDuplicatesTitle n in
       isNegative || isDuplicate)
    e.

(** *** Conditional cleaning: [_cleanConditionally] (source lines 2323-2503) *)

(** The selectors of [MAPPING] (source lines 2355-2362). *)
Definition MAPPING : list String.string :=
  ["P"; "IMG"; "LI"; "INPUT"; "H1"; "H2"; "H3"; "H4"; "H5"; "H6";
   "OBJECT"; "EMBED"; "IFRAME"; "SPAN"; "TD"; "DIV"; "BLOCKQUOTE"; "A"].

Definition textishTags : list String.string :=
  ["SPAN"; "LI"; "TD"; "P"; "DIV"; "BLOCKQUOTE"; "A"].

(** What the loop over [elementsInside] gathers (source lines 2365-2400):
    the object [counts], keyed by strings, and two sums. *)
Record tally : Type := Tally {
  counts : gmap jsstring Z;
  linkLength : Q;
  textDensityLength : Z;
}.

(** [counts[key] = (counts[key] || 0) + by]. *)
Definition bump (key : jsstring) (by_ : Z) (c : gmap jsstring Z)
  : gmap jsstring Z :=
  <[key := default 0 (c !! key) + by_]> c.

(** [counts[key] || 0]. *)
Definition countOf (c : gmap jsstring Z) (key : String.string) : Z :=
  default 0 (c !! lit key).

Definition tallyStep (t : tally) (elem : node) : tally :=
  let tagNameLower := toLowerCase host (default [] (tagName elem)) in
  let counts := bump tagNameLower 1 (counts t) in
  let elemText := _getInnerText elem true in
  let '(textDensityLength, linkLength) :=
    if hasTagIn textishTags elem then
      (textDensityLength t + len elemText,
       if hasTag "A" elem
       then (linkLength t + inject_Z (len elemText) * linkCoefficient elem)%Q
       else linkLength t)
    else (textDensityLength t, linkLength t) in
  let counts :=
    if bool_decide (tagNameLower ∈ [lit "object"; lit "embed"; lit "iframe"])
    then
      let isVideo :=
        existsb (fun attr => test (_allowedVideoRegex this) (snd attr))
                (attributes elem)
        || (JS.eqb tagNameLower (lit "object")
            && test (_allowedVideoRegex this) (innerHTML host elem)) in
      bump (lit (if isVideo then "videoEmbed" else "otherEmbed")) 1 counts
    else counts in
  let counts :=
    if startsWith tagNameLower (lit "h") && (len tagNameLower =? 2)
    then bump (lit "headingTextLength") (len elemText) counts
    else counts in
  Tally counts linkLength textDensityLength.

Definition tallyOf (n : node) : tally :=
  foldl tallyStep (Tally ∅ 0%Q 0) (_getAllNodesWithTag n MAPPING).

(** The numbers the stricter rules read (source lines 2417-2435). *)
Record measures : Type := Measures {
  weight : Z;
  isList : bool;
  contentLength : Z;
  pCount : Z;
  imgCount : Z;
  liCount : Z;
  liProportion : Q;
  inputCount : Z;
  headingDensity : Q;
  embedCount : Z;
  videoEmbedCount : Z;
  linkDensity : Q;
  textDensity : Q;
  isFigureAncestor : bool;
}.

Definition ratio (a : Q) (contentLength : Z) : Q :=
  if contentLength >? 0 then (a / inject_Z contentLength)%Q else 0%Q.

(** [textContentByTag] (source line 2366) is declared empty and nothing
    is ever stored in it. *)
Definition textContentByTag : gmap jsstring jsstring := ∅.

Definition measure (ancestors : list node) (n : node) : measures :=
  let t := tallyOf n in
  let contentLength := len (_getInnerText n true) in
  {| weight := _getClassWeight flags n;
     isList := hasTagIn ["UL"; "OL"] n;
     contentLength := contentLength;
     pCount := countOf (counts t) "p";
     imgCount := countOf (counts t) "img";
     liCount := countOf (counts t) "li";
     liProportion :=
       ratio (inject_Z (len (default [] (textContentByTag !! lit "li"))))
             contentLength;
     inputCount := countOf (counts t) "input";
     headingDensity :=
       ratio (inject_Z (countOf (counts t) "headingTextLength")) contentLength;
     embedCount := countOf (counts t) "otherEmbed";
     videoEmbedCount := countOf (counts t) "videoEmbed";
     linkDensity := ratio (linkLength t) contentLength;
     textDensity := ratio (inject_Z (textDensityLength t)) contentLength;
     isFigureAncestor := _hasAncestorTag ancestors "FIGURE" 3 (fun _ => true) |}.

(** The eight checks of [shouldRemoveNode] (source lines 2437-2471), in
    the order of the source. *)
Definition badImageRatio (m : measures) : bool :=
  negb (isFigureAncestor m) && (imgCount m >? 1)
  && ((pCount m =? 0)
      || Qltb (inject_Z (pCount m) / inject_Z (imgCount m)) (1 # 2)).

Definition highLiProportion (m : measures) : bool :=
  negb (isList m) && (liCount m >? 0) && (pCount m =? 0)
  && Qgtb (liProportion m) (1 # 2).

Definition tooManyInputs (m : measures) : bool :=
  inputCount m >? pCount m / 3.

Definition shortAndLinky (m : measures) : bool :=
  (contentLength m <? 25) && ((imgCount m =? 0) || (imgCount m >? 2))
  && negb (isFigureAncestor m) && negb (isList m)
  && Qltb (headingDensity m) (9 # 10) && Qgtb (linkDensity m) (2 # 10).

Definition lowWeightLinky (m : measures) : bool :=
  negb (isList m) && (weight m <? 25)
  && Qgtb (linkDensity m) ((2 # 10) + _linkDensityModifier this).

Definition highWeightLinky (m : measures) : bool :=
  (weight m >=? 25)
  && Qgtb (linkDensity m) ((5 # 10) + _linkDensityModifier this).

Definition suspiciousEmbeds (m : measures) : bool :=
  ((embedCount m =? 1) && (contentLength m <? 75) && (imgCount m =? 0))
  || (embedCount m >? 1).

Definition lowTextDensity (m : measures) : bool :=
  (imgCount m =? 0) && (videoEmbedCount m =? 0)
  && Qltb (textDensity m) (1 # 10) && (contentLength m <? 100).

Definition shouldRemoveNode (m : measures) : bool :=
  badImageRatio m || highLiProportion m || tooManyInputs m || shortAndLinky m
  || lowWeightLinky m || highWeightLinky m || suspiciousEmbeds m
  || lowTextDensity m.

(** Source lines 2476-2494: a list whose items are each one image. *)
Definition imageListException (n : node) (m : measures) : bool :=
  let listItems := children n in
  negb (negb (lenOf listItems =? liCount m) || (liCount m =? 0))
  && forallb (fun item => hasTag "LI" item && _isSingleImage item) listItems
  && (imgCount m =? liCount m).

(** Whether the loop removes the node it has at hand. *)
Definition conditionallyRemoves (ancestors : list node) (n : node) : bool :=
  if hasTag "TABLE" n && isDataTable n then false
  else if _hasAncestorTag ancestors "TABLE" (-1) isDataTable then false
  else if _hasAncestorTag ancestors "CODE" 3 (fun _ => true) then false
  else if existsb isDataTable (getElementsByTagName n "TABLE") then false
  else if _getClassWeight flags n <? 0 then true
  else
    let m := measure ancestors n in
    let innerText := _getInnerText n true in
    let charCountComma := _getCharCount n 44 in
    if (contentLength m >? 0) && (contentLength m <? 50)
       && (test REGEXPS.adWords innerText || test REGEXPS.loadingWords innerText)
    then true
    else if charCountComma <? 10 then
      if (videoEmbedCount m >? 0) && (embedCount m =? 0) && (imgCount m =? 0)
      then false
      else
        let haveToRemove := shouldRemoveNode m in
        if isList m && haveToRemove && imageListException n m then false
        else haveToRemove
    else false.

Definition _cleanConditionally (e : node) (tag : String.string) : node :=
  if negb (_flagIsActive flags FLAG_CLEAN_CONDITIONALLY) then e
  else removeForward (hasTag tag) conditionallyRemoves [] e.

(** *** The stages of [_prepArticle] written in place *)

(** Source lines 826-835. *)
Definition cleanShareElements (articleContent : node) : node :=
  let shareElementThreshold := DEFAULT_CHAR_THRESHOLD in
  withChildren articleContent
    (map (fun topCandidate =>
            _cleanMatchedNodes topCandidate
              (fun n matchString =>
                 test REGEXPS.shareElements matchString
                 && (len (textContent n) <? shareElementThreshold)))
         (childNodes articleContent)).

(** Source line 851. *)
Definition replaceH1s (articleContent : node) : node :=
  mapDescendants
    (fun n => if hasTag "H1" n then _setNodeTag n "H2" else n)
    articleContent.

(** Source lines 855-858. *)
Definition removeEmptyParagraphs (articleContent : node) : node :=
  _removeNodes ["P"]
    (fun paragraph =>
       let contentElementCount :=
         lenOf (_getAllNodesWithTag paragraph
                  ["IMG"; "EMBED"; "OBJECT"; "IFRAME"]) in
       (contentElementCount =? 0) && negb (truthy (_getInnerText paragraph false)))
    articleContent.

(** Source lines 861-868. *)
Fixpoint removeBrsBeforeParagraphs (n : node) : node :=
  match n with
  | Text s => Text s
  | Elem t a r d k =>
      Elem t a r d
        ((fix go (l : list node) : list node :=
            match l with
            | [] => []
            | br :: following =>
                if hasTag "BR" br
                   && match _nextNode following with
                      | Some next => hasTag "P" next
                      | None => false
                      end
                then go following
                else removeBrsBeforeParagraphs br :: go following
            end) k)
  end.

(** Source lines 871-886: the only cell of a table, if it has one. *)
Definition singleCell (table : node) : option node :=
  let tbody :=
    if _hasSingleTagInsideElement table "TBODY"
    then default table (firstElementChild table) else table in
  if _hasSingleTagInsideElement tbody "TR" then
    row ← firstElementChild tbody;
    if _hasSingleTagInsideElement row "TD" then firstElementChild row
    else None
  else None.

(** The tables are gone through forward: a table that has one cell gives
    way to the cell, made a P or a DIV by what the cell holds then; the
    tables inside the cell have their turn afterwards, where they then
    are.  [table'] is the table with that done to what is below it. *)
Fixpoint collapseSingleCellTables (n : node) : node :=
  match n with
  | Text s => Text s
  | Elem t a r d k =>
      let table' := Elem t a r d (map collapseSingleCellTables k) in
      if hasTag "TABLE" n then
        match singleCell n, singleCell table' with
        | Some cell, Some cell' =>
            let newTagName :=
              if forallb _isPhrasingContent (childNodes cell)
              then "P" else "DIV" in
            _setNodeTag cell' newTagName
        | _, _ => table'
        end
      else table'
  end.

Definition removeSingleCellTables (articleContent : node) : node :=
  withChildren articleContent
    (map collapseSingleCellTables (childNodes articleContent)).

(** [_prepArticle] (source lines 807-887). *)
Definition _prepArticle (articleContent : node) : node :=
  let articleContent := _cleanStyles articleContent in
  let articleContent := _markDataTables articleContent in
  let articleContent := _fixLazyImages articleContent in
  let articleContent := _cleanConditionally articleContent "FORM" in
  let articleContent := _cleanConditionally articleContent "FIELDSET" in
  let articleContent := _clean articleContent "OBJECT" in
  let articleContent := _clean articleContent "EMBED" in
  let articleContent := _clean articleContent "FOOTER" in
  let articleContent := _clean articleContent "LINK" in
  let articleContent := _clean articleContent "ASIDE" in
  let articleContent := cleanShareElements articleContent in
  let articleContent := _clean articleContent "IFRAME" in
  let articleContent := _clean articleContent "INPUT" in
  let articleContent := _clean articleContent "TEXTAREA" in
  let articleContent := _clean articleContent "SELECT" in
  let articleContent := _clean articleContent "BUTTON" in
  let articleContent := _cleanHeaders articleContent in
  let articleContent := _cleanConditionally articleContent "TABLE" in
  let articleContent := _cleanConditionally articleContent "UL" in
  let articleContent := _cleanConditionally articleContent "DIV" in
  let articleContent := replaceH1s articleContent in
  let articleContent := removeEmptyParagraphs articleContent in
  let articleContent := removeBrsBeforeParagraphs articleContent in
  removeSingleCellTables articleContent.

End Sanitizer.

(** ** Absolute URIs: [_fixRelativeUris] (source lines 407-484) *)

Section FixRelativeUris.
Context (host : Host) (doc : document).

(** [toAbsoluteURI] (source lines 411-431).  [None] is the exception
    that [new URL(baseURI)] throws outside the [try]. *)
Definition toAbsoluteURI (uri : jsstring) : option jsstring :=
  if negb (truthy uri) then Some uri
  else if JS.eqb (baseURI doc) (documentURI doc) && startsWith uri (lit "#")
  then Some uri
  else
    uri ← (if startsWith uri (lit "//")
           then (fun base => protocol base ++ uri) <$> newURL host (baseURI doc) None
           else Some uri);
    Some match newURL host uri (Some (baseURI doc)) with
         | Some resolved => href resolved
         | None => uri
         end.

(** The loop over the links (source lines 434-457). *)
Fixpoint fixLink (n : node) : option node :=
  match n with
  | Text s => Some (Text s)
  | Elem t a r d k =>
      k' ← mapM fixLink k;
      if hasTag "A" n then
        match truthyAttr n "href" with
        | Some href =>
            if startsWith href (lit "javascript:") then
              match k with
              | [Text _] => Some (Text (textContent n))
              | _ => Some (createElement (lit "SPAN") k')
              end
            else
              absolute ← toAbsoluteURI href;
              Some (setAttribute (Elem t a r d k') "href" absolute)
        | None => Some (Elem t a r d k')
        end
      else Some (Elem t a r d k')
  end.

Definition mediaTags : list String.string :=
  ["IMG"; "PICTURE"; "FIGURE"; "VIDEO"; "AUDIO"; "SOURCE"].

(** The body of the loop over the media (source lines 463-483). *)
Definition fixMedium (medium : node) : option node :=
  let src := truthyAttr medium "src" in
  let poster := truthyAttr medium "poster" in
  let srcset := truthyAttr medium "srcset" in
  medium ← match src with
           | Some v => setAttribute medium "src" <$> toAbsoluteURI v
           | None => Some medium
           end;
  medium ← match poster with
           | Some v => setAttribute medium "poster" <$> toAbsoluteURI v
           | None => Some medium
           end;
  match srcset with
  | Some v =>
      setAttribute medium "srcset" <$>
        replaceAllM REGEXPS.srcsetUrl
          (fun m =>
             p1 ← toAbsoluteURI (default [] (cap m 1));
             Some (p1 ++ default [] (cap m 2) ++ default [] (cap m 3)))
          v
  | None => Some medium
  end.

Fixpoint fixMedia (n : node) : option node :=
  match n with
  | Text s => Some (Text s)
  | Elem t a r d k =>
      k' ← mapM fixMedia k;
      if hasTagIn mediaTags n then fixMedium (Elem t a r d k')
      else Some (Elem t a r d k')
  end.

Definition _fixRelativeUris (articleContent : node) : option node :=
  k ← mapM fixLink (childNodes articleContent);
  k ← mapM fixMedia k;
  Some (withChildren articleContent k).

End FixRelativeUris.

(** ** The attempts: [_grabArticle] (source lines 1045-1496) *)

(** [_finalizeArticle] (source lines 1507-1578), as far as the element it
    returns goes; the text direction it stores in [this] is left out. *)
Definition _finalizeArticle (articleContent : node)
  (neededToCreateTopCandidate : bool) : node :=
  if neededToCreateTopCandidate then
    setAttribute (setAttribute articleContent "id" (lit "readability-page-1"))
                 "class" (lit "page")
  else
    let div :=
      setAttribute
        (setAttribute (createElement (lit "DIV") (childNodes articleContent))
                      "id" (lit "readability-page-1"))
        "class" (lit "page") in
    withChildren articleContent [div].

(** An entry of [this._attempts]. *)
Record attempt : Type := Attempt {
  articleContent : node;
  textLength : Z;
}.

(** What one turn of the loop has in hand when it comes to the check of
    the length: the content after [_prepArticle], and whether the top
    candidate was made up. *)
Record prepared : Type := Prepared {
  preparedContent : node;
  neededToCreateTopCandidate : bool;
}.

Section GrabArticle.
Context (host : Host) (this : reader).

(** The walk over the nodes (source lines 1086-1237) gives the tree of
    the attempt and [elementsToScore]; the choice of the top candidate
    and the joining of its siblings (source lines 1308-1449) give the
    content and say whether the top candidate was made up.  Both read
    the flags, the tree they are handed and constants of [this]. *)
Variable walk : Z -> node -> node * list path.
Variable selectAndJoin : Z -> bool -> scoring -> node * bool.

(** Source lines 1086-1458: one attempt, on [currentAttemptNode]. *)
Definition attemptBody (isPaging : bool) (currentFlags : Z)
  (currentAttemptNode : node) : prepared :=
  let '(tree, elementsToScore) := walk currentFlags currentAttemptNode in
  let candidates :=
    scaleCandidates (scoreElements currentFlags tree elementsToScore) in
  let '(articleContent, neededToCreateTopCandidate) :=
    selectAndJoin currentFlags isPaging candidates in
  Prepared (_prepArticle host this currentFlags articleContent)
           neededToCreateTopCandidate.

(** Source lines 1061-1066. *)
Definition flagSequences : list Z :=
  [Z.lor (Z.lor FLAG_STRIP_UNLIKELYS FLAG_WEIGHT_CLASSES) FLAG_CLEAN_CONDITIONALLY;
   Z.lor FLAG_WEIGHT_CLASSES FLAG_CLEAN_CONDITIONALLY;
   FLAG_CLEAN_CONDITIONALLY;
   0].

(** The [for] loop (source lines 1071-1478) from [attemptIndex] on:
    [inl] is the [return] of a successful attempt, [inr] the array
    [_attempts] when the loop runs out. *)
Fixpoint attemptLoop (isPaging : bool)
  (originalPage pageCloneForParsing : node) (attemptIndex : Z) (remaining : list Z) (_attempts : list attempt)
  : node + list attempt :=
  match remaining with
  | [] => inr _attempts
  | currentFlags :: rest =>
      let currentAttemptNode :=
        if attemptIndex >? 0 then cloneNode originalPage
        else pageCloneForParsing in
      let result := attemptBody isPaging currentFlags currentAttemptNode in
      let textLength := len (_getInnerText (preparedContent result) true) in
      if textLength >=? _charThreshold this then
        inl (_finalizeArticle (preparedContent result)
                              (neededToCreateTopCandidate result))
      else
        attemptLoop isPaging originalPage pageCloneForParsing (attemptIndex + 1)
          rest
          (_attempts ++ [Attempt (cloneNode (preparedContent result)) textLength])
  end.

(** [_grabArticle(page)]; [None] is [null]. *)
Definition _grabArticle (doc : document) (page : option node) : option node :=
  originalPage ← (match page with Some _ => page | None => body doc end);
  let isPaging := bool_decide (is_Some page) in
  let pageCloneForParsing := cloneNode originalPage in
  match attemptLoop isPaging originalPage pageCloneForParsing 0
          flagSequences [] with
  | inl finalized => Some finalized
  | inr _attempts =>
      match sortDesc textLength _attempts with
      | best :: _ =>
          if textLength best >? 0
          then Some (_finalizeArticle (articleContent best) true)
          else None
      | [] => None
      end
  end.

End GrabArticle.

(** ** The entry point: the constructor and [parse] *)

(** The options the constructor reads numbers from (source lines 63-73);
    [None] is an option left out. *)
Record options : Type := Options {
  maxElemsToParse : option Z;
  charThreshold : option Z;
  allowedVideoRegex : option regex;
  linkDensityModifier : option Q;
}.

(** [value || fallback] for a number. *)
Definition orElse (value : option Z) (fallback : Z) : Z :=
  match value with
  | Some v => if v =? 0 then fallback else v
  | None => fallback
  end.

(** The constructor (source lines 36-108); the title is set by [parse]. *)
Definition newReadability (o : options) : reader :=
  {| _articleTitle := [];
     _maxElemsToParse := orElse (maxElemsToParse o) DEFAULT_MAX_ELEMS_TO_PARSE;
     _charThreshold := orElse (charThreshold o) DEFAULT_CHAR_THRESHOLD;
     _allowedVideoRegex := default REGEXPS.videos (allowedVideoRegex o);
     _linkDensityModifier := default 0%Q (linkDensityModifier o) |}.

(** What [parse] throws. *)
Inductive thrown (E : Type) : Type :=
| TooManyElements (message : jsstring)   (* the Error of source line 2607 *)
| Raised (e : E).                        (* anything later code throws *)
Arguments TooManyElements {E} message.
Arguments Raised {E} e.

Section Parse.
Context {article E : Type}.

(** The phases of [parse] after the check of the size (source lines
    2611-2662): they change the document, and return the article or
    [null], or throw. *)
Variable phases : reader -> document -> document * (E + option article).

(** [doc.getElementsByTagName("*").length]. *)
Definition numTagsOf (doc : document) : Z := countElements (documentElement doc).

(** [parse] (source lines 2602-2663): the document as it is left, and
    what is thrown or returned. *)
Definition parse (this : reader) (doc : document)
  : document * (thrown E + option article) :=
  let numTags := numTagsOf doc in
  if (_maxElemsToParse this >? 0) && (numTags >? _maxElemsToParse this) then
    (doc,
     inl (TooManyElements
            (lit "Aborting parsing document; " ++ digitsOf numTags
             ++ lit " elements found (max: "
             ++ digitsOf (_maxElemsToParse this) ++ lit ")")))
  else
    match phases this doc with
    | (doc', inl e) => (doc', inl (Raised e))
    | (doc', inr result) => (doc', inr result)
    end.

End Parse.

(** ** Other functions of the engine *)

Definition DIV_TO_P_ELEMS : list String.string :=
  ["BLOCKQUOTE"; "DL"; "DIV"; "IMG"; "OL"; "P"; "PRE"; "TABLE"; "UL"].

Definition CLASSES_TO_PRESERVE : list String.string := ["page"].

(** [_removeFlag] (source lines 2574-2576): [this._flags & ~flag], on
    32-bit integers. *)
Definition _removeFlag (flags flag : Z) : Z :=
  toInt32 (Z.land (toInt32 flags) (toInt32 (Z.lnot (toInt32 flag)))).


(** [_isElementWithoutContent] (source lines 1895-1903). *)
Fixpoint _isElementWithoutContent (n : node) : bool :=
  match n with
  | Text _ => false
  | Elem _ _ _ _ k =>
      if test REGEXPS.hasContent (textContent n) then false
      else
        negb (existsb (fun child =>
                         isElement child
                         && negb (hasTag "BR" child) && negb (hasTag "HR" child)
                         && negb (_isElementWithoutContent child)) k)
  end.

(** [_hasChildBlockElement] (source lines 1911-1917). *)
Fixpoint _hasChildBlockElement (element : node) : bool :=
  match element with
  | Text _ => false
  | Elem _ _ _ _ k =>
      existsb (fun n =>
                 match n with
                 | Text _ => false
                 | Elem _ _ _ _ _ =>
                     hasTagIn DIV_TO_P_ELEMS n || _hasChildBlockElement n
                 end) k
  end.

(** [this._classesToPreserve] as the constructor sets it (source lines
    71-73) from the option [classesToPreserve]. *)
Definition _classesToPreserve (classesToPreserve : option (list jsstring))
  : list jsstring :=
  (lit <$> CLASSES_TO_PRESERVE) ++ default [] classesToPreserve.

(** [_cleanClasses] (source lines 359-380); [preserved] is
    [this._classesToPreserve]. *)
Definition preservedClassName (preserved : list jsstring) (n : node) : jsstring :=
  join (lit " ")
    (List.filter (fun cls => truthy cls && bool_decide (cls ∈ preserved))
       (Regex.split (rplus REGEXPS.sp) 0 (default [] (getAttribute n "class")))).

Fixpoint _cleanClasses (preserved : list jsstring) (n : node) : node :=
  match n with
  | Text s => Text s
  | Elem _ _ _ _ k =>
      let className := preservedClassName preserved n in
      let n :=
        if truthy className then setAttribute n "class" className
        else removeAttribute n "class" in
      withChildren n (map (_cleanClasses preserved) k)
  end.

(** ** A host for closed examples *)

(** [exampleURL] answers as the URL constructor of the browsers does on a
    small class of inputs: leading and trailing controls and spaces are
    dropped and the scheme is written in lower case; of an http or https
    URL, [scheme://host/path] with a plain host and path is kept, the
    host in lower case; of another scheme, a plain opaque path is kept;
    and a reference that starts with one slash is put after the scheme
    and host of an http or https base.  On any other input it answers
    [None]; the closed examples stay within the class. *)
Module ExampleHost.

Definition stripControls (s : jsstring) : jsstring :=
  let fix front (s : jsstring) : jsstring :=
    match s with
    | c :: t => if (c <=? 32)%N then front t else s
    | [] => []
    end in
  rev (front (rev (front s))).

Definition isAlpha (c : N) : bool := isUpper c || isLower c.

Definition isPlain (c : N) : bool :=
  isWord c || oneOf (lit "/.-()") c.

(** The scheme of an absolute URL and what follows the colon. *)
Fixpoint schemeOf (scheme rest : jsstring) : option (jsstring * jsstring) :=
  match rest with
  | [] => None
  | c :: t =>
      if (c =? 58)%N then
        match scheme with
        | [] => None
        | _ => Some (asciiLower (rev scheme), t)
        end
      else if match scheme with
              | [] => isAlpha c
              | _ => isAlpha c || isDigit c || oneOf (lit "+-.") c
              end
      then schemeOf (c :: scheme) t
      else None
  end.

Fixpoint untilSlash (s : jsstring) : jsstring * jsstring :=
  match s with
  | [] => ([], [])
  | c :: t =>
      if (c =? 47)%N then ([], s)
      else let '(a, b) := untilSlash t in (c :: a, b)
  end.

Definition plainPath (p : jsstring) : bool :=
  forallb isPlain p && negb (includes p (lit "/.")) && negb (includes p (lit "//")).

(** [scheme://host/path] of an http or https URL. *)
Definition parseHttp (s : jsstring) : option (jsstring * jsstring * jsstring) :=
  '(scheme, rest) ← schemeOf [] s;
  if bool_decide (scheme ∈ [lit "http"; lit "https"]) && startsWith rest (lit "//")
  then
    let '(authority, p) := untilSlash (drop 2 rest) in
    if truthy authority && forallb (fun c => isWord c || oneOf (lit ".-") c) authority
       && plainPath p
    then Some (scheme, asciiLower authority, if truthy p then p else lit "/")
    else None
  else None.

Definition exampleURL (uri : jsstring) (base : option jsstring) : option url :=
  let uri := stripControls uri in
  match schemeOf [] uri with
  | Some (scheme, rest) =>
      if bool_decide (scheme ∈ [lit "http"; lit "https"]) then
        '(scheme, authority, p) ← parseHttp uri;
        Some (Url (scheme ++ lit "://" ++ authority ++ p) (scheme ++ lit ":"))
      else if truthy rest && forallb isPlain rest && negb (startsWith rest (lit "/"))
      then Some (Url (scheme ++ lit ":" ++ rest) (scheme ++ lit ":"))
      else None
  | None =>
      b ← base;
      '(scheme, authority, _) ← parseHttp (stripControls b);
      if startsWith uri (lit "/") && plainPath uri
      then Some (Url (scheme ++ lit "://" ++ authority ++ uri) (scheme ++ lit ":"))
      else None
  end.

End ExampleHost.

(** [toLowerCase] on ASCII letters, [exampleURL], and no markup: the
    examples ask for the markup of no element. *)
Definition exampleHost : Host :=
  {| toLowerCase := asciiLower;
     newURL := ExampleHost.exampleURL;
     innerHTML := fun _ => [] |}.

End Readability.

Export Readability.

(* ================================================================== *)
(** * The claims *)
(* ================================================================== *)

(** ** Equality of strings *)

Lemma eqb_true (a b : jsstring) : JS.eqb a b = true <-> a = b.
Proof. unfold JS.eqb. apply bool_decide_eq_true. Qed.

Lemma eqb_false (a b : jsstring) : JS.eqb a b = false <-> a <> b.
Proof. unfold JS.eqb. apply bool_decide_eq_false. Qed.

(** ** C7: the ceiling on the number of elements *)

Lemma orElse_zero (value : option Z) :
  value = None \/ value = Some 0 -> orElse value DEFAULT_MAX_ELEMS_TO_PARSE = 0.
Proof. intros [-> | ->]; reflexivity. Qed.

(** C7.  When the ceiling [_maxElemsToParse] is positive and the document
    has more elements than it allows, [parse] throws the error of the
    ceiling and leaves the document as it was: the phases that change
    the document are not run.  When the ceiling is 0, which is what the
    constructor sets when the option is left out or is 0, [parse] does
    not throw that error whatever the document. *)
Theorem C7_parse_element_ceiling {article E : Type}
  (phases : reader -> document -> document * (E + option article))
  (this : reader) (doc : document) :
  (0 < _maxElemsToParse this -> _maxElemsToParse this < numTagsOf doc ->
   exists message,
     parse phases this doc = (doc, inl (TooManyElements message)))
  /\ (_maxElemsToParse this = 0 ->
      forall message,
        snd (parse phases this doc) <> inl (TooManyElements message))
  /\ (forall o, maxElemsToParse o = None \/ maxElemsToParse o = Some 0 ->
      _maxElemsToParse (newReadability o) = 0).
Proof.
  unfold parse. repeat split.
  - intros Hpos Hmore.
    replace (_maxElemsToParse this >? 0) with true by (symmetry; lia).
    replace (numTagsOf doc >? _maxElemsToParse this) with true
      by (symmetry; lia).
    simpl. eauto.
  - intros Hzero message. rewrite Hzero. simpl.
    destruct (phases this doc) as [doc' [e | result]]; simpl; discriminate.
  - intros o Ho. simpl. now apply orElse_zero.
Qed.

Definition threeElements : document :=
  Document [] (Elem (lit "HTML") [] None None
                 [Elem (lit "HEAD") [] None None [];
                  Elem (lit "BODY") [] None None [Text (lit "text")]])
           [] [].

(** A document of three elements under a ceiling of two. *)
Lemma C7_parse_element_ceiling_witness :
  let this := newReadability (Options (Some 2) None None None) in
  let phases := fun (_ : reader) (d : document) =>
                  (d, inr None : unit + option unit) in
  0 < _maxElemsToParse this /\ _maxElemsToParse this < numTagsOf threeElements
  /\ exists message,
       parse phases this threeElements
       = (threeElements, inl (TooManyElements message)).
Proof.
  cbv zeta. split; [reflexivity |]. split; [reflexivity |].
  apply (C7_parse_element_ceiling _ _ threeElements); reflexivity.
Defined.

(** ** C5: the final check of the title *)

Definition titleDocument (t : String.string) : document :=
  Document (lit t) (Elem (lit "HTML") [] None None []) [] [].

Definition deltaTitle : String.string := "Alpha Beta Gamma Delta - Site Name".

(** C5, as stated, fails: the title [Alpha Beta Gamma Delta - Site Name]
    is cleaned to [Alpha Beta Gamma Delta], which has 4 words, 2 fewer
    than the 6 words of the original without its separator, and the
    original has more than 4 words; the final check keeps the cleaned
    title, and so does [_getArticleTitle]. *)
Lemma C5_revert_counterexample :
  cleanupTitle (titleDocument deltaTitle) (lit deltaTitle) (lit deltaTitle)
  = lit "Alpha Beta Gamma Delta"
  /\ (wordCount (lit "Alpha Beta Gamma Delta") <= 4
      /\ origTitleWordCount (lit deltaTitle)
         - wordCount (lit "Alpha Beta Gamma Delta") >= 2
      /\ wordCount (lit deltaTitle) > 4)
  /\ finalCheck (lit deltaTitle) (lit "Alpha Beta Gamma Delta") <> lit deltaTitle
  /\ _getArticleTitle (titleDocument deltaTitle) = lit "Alpha Beta Gamma Delta".
Proof.
  split; [vm_compute; reflexivity |].
  split; [vm_compute; repeat split; discriminate |].
  split; [vm_compute; discriminate | vm_compute; reflexivity].
Qed.

(** The title at source line 637: after the clean-up, trimmed and with
    its runs of white space made single spaces. *)
Definition cleanedTitle (doc : document) : jsstring :=
  let origTitle := rawTitle doc in
  replaceAll REGEXPS.normalize (fun _ => lit " ")
    (trim (cleanupTitle doc origTitle (h1Title doc origTitle))).

(** The text before the first separator character or colon of the
    original title (source line 655). *)
Definition firstPart (origTitle : jsstring) : jsstring :=
  trim (default [] (head (Regex.split separatorOrColon 0 origTitle))).

Lemma wordCount_truthy (s : jsstring) : 0 < wordCount s -> truthy s = true.
Proof. unfold wordCount. destruct (truthy s); [reflexivity | lia]. Qed.

(** C5, amended.  For every document, the final check gives back the
    original title in place of the cleaned one exactly when the cleaned
    title has at most 4 words, has more than 2 words fewer than the
    original title has once its separator characters and colons are
    taken out, and the original title has more than 4 words; in every
    other case it keeps the cleaned title.  A title given back, like one
    that was the original title anyway, is then cut again: when the
    original title holds a separator character or a colon and the text
    before the first of them has at least 3 words and fewer words than
    the original title, [_getArticleTitle] returns that text, and it
    returns the original title otherwise.  A cleaned title that the
    check keeps and that is not the original title is returned, or the
    original title when it is empty. *)
Theorem C5_final_check (doc : document) :
  let origTitle := rawTitle doc in
  let curTitle := cleanedTitle doc in
  let reverts :=
    wordCount curTitle <= 4
    /\ wordCount curTitle < origTitleWordCount origTitle - 2
    /\ 4 < wordCount origTitle in
  let cuts :=
    test separatorOrColon origTitle = true
    /\ 3 <= wordCount (firstPart origTitle)
    /\ wordCount (firstPart origTitle) < wordCount origTitle in
  (reverts -> finalCheck origTitle curTitle = origTitle)
  /\ (~ reverts -> finalCheck origTitle curTitle = curTitle)
  /\ (reverts \/ curTitle = origTitle -> cuts ->
      _getArticleTitle doc = firstPart origTitle)
  /\ (reverts \/ curTitle = origTitle -> ~ cuts ->
      _getArticleTitle doc = origTitle)
  /\ (~ reverts -> curTitle <> origTitle ->
      _getArticleTitle doc = if truthy curTitle then curTitle else origTitle).
Proof.
  cbv zeta. set (origTitle := rawTitle doc). set (curTitle := cleanedTitle doc).
  set (reverts := wordCount curTitle <= 4
                  /\ wordCount curTitle < origTitleWordCount origTitle - 2
                  /\ 4 < wordCount origTitle).
  set (cuts := test separatorOrColon origTitle = true
               /\ 3 <= wordCount (firstPart origTitle)
               /\ wordCount (firstPart origTitle) < wordCount origTitle).
  assert (Hyes : reverts -> finalCheck origTitle curTitle = origTitle).
  { unfold reverts, finalCheck. intros (H1 & H2 & H3).
    replace (wordCount curTitle <=? 4) with true by (symmetry; lia).
    replace (wordCount curTitle <? origTitleWordCount origTitle - 2) with true
      by (symmetry; lia).
    replace (wordCount origTitle >? 4) with true by (symmetry; lia).
    reflexivity. }
  assert (Hno : ~ reverts -> finalCheck origTitle curTitle = curTitle).
  { unfold reverts, finalCheck. intros H.
    destruct (Z.leb_spec (wordCount curTitle) 4);
      destruct (Z.ltb_spec (wordCount curTitle) (origTitleWordCount origTitle - 2));
      destruct (Z.gtb_spec (wordCount origTitle) 4); cbn [andb];
      try reflexivity.
    exfalso. apply H. repeat split; lia. }
  assert (Hreturn : _getArticleTitle doc
                    = let t := firstPartTitle origTitle
                                 (finalCheck origTitle curTitle) in
                      if truthy t then t else origTitle) by reflexivity.
  assert (Hcut : cuts -> firstPartTitle origTitle origTitle = firstPart origTitle).
  { unfold cuts, firstPartTitle. intros (H1 & H2 & H3). fold (firstPart origTitle).
    rewrite H1. replace (JS.eqb origTitle origTitle) with true
      by (symmetry; apply eqb_true; reflexivity).
    replace (wordCount (firstPart origTitle) >=? 3) with true by (symmetry; lia).
    replace (wordCount (firstPart origTitle) <? wordCount origTitle) with true
      by (symmetry; lia).
    reflexivity. }
  assert (Hkeep : ~ cuts -> firstPartTitle origTitle origTitle = origTitle).
  { unfold cuts, firstPartTitle. intros H. fold (firstPart origTitle).
    destruct (test separatorOrColon origTitle);
      [| rewrite andb_false_r; reflexivity].
    destruct (JS.eqb origTitle origTitle); [| reflexivity]. cbn [andb].
    destruct (Z.geb_spec (wordCount (firstPart origTitle)) 3);
      destruct (Z.ltb_spec (wordCount (firstPart origTitle)) (wordCount origTitle));
      cbn [andb]; try reflexivity.
    exfalso. apply H. repeat split; lia. }
  assert (Hchecked : reverts \/ curTitle = origTitle ->
                     finalCheck origTitle curTitle = origTitle).
  { intros [H | H]; [exact (Hyes H) |].
    unfold finalCheck. rewrite H.
    repeat match goal with |- context [if ?b then _ else _] => destruct b end;
      reflexivity. }
  split; [exact Hyes |]. split; [exact Hno |]. split; [| split].
  - intros Hrev Hcuts. rewrite Hreturn, (Hchecked Hrev), (Hcut Hcuts). cbv zeta.
    rewrite wordCount_truthy; [reflexivity |].
    destruct Hcuts as (_ & H & _). lia.
  - intros Hrev Hcuts. rewrite Hreturn, (Hchecked Hrev), (Hkeep Hcuts). cbv zeta.
    destruct (truthy origTitle); reflexivity.
  - intros Hrev Hne. rewrite Hreturn, (Hno Hrev). cbv zeta.
    unfold firstPartTitle.
    replace (JS.eqb curTitle origTitle) with false
      by (symmetry; apply eqb_false; exact Hne).
    reflexivity.
Qed.

Definition hereTitle : String.string := "Alpha Beta Gamma - Delta Site Name Here".

(** The title [Alpha Beta Gamma - Delta Site Name Here] is cleaned to
    its longer part [Delta Site Name Here], of 4 words where the
    original has 7 without its separator: the check gives the original
    title back, and the title returned is its first part. *)
Lemma C5_final_check_witness :
  rawTitle (titleDocument hereTitle) = lit hereTitle
  /\ cleanedTitle (titleDocument hereTitle) = lit "Delta Site Name Here"
  /\ finalCheck (lit hereTitle) (lit "Delta Site Name Here") = lit hereTitle
  /\ _getArticleTitle (titleDocument hereTitle) = lit "Alpha Beta Gamma".
Proof.
  split; [reflexivity |]. split; [vm_compute; reflexivity |].
  split; [vm_compute; reflexivity |].
  change (lit "Alpha Beta Gamma")
    with (firstPart (rawTitle (titleDocument hereTitle))).
  apply (C5_final_check (titleDocument hereTitle)).
  - left. vm_compute. repeat split; discriminate.
  - vm_compute. repeat split; discriminate.
Defined.

(** ** C4: the clean-up of a title by its separators *)














(** The title [x y z w v - uu] has 14 characters, and the text
    [ab cd | e f g] of the only H1 takes its place.  Of that text the
    clean-up selects [ab cd], which has 2 words, and falls back on the
    original title, which does not hold the separator found: the title
    is the original one without its first 2 characters. *)
Definition headedDocument : document :=
  Document (lit "x y z w v - uu")
    (Elem (lit "HTML") [] None None
       [Elem (lit "BODY") [] None None
          [Elem (lit "H1") [] None None [Text (lit "ab cd | e f g")]]])
    [] [].

Lemma cleanupTitle_after_h1 :
  h1Title headedDocument (rawTitle headedDocument) = lit "ab cd | e f g"
  /\ cleanupTitle headedDocument (rawTitle headedDocument)
       (h1Title headedDocument (rawTitle headedDocument))
     = lit "y z w v - uu"
  /\ _getArticleTitle headedDocument = lit "y z w v - uu".
Proof. repeat split; vm_compute; reflexivity. Qed.

(** ** C6: the title of a JSON-LD article *)

Lemma Qgtb_spec (a b : Q) : Qgtb a b = true <-> (b < a)%Q.
Proof.
  unfold Qgtb. rewrite negb_true_iff. split.
  - intros H. apply Qnot_le_lt. intros Hle.
    apply Qle_bool_iff in Hle. congruence.
  - intros H. destruct (Qle_bool a b) eqn:E; [| reflexivity].
    apply Qle_bool_iff in E. exfalso. exact (Qlt_not_le _ _ H E).
Qed.

Lemma filter_absent_self (l : list jsstring) :
  List.filter (fun token => negb (existsb (JS.eqb token) l)) l = [].
Proof.
  assert (H : forall m, (forall x, In x m -> In x l) ->
            List.filter (fun token => negb (existsb (JS.eqb token) l)) m = []).
  { induction m as [| x m IH]; intros Hin; [reflexivity |]. cbn.
    assert (Hx : existsb (JS.eqb x) l = true).
    { apply existsb_exists. exists x. split; [apply Hin; now left |].
      unfold JS.eqb. now apply bool_decide_eq_true. }
    rewrite Hx. cbn. apply IH. intros y Hy. apply Hin. now right. }
  apply H. auto.
Qed.

Lemma join_truthy (sep : jsstring) (l : list jsstring) :
  l <> [] -> forallb truthy l = true -> 0 < len (join sep l).
Proof.
  destruct l as [| p l]; [congruence |]. intros _ H. cbn in H.
  apply andb_true_iff in H as [Hp _]. destruct p as [| c p]; [discriminate |].
  unfold len. destruct l; cbn; lia.
Qed.

Lemma tokens_truthy host text : forallb truthy (tokens host text) = true.
Proof.
  unfold tokens. apply forallb_forall. intros x Hx.
  apply filter_In in Hx. tauto.
Qed.

Lemma textSimilarity_self host (text : jsstring) :
  truthy text = true -> tokens host text <> [] ->
  (_textSimilarity host text text == 1)%Q.
Proof.
  intros Ht Htok. unfold _textSimilarity. rewrite Ht. cbn [negb orb].
  assert (Hn : (lenOf (tokens host text) =? 0) = false).
  { apply Z.eqb_neq. unfold lenOf. destruct (tokens host text); [congruence | cbn; lia]. }
  rewrite Hn. cbn [orb]. rewrite filter_absent_self.
  pose proof (join_truthy (lit " ") _ Htok (tokens_truthy host text)) as Hpos.
  replace (len (join (lit " ") (tokens host text)) =? 0) with false
    by (symmetry; apply Z.eqb_neq; lia).
  cbn [join]. change (len []) with 0. unfold Qdiv. rewrite Qmult_0_l. reflexivity.
Qed.

Lemma join_length (sep p : jsstring) (rest : list jsstring) :
  length (join sep (p :: rest))
  = (length p + match rest with
                | [] => 0
                | _ => length sep + length (join sep rest)
                end)%nat.
Proof.
  destruct rest; cbn [join]; [lia |]. rewrite !length_app. reflexivity.
Qed.

Lemma join_filter_length (sep : jsstring) (p : jsstring -> bool)
  (l : list jsstring) :
  (length (join sep (List.filter p l)) <= length (join sep l))%nat.
Proof.
  induction l as [| x l IH]; [reflexivity |].
  rewrite (join_length sep x l). cbn [List.filter].
  destruct (p x).
  - rewrite join_length. destruct l as [| y l]; [cbn; lia |].
    destruct (List.filter p (y :: l)); lia.
  - destruct l as [| y l]; [cbn; lia |]. lia.
Qed.

Lemma join_empty (sep : jsstring) (l : list jsstring) :
  forallb truthy l = true -> join sep l = [] -> l = [].
Proof.
  destruct l as [| p l]; [reflexivity |]. intros Ht Hj.
  pose proof (join_truthy sep (p :: l) ltac:(discriminate) Ht) as Hpos.
  rewrite Hj in Hpos. change (len []) with 0 in Hpos. lia.
Qed.

(** The similarity is a number from 0 to 1, and it is 1 exactly when
    both texts are not empty, both have tokens, and every token of the
    second text is a token of the first. *)
Lemma textSimilarity_range (host : Host) (textA textB : jsstring) :
  (0 <= _textSimilarity host textA textB <= 1)%Q
  /\ ((_textSimilarity host textA textB == 1)%Q
      <-> truthy textA = true /\ truthy textB = true
          /\ tokens host textA <> [] /\ tokens host textB <> []
          /\ Forall (fun token => token ∈ tokens host textA) (tokens host textB)).
Proof.
  unfold _textSimilarity.
  destruct (truthy textA) eqn:Ha; cbn [negb orb];
    [| split; [split; discriminate | split; [discriminate | intros (? & _); discriminate]]].
  destruct (truthy textB) eqn:Hb; cbn [negb orb];
    [| split; [split; discriminate | split; [discriminate | intros (_ & ? & _); discriminate]]].
  destruct (tokens host textA) as [| a0 tokensA] eqn:Eta.
  { cbn [lenOf length Z.of_nat Z.eqb orb].
    split; [split; discriminate | split; [discriminate | intros (_ & _ & ? & _); congruence]]. }
  destruct (tokens host textB) as [| b0 tokensB] eqn:Etb.
  { replace (lenOf (a0 :: tokensA) =? 0) with false by reflexivity.
    cbn [lenOf length Z.of_nat Z.eqb orb].
    split; [split; discriminate | split; [discriminate | intros (_ & _ & _ & ? & _); congruence]]. }
  replace (lenOf (a0 :: tokensA) =? 0) with false by reflexivity.
  replace (lenOf (b0 :: tokensB) =? 0) with false by reflexivity.
  cbn [orb].
  set (absent := fun token => negb (existsb (JS.eqb token) (a0 :: tokensA))).
  assert (Htruthy : forallb truthy (b0 :: tokensB) = true)
    by (rewrite <- Etb; apply tokens_truthy).
  pose proof (join_truthy (lit " ") (b0 :: tokensB) ltac:(discriminate) Htruthy)
    as Htotal.
  pose proof (join_filter_length (lit " ") absent (b0 :: tokensB)) as Hle.
  set (uniqueLengthB := len (join (lit " ") (List.filter absent (b0 :: tokensB)))) in *.
  set (totalLengthB := len (join (lit " ") (b0 :: tokensB))) in *.
  assert (Hu : 0 <= uniqueLengthB <= totalLengthB)
    by (unfold uniqueLengthB, totalLengthB, len; lia).
  replace (totalLengthB =? 0) with false by (symmetry; apply Z.eqb_neq; lia).
  assert (Hfrac : (0 <= inject_Z uniqueLengthB / inject_Z totalLengthB <= 1)%Q).
  { split.
    - apply Qle_shift_div_l; [change 0%Q with (inject_Z 0); rewrite <- Zlt_Qlt; lia |].
      rewrite Qmult_0_l. change 0%Q with (inject_Z 0). rewrite <- Zle_Qle. lia.
    - apply Qle_shift_div_r; [change 0%Q with (inject_Z 0); rewrite <- Zlt_Qlt; lia |].
      rewrite Qmult_1_l. rewrite <- Zle_Qle. lia. }
  set (q := (inject_Z uniqueLengthB / inject_Z totalLengthB)%Q) in *.
  split; [destruct Hfrac; split; lra |].
  assert (Hzero : (1 - q == 1)%Q <-> uniqueLengthB = 0).
  { assert (Hnz : ~ (inject_Z totalLengthB == 0)%Q).
    { unfold Qeq. cbn [Qnum Qden inject_Z]. lia. }
    assert (Hmul : (inject_Z uniqueLengthB == q * inject_Z totalLengthB)%Q)
      by (unfold q; field; exact Hnz).
    split.
    - intros H. assert (Hq : (q == 0)%Q) by lra.
      rewrite Hq, Qmult_0_l in Hmul.
      unfold Qeq in Hmul. cbn [Qnum Qden inject_Z] in Hmul. lia.
    - intros Hu0. rewrite Hu0 in Hmul. change (inject_Z 0) with 0%Q in Hmul.
      assert (Hq : (q == 0)%Q).
      { symmetry in Hmul. apply Qmult_integral in Hmul as [Hq | Ht];
          [exact Hq | contradiction]. }
      lra. }
    rewrite Hzero. split.
    + intros Hlen. repeat split; try reflexivity; try discriminate.
      assert (Hnil : List.filter absent (b0 :: tokensB) = []).
      { apply (join_empty (lit " ")).
        - apply forallb_forall. intros x Hx. apply filter_In in Hx as [Hx _].
          apply (proj1 (forallb_forall _ _) Htruthy x Hx).
        - apply length_zero_iff_nil. unfold uniqueLengthB, len in Hlen. lia. }
      apply Forall_forall. intros token Hin.
      destruct (absent token) eqn:Eabs.
      * assert (Hf : In token (List.filter absent (b0 :: tokensB)))
          by (apply filter_In; split; [apply list_elem_of_In, Hin | exact Eabs]).
        rewrite Hnil in Hf. destruct Hf.
      * unfold absent in Eabs. apply negb_false_iff, existsb_exists in Eabs
          as (x & Hx & Heq).
        apply eqb_true in Heq. subst x. apply list_elem_of_In, Hx.
    + intros (_ & _ & _ & _ & Hall).
      assert (Hnil : List.filter absent (b0 :: tokensB) = []).
      { pose proof (proj1 (List.Forall_forall _ _) Hall) as Hall'.
        assert (H : forall m, (forall x, In x m -> x ∈ a0 :: tokensA) ->
                      List.filter absent m = []).
        { induction m as [| x m IH]; intros Hm; [reflexivity |].
          cbn [List.filter].
          replace (absent x) with false.
          - apply IH. intros y Hy. apply Hm. now right.
          - symmetry. unfold absent. apply negb_false_iff, existsb_exists.
            exists x. split; [apply list_elem_of_In, Hm; now left |].
            apply eqb_true. reflexivity. }
        apply H. intros x Hx. apply Hall'. exact Hx. }
      unfold uniqueLengthB. rewrite Hnil. reflexivity.
Qed.








(** A title without a token: the two characters of the name of Tokyo.
    The headline is the HTML title, and the title resolved is the name. *)
Definition tokyoDocument : document :=
  Document [26481; 20140]%N (Elem (lit "HTML") [] None None []) [] [].

Definition tokyoArticle : json :=
  JObject [(lit "@type", JString (lit "Article"));
           (lit "headline", JString [26481; 20140]%N);
           (lit "name", JString (lit "Example Site"))].

Lemma jsonldTitle_without_tokens :
  _getArticleTitle tokyoDocument = [26481; 20140]%N
  /\ tokens exampleHost (_getArticleTitle tokyoDocument) = []
  /\ jsonldTitle exampleHost tokyoDocument tokyoArticle
     = Some (JString (lit "Example Site")).
Proof. repeat split; vm_compute; reflexivity. Qed.

(** ** C1: the attempts of [_grabArticle] *)

Lemma cloneNode_unscored (n : node) : unscored (cloneNode n) = true.
Proof.
  induction n as [s | t a r d k IH] using node_ind'; [reflexivity |].
  cbn. induction IH as [| c k Hc _ IHk]; [reflexivity |].
  cbn. now rewrite Hc, IHk.
Qed.

Section SortDescFacts.
Context {A : Type} (key : A -> Z).

Lemma insertDesc_head (x : A) (l : list A) :
  head (insertDesc key x l)
  = match head l with
    | Some y => if key x <? key y then Some y else Some x
    | None => Some x
    end.
Proof. destruct l as [| y t]; cbn; [reflexivity |]. now destruct (key x <? key y). Qed.

Lemma sortDesc_head_max (l : list A) (x : A) :
  head (sortDesc key l) = Some x ->
  In x l /\ Forall (fun y => key y <= key x) l.
Proof.
  revert x. induction l as [| a l IH]; intros x; cbn [sortDesc foldr].
  - discriminate.
  - fold (sortDesc key l). rewrite insertDesc_head.
    destruct (head (sortDesc key l)) as [y |] eqn:E.
    + destruct (IH y eq_refl) as [Hin Hall].
      destruct (Z.ltb_spec (key a) (key y)); intros [= <-].
      * split; [now right |]. constructor; [lia | exact Hall].
      * split; [now left |]. constructor; [lia |].
        eapply Forall_impl; [exact Hall |]. cbn. intros; lia.
    + intros [= <-]. split; [now left |].
      destruct l as [| b l]; [constructor; [lia | constructor] |].
      exfalso. cbn [sortDesc foldr] in E. fold (sortDesc key l) in E.
      rewrite insertDesc_head in E. destruct (head (sortDesc key l)); [destruct (_ <? _) |]; discriminate.
Qed.

Lemma sortDesc_nil (l : list A) : sortDesc key l = [] -> l = [].
Proof.
  destruct l as [| a l]; [reflexivity |]. cbn [sortDesc foldr].
  intros E. apply (f_equal head) in E. rewrite insertDesc_head in E.
  destruct (head _); [destruct (_ <? _) |]; discriminate.
Qed.

End SortDescFacts.

Section AttemptLoopFacts.
Context (host : Host) (this : reader).
Context (walk : Z -> node -> node * list path).
Context (selectAndJoin : Z -> bool -> scoring -> node * bool).
Context (isPaging : bool) (originalPage : node).

Let run (flags : Z) : prepared :=
  attemptBody host this walk selectAndJoin isPaging flags (cloneNode originalPage).
Let lengthOf (flags : Z) : Z := len (_getInnerText (preparedContent (run flags)) true).
Let failed (flags : Z) : attempt :=
  Attempt (cloneNode (preparedContent (run flags))) (lengthOf flags).

Lemma attemptLoop_spec (remaining : list Z) (attemptIndex : Z)
  (_attempts : list attempt) :
  attemptLoop host this walk selectAndJoin isPaging originalPage
    (cloneNode originalPage) attemptIndex remaining _attempts
  = match List.find (fun flags => lengthOf flags >=? _charThreshold this) remaining with
    | Some flags =>
        inl (_finalizeArticle (preparedContent (run flags))
               (neededToCreateTopCandidate (run flags)))
    | None => inr (_attempts ++ map failed remaining)
    end.
Proof.
  revert attemptIndex _attempts.
  induction remaining as [| flags rest IH]; intros attemptIndex _attempts.
  - cbn. now rewrite app_nil_r.
  - cbn [attemptLoop List.find].
    replace (if attemptIndex >? 0 then cloneNode originalPage else cloneNode originalPage)
      with (cloneNode originalPage) by now destruct (attemptIndex >? 0).
    fold (run flags). fold (lengthOf flags).
    destruct (lengthOf flags >=? _charThreshold this); [reflexivity |].
    rewrite IH. destruct (List.find _ rest); [reflexivity |].
    now rewrite <- app_assoc.
Qed.

End AttemptLoopFacts.

Lemma find_first (p : Z -> bool) (before : list Z) (x : Z) (after : list Z) :
  Forall (fun y => p y = false) before -> p x = true ->
  List.find p (before ++ x :: after) = Some x.
Proof.
  intros Hb Hx. induction Hb as [| y before Hy _ IH]; cbn.
  - now rewrite Hx.
  - now rewrite Hy.
Qed.

Lemma find_none (p : Z -> bool) (l : list Z) :
  Forall (fun y => p y = false) l -> List.find p l = None.
Proof. induction 1 as [| y l Hy _ IH]; cbn; [reflexivity | now rewrite Hy]. Qed.

(** C1.  The flags of the attempts are, in this order, 7
    (StripUnlikelys, WeightClasses and CleanConditionally), 6
    (WeightClasses and CleanConditionally), 4 (CleanConditionally) and 0.
    Every attempt is one run of the attempt body on a clone of the
    original page, in which no element carries a score.  The first
    attempt whose content has a text at least as long as the threshold
    ends the loop, and its content, finalized, is what is returned.  When
    all four attempts stay below the threshold, either all of them gave
    no text and [null] is returned, or the content of an attempt whose
    text is the longest, and not empty, is returned.  Without a page to
    work on [null] is returned before any attempt.  The threshold is 500
    when the option is left out. *)
Theorem C1_attempt_sequence (host : Host) (this : reader)
  (walk : Z -> node -> node * list path)
  (selectAndJoin : Z -> bool -> scoring -> node * bool)
  (doc : document) (page : option node) :
  let source := match page with Some _ => page | None => body doc end in
  let isPaging := bool_decide (is_Some page) in
  let grab := _grabArticle host this walk selectAndJoin doc page in
  flagSequences = [7; 6; 4; 0]
  /\ (source = None -> grab = None)
  /\ (forall originalPage, source = Some originalPage ->
      let run := fun flags =>
        attemptBody host this walk selectAndJoin isPaging flags
          (cloneNode originalPage) in
      let lengthOf := fun flags =>
        len (_getInnerText (preparedContent (run flags)) true) in
      unscored (cloneNode originalPage) = true
      /\ (forall before flags after,
            flagSequences = before ++ flags :: after ->
            Forall (fun f => lengthOf f < _charThreshold this) before ->
            _charThreshold this <= lengthOf flags ->
            grab = Some (_finalizeArticle (preparedContent (run flags))
                           (neededToCreateTopCandidate (run flags))))
      /\ (Forall (fun f => lengthOf f < _charThreshold this) flagSequences ->
          (Forall (fun f => lengthOf f = 0) flagSequences /\ grab = None)
          \/ (exists best,
                In best flagSequences /\ 0 < lengthOf best
                /\ Forall (fun f => lengthOf f <= lengthOf best) flagSequences
                /\ grab = Some (_finalizeArticle
                                  (cloneNode (preparedContent (run best))) true))))
  /\ _charThreshold (newReadability (Options None None None None)) = 500.
Proof.
  cbv zeta. split; [reflexivity |]. split; [| split; [| reflexivity]].
  - unfold _grabArticle. now intros ->.
  - intros originalPage Hsource.
    split; [apply cloneNode_unscored |].
    unfold _grabArticle. rewrite Hsource. cbn [mbind option_bind].
    rewrite attemptLoop_spec. cbn [app].
    set (run := fun flags =>
           attemptBody host this walk selectAndJoin (bool_decide (is_Some page))
             flags (cloneNode originalPage)).
    set (lengthOf := fun flags => len (_getInnerText (preparedContent (run flags)) true)).
    split.
    + intros before flags after Hsplit Hbefore Hflags. rewrite Hsplit.
      rewrite (find_first _ before flags after); [reflexivity | | ].
      * eapply Forall_impl; [exact Hbefore |]. cbn beta. intros f Hf.
        rewrite Z.geb_leb. apply Z.leb_gt. exact Hf.
      * rewrite Z.geb_leb. apply Z.leb_le. exact Hflags.
    + intros Hall. rewrite find_none.
      2:{ eapply Forall_impl; [exact Hall |]. cbn beta. intros f Hf.
          rewrite Z.geb_leb. apply Z.leb_gt. exact Hf. }
      set (failed := fun flags =>
             Attempt (cloneNode (preparedContent (run flags))) (lengthOf flags)).
      change (map _ flagSequences) with (map failed flagSequences).
      destruct (sortDesc textLength (map failed flagSequences)) as [| best rest] eqn:E.
      { apply sortDesc_nil in E. discriminate. }
      destruct (sortDesc_head_max textLength (map failed flagSequences) best)
        as [Hin Hmax]; [now rewrite E |].
      apply in_map_iff in Hin as [bestFlags [<- Hin]].
      rewrite Forall_map in Hmax. subst failed. cbn [textLength] in *.
      destruct (Z.gtb_spec (lengthOf bestFlags) 0) as [Hpos | Hzero].
      * right. exists bestFlags.
        split; [exact Hin |]. split; [exact Hpos |].
        split; [exact Hmax | reflexivity].
      * left. split; [| reflexivity].
        eapply Forall_impl; [exact Hmax |]. cbn beta. intros f Hf.
        assert (0 <= lengthOf f) by (unfold lengthOf, len; lia).
        change (lengthOf f = 0). lia.
Qed.

(** The second attempt is the first to reach the threshold. *)
Definition witnessReader : reader :=
  newReadability (Options None (Some 10) None None).

Definition witnessWalk (flags : Z) (n : node) : node * list path := (n, []).

Definition witnessSelect (flags : Z) (isPaging : bool) (st : scoring)
  : node * bool :=
  (createElement (lit "DIV")
     (if flags =? 7 then [] else childNodes (fst st)), true).

Definition witnessBody : node :=
  Elem (lit "BODY") [] None None
    [Elem (lit "P") [] None None [Text (lit "Some article text here.")]].

Definition witnessDocument : document :=
  Document [] (Elem (lit "HTML") [] None None [witnessBody]) [] [].

Lemma C1_attempt_sequence_witness :
  _grabArticle exampleHost witnessReader witnessWalk witnessSelect
    witnessDocument None
  = Some (Elem (lit "DIV")
            [(lit "id", lit "readability-page-1"); (lit "class", lit "page")]
            None None
            [Elem (lit "P") [] None None [Text (lit "Some article text here.")]]).
Proof.
  destruct (C1_attempt_sequence exampleHost witnessReader witnessWalk
              witnessSelect witnessDocument None) as (_ & _ & H & _).
  destruct (H witnessBody eq_refl) as (_ & Hfirst & _).
  rewrite (Hfirst [7] 6 [4; 0] eq_refl).
  - vm_compute. reflexivity.
  - constructor; [vm_compute; reflexivity | constructor].
  - vm_compute. discriminate.
Defined.

(** ** C2: the score an element gives to its ancestors *)

(** The tag and the attributes of an element. *)
Definition shape (n : node) : option (jsstring * attrs) :=
  match n with Elem t a _ _ _ => Some (t, a) | Text _ => None end.


Lemma childNodes_alter (g : node -> node) (i : nat) (n : node) :
  childNodes (withChildren n (alter g i (childNodes n)))
  = alter g i (childNodes n).
Proof. destruct n; reflexivity. Qed.

Lemma getNode_modifyNode_same (f : node -> node) (p : path) (n : node) :
  getNode (modifyNode f p n) p = f <$> getNode n p.
Proof.
  revert n. induction p as [| i p IH]; intros n; cbn [getNode modifyNode].
  - reflexivity.
  - rewrite childNodes_alter, list_lookup_alter_eq.
    destruct (childNodes n !! i) as [c |]; cbn; [apply IH | reflexivity].
Qed.

Section Observed.
Context {A : Type} (obs : node -> A).
Hypothesis obs_children : forall n k, obs (withChildren n k) = obs n.
Context (f : node -> node).
Hypothesis f_children : forall n, childNodes (f n) = childNodes n.

Lemma getNode_modifyNode_other (p q : path) (n : node) :
  p <> q ->
  obs <$> getNode (modifyNode f p n) q = obs <$> getNode n q.
Proof.
  revert q n. induction p as [| i p IH]; intros q n Hne.
  - destruct q as [| j q]; [congruence |].
    cbn [getNode modifyNode]. now rewrite f_children.
  - destruct q as [| j q]; cbn [getNode modifyNode].
    + cbn. now rewrite obs_children.
    + rewrite childNodes_alter.
      destruct (decide (i = j)) as [<- | Hij].
      * rewrite list_lookup_alter_eq.
        destruct (childNodes n !! i) as [c |]; cbn; [| reflexivity].
        apply IH. congruence.
      * now rewrite list_lookup_alter_ne.
Qed.

Lemma getNode_modifyNode_obs (p q : path) (n : node) :
  (forall x, obs (f x) = obs x) ->
  obs <$> getNode (modifyNode f p n) q = obs <$> getNode n q.
Proof.
  intros Hf. destruct (decide (p = q)) as [<- | Hne].
  - rewrite getNode_modifyNode_same. destruct (getNode n p); cbn; [| reflexivity].
    now rewrite Hf.
  - now apply getNode_modifyNode_other.
Qed.

End Observed.


Section ScoreFacts.
Context (flags : Z) (contentScore : Z).

Lemma initializeNode_children n : childNodes (_initializeNode flags n) = childNodes n.
Proof. unfold _initializeNode. destruct n as [| t a [q |] d k]; reflexivity. Qed.

Lemma initializeNode_shape n : shape (_initializeNode flags n) = shape n.
Proof. unfold _initializeNode. destruct n as [| t a [q |] d k]; reflexivity. Qed.

Lemma addScore_children q n : childNodes (addScore q n) = childNodes n.
Proof. destruct n; reflexivity. Qed.

Lemma addScore_shape q n : shape (addScore q n) = shape n.
Proof. destruct n; reflexivity. Qed.


Lemma shape_withChildren n k : shape (withChildren n k) = shape n.
Proof. destruct n; reflexivity. Qed.




Lemma scoreAncestor_shape tree candidates level ancestor q :
  shape <$> getNode (fst (scoreAncestor flags contentScore (tree, candidates)
                            level ancestor)) q
  = shape <$> getNode tree q.
Proof.
  unfold scoreAncestor.
  destruct (getNode tree ancestor) as [[| t a r d k] |]; try reflexivity.
  destruct ancestor as [| i p]; [reflexivity |].
  destruct r as [s |]; cbn [fst];
    rewrite ?(getNode_modifyNode_obs shape shape_withChildren _ (addScore_children _) _ _ _ (addScore_shape _));
    rewrite ?(getNode_modifyNode_obs shape shape_withChildren _ initializeNode_children _ _ _ initializeNode_shape);
    reflexivity.
Qed.



Lemma scoreAncestors_shape ancestors : forall level st q,
  shape <$> getNode (fst (scoreAncestors flags contentScore level ancestors st)) q
  = shape <$> getNode (fst st) q.
Proof.
  induction ancestors as [| a rest IH]; intros level [tree candidates] q;
    cbn [scoreAncestors]; [reflexivity |].
  rewrite IH.
  destruct (scoreAncestor _ _ _ _ _) as [tree' candidates'] eqn:E.
  change tree' with (fst (tree', candidates')). rewrite <- E.
  apply scoreAncestor_shape.
Qed.


End ScoreFacts.



Lemma getNode_app (n : node) (a b : path) :
  getNode n (a ++ b) = getNode n a ≫= fun x => getNode x b.
Proof.
  revert n. induction a as [| i a IH]; intros n; cbn; [reflexivity |].
  destruct (childNodes n !! i); cbn; [apply IH | reflexivity].
Qed.

(** An ancestor of a node of the tree is an element of the tree. *)
Lemma ancestor_is_element (tree : node) (p : path) (element : node)
  (maxDepth : nat) (level : nat) (ancestor : path) :
  getNode tree p = Some element ->
  _getNodeAncestors p maxDepth !! level = Some ancestor ->
  exists x, getNode tree ancestor = Some x /\ isElement x = true.
Proof.
  intros Hp Hlevel.
  assert (Hin : ancestor ∈ ancestorPaths p).
  { unfold _getNodeAncestors in Hlevel. destruct maxDepth.
    - eapply list_elem_of_lookup_2; exact Hlevel.
    - apply list_elem_of_lookup_2 in Hlevel. eapply subseteq_take; exact Hlevel. }
  unfold ancestorPaths in Hin. apply list_elem_of_fmap in Hin as [k [-> Hk]].
  apply elem_of_reverse, elem_of_seq in Hk.
  rewrite <- (take_drop k p) in Hp. rewrite getNode_app in Hp.
  destruct (getNode tree (take k p)) as [x |]; [| discriminate].
  exists x. split; [reflexivity |]. cbn in Hp.
  destruct (drop k p) as [| i rest] eqn:Hd.
  - apply (f_equal length) in Hd. rewrite length_drop in Hd. cbn in Hd. lia.
  - cbn in Hp. destruct x; [discriminate | reflexivity].
Qed.












(** *** Trees that differ by their scores alone *)













(** *** The loop over the elements to score *)




Section LoopFacts.
Context (flags : Z).























Section Fold.
Context (tree : node).






End Fold.



End LoopFacts.




(** ** C3: the rule on the share of the text that is in list items *)

(** The reader the constructor makes when no option is given. *)
Definition defaultReader : reader := newReadability (Options None None None None).

(** A DIV that holds one list item and nothing else: no comma, no
    paragraph, and all of its text is in the list item. *)
Definition listItems : node :=
  Elem (lit "DIV") [] None None
    [Elem (lit "LI") [] None None
       [Text (lit "Plain list item text that is long enough")]].

Definition listItemsContainer : node :=
  Elem (lit "DIV") [] None None [listItems].

(** The length of the text that is inside the list items of [n]. *)
Definition textInsideListItems (n : node) : Z :=
  foldl (fun sum li => sum + len (_getInnerText li true)) 0
        (_getAllNodesWithTag n ["LI"]).

(** [liProportion] is read from [textContentByTag], which stays empty,
    so it is 0 and the rule that compares it with one half is never met. *)
Lemma highLiProportion_false (host : Host) (this : reader) (flags : Z)
  (ancestors : list node) (n : node) :
  highLiProportion (measure host this flags ancestors n) = false.
Proof.
  unfold highLiProportion.
  replace (Qgtb _ (1 # 2)) with false; [apply andb_false_r |].
  unfold measure. cbn [liProportion].
  unfold textContentByTag. rewrite lookup_empty. cbn [default].
  unfold ratio. change (len []) with 0.
  symmetry. apply not_true_is_false. rewrite Qgtb_spec.
  destruct (_ >? 0); [| intros H; discriminate H].
  unfold Qlt, Qdiv, Qmult. cbn [Qnum Qden inject_Z]. lia.
Qed.

(** C3.  The candidate [listItems] is a DIV that conditional cleaning
    evaluates: it has no comma, it is not a list, it has one list item
    and no paragraph, and the 40 characters of its text are all inside
    the list item, which is more than half.  The rule of the claim asks
    for its removal; the code keeps it, and [_cleanConditionally] gives
    the container back as it was.  The code never removes a node by this
    rule: for every node its check [highLiProportion] is false, because
    the text of the list items is looked up in [textContentByTag], where
    nothing is ever stored. *)
Theorem C3_list_item_rule_never_fires :
  let m := measure exampleHost defaultReader 7 [listItemsContainer] listItems in
  (_getCharCount listItems 44 = 0
   /\ isList m = false /\ liCount m = 1 /\ pCount m = 0
   /\ textInsideListItems listItems = 40 /\ contentLength m = 40)
  /\ conditionallyRemoves exampleHost defaultReader 7 [listItemsContainer] listItems
     = false
  /\ _cleanConditionally exampleHost defaultReader 7 listItemsContainer "DIV"
     = listItemsContainer
  /\ (forall host this flags ancestors n,
        highLiProportion (measure host this flags ancestors n) = false).
Proof.
  split; [vm_compute; repeat split; reflexivity |].
  split; [vm_compute; reflexivity |].
  split; [vm_compute; reflexivity |].
  exact highLiProportion_false.
Qed.

(* ------------------------------------------------------------------ *)
(** ** C8: running the sanitizer twice *)

(** A table that [_markDataTables] takes for a data table, for its
    [summary], with one empty cell. *)
Definition summaryTable : node :=
  Elem (lit "TABLE") [(lit "summary", lit "s")] None None
    [Elem (lit "TBODY") [] None None
       [Elem (lit "TR") [] None None [Elem (lit "TD") [] None None []]]].

Definition tableContainer : node :=
  Elem (lit "DIV") [] None None [summaryTable].

Section RemoveNodesFacts.
Context (tags : list String.string) (filterFn : node -> bool).

Let keep (c : node) : option node :=
  let c' := _removeNodes tags filterFn c in
  if hasTagIn tags c' && filterFn c' then None else Some c'.

Lemma keep_kept (c c' : node) :
  _removeNodes tags filterFn (_removeNodes tags filterFn c)
  = _removeNodes tags filterFn c ->
  keep c = Some c' -> keep c' = Some c'.
Proof.
  unfold keep. cbn zeta. intros Hc.
  destruct (hasTagIn tags _ && filterFn _) eqn:E; [discriminate |].
  intros [= <-]. rewrite Hc, E. reflexivity.
Qed.

Lemma omap_keep_idempotent (k : list node) :
  Forall (fun c => _removeNodes tags filterFn (_removeNodes tags filterFn c)
                   = _removeNodes tags filterFn c) k ->
  omap keep (omap keep k) = omap keep k.
Proof.
  induction 1 as [| c k Hc _ IH]; [reflexivity |].
  cbn [omap list_omap].
  destruct (keep c) as [c' |] eqn:E; [| exact IH].
  cbn [omap list_omap]. rewrite (keep_kept c c' Hc E). f_equal. exact IH.
Qed.

(** A node that [_removeNodes] has kept is kept again: the filter reads
    the subtree of the node, and the subtree is as the first run left it. *)
Lemma removeNodes_idempotent (n : node) :
  _removeNodes tags filterFn (_removeNodes tags filterFn n)
  = _removeNodes tags filterFn n.
Proof.
  induction n as [s | t a r d k IH] using node_ind'; [reflexivity |].
  cbn [_removeNodes]. f_equal. apply omap_keep_idempotent. exact IH.
Qed.

End RemoveNodesFacts.

(** *** The stages that strip attributes and change tags *)

Lemma filter_filter_and {A : Type} (p q : A -> bool) (l : list A) :
  List.filter p (List.filter q l) = List.filter (fun x => q x && p x) l.
Proof.
  induction l as [| x l IH]; [reflexivity |].
  simpl. destruct (q x); simpl; [| exact IH].
  destruct (p x); rewrite IH; reflexivity.
Qed.

(** An attribute that has none of the names. *)
Definition named (names : list String.string) (kv : jsstring * jsstring) : bool :=
  existsb (fun name => JS.eqb (fst kv) (lit name)) names.

Lemma removeAttributes_Elem (names : list String.string) : forall t a r d k,
  removeAttributes names (Elem t a r d k)
  = Elem t (List.filter (fun kv => negb (named names kv)) a) r d k.
Proof.
  unfold removeAttributes.
  induction names as [| name names IH]; intros t a r d k.
  - cbn [foldl named existsb negb]. f_equal.
    induction a as [| kv a IHa]; [reflexivity |]. cbn [List.filter]. f_equal. exact IHa.
  - cbn [foldl]. unfold removeAttribute at 2. cbn [withAttributes attributes].
    rewrite IH, filter_filter_and. f_equal. apply List.filter_ext.
    intros kv. cbn [named existsb]. rewrite negb_orb. reflexivity.
Qed.

Section StageFacts.
Context (host : Host).

(** The attributes that [_cleanStyles] leaves on an element of tag [t]. *)
Definition keptAttribute (t : jsstring) (kv : jsstring * jsstring) : bool :=
  negb (named PRESENTATIONAL_ATTRIBUTES kv)
  && (if hasTagIn DEPRECATED_SIZE_ATTRIBUTE_ELEMS (createElement t [])
      then negb (named ["width"; "height"] kv) else true).

Lemma cleanStyles_Elem t a r d k :
  JS.eqb (toLowerCase host t) (lit "svg") = false ->
  _cleanStyles host (Elem t a r d k)
  = Elem t (List.filter (keptAttribute t) a) r d (map (_cleanStyles host) k).
Proof.
  intros Hsvg. cbn [_cleanStyles]. rewrite Hsvg. cbn zeta.
  rewrite removeAttributes_Elem. unfold keptAttribute.
  change (hasTagIn DEPRECATED_SIZE_ATTRIBUTE_ELEMS
            (Elem t (List.filter (fun kv => negb (named PRESENTATIONAL_ATTRIBUTES kv)) a) r d k))
    with (hasTagIn DEPRECATED_SIZE_ATTRIBUTE_ELEMS (createElement t [])).
  destruct (hasTagIn DEPRECATED_SIZE_ATTRIBUTE_ELEMS (createElement t [])).
  - rewrite removeAttributes_Elem, filter_filter_and. reflexivity.
  - cbn [withChildren]. f_equal. apply List.filter_ext. intros kv.
    rewrite andb_true_r. reflexivity.
Qed.

Lemma cleanStyles_idempotent (e : node) :
  _cleanStyles host (_cleanStyles host e) = _cleanStyles host e.
Proof.
  induction e as [s | t a r d k IH] using node_ind'; [reflexivity |].
  destruct (JS.eqb (toLowerCase host t) (lit "svg")) eqn:Esvg.
  - cbn [_cleanStyles]. rewrite Esvg. cbn [_cleanStyles]. rewrite Esvg.
    reflexivity.
  - rewrite !(cleanStyles_Elem _ _ _ _ _ Esvg). f_equal.
    + rewrite filter_filter_and. apply List.filter_ext. intros kv.
      apply andb_diag.
    + rewrite List.map_map. apply List.map_ext_in.
      exact (proj1 (List.Forall_forall _ _) IH).
Qed.

Lemma retag_H1_idempotent (n : node) :
  let retag := fun n => if hasTag "H1" n then _setNodeTag n "H2" else n in
  mapTree retag (mapTree retag n) = mapTree retag n.
Proof.
  cbv zeta.
  induction n as [s | t a r d k IH] using node_ind'; [reflexivity |].
  assert (Hkids : map (mapTree (fun n => if hasTag "H1" n then _setNodeTag n "H2" else n))
                    (map (mapTree (fun n => if hasTag "H1" n then _setNodeTag n "H2" else n)) k)
                  = map (mapTree (fun n => if hasTag "H1" n then _setNodeTag n "H2" else n)) k).
  { rewrite List.map_map. apply List.map_ext_in.
    exact (proj1 (List.Forall_forall _ _) IH). }
  cbn [mapTree].
  destruct (hasTag "H1" (Elem t a r d k)) eqn:Eh.
  - cbn [_setNodeTag]. rewrite drop_all, app_nil_r. cbn [mapTree].
    replace (hasTag "H1" (Elem (lit "H2") a r None _)) with false by reflexivity.
    rewrite drop_all, !app_nil_r, Hkids. reflexivity.
  - rewrite drop_all, app_nil_r. cbn [mapTree].
    change (hasTag "H1" (Elem t a r d _)) with (hasTag "H1" (Elem t a r d k)).
    rewrite Eh, drop_all, app_nil_r, Hkids. reflexivity.
Qed.

Lemma replaceH1s_idempotent (e : node) :
  replaceH1s (replaceH1s e) = replaceH1s e.
Proof.
  unfold replaceH1s, mapDescendants. destruct e as [s | t a r d k]; [reflexivity |].
  cbn [withChildren childNodes]. f_equal.
  rewrite List.map_map. apply List.map_ext. intros c.
  apply retag_H1_idempotent.
Qed.

End StageFacts.

(** The first pass over [tableContainer] keeps the table, a data table,
    through conditional cleaning and then puts its only cell, as a P, in
    its place; the second pass finds an empty paragraph and removes it. *)
Lemma C8_second_pass_counterexample :
  let first := _prepArticle exampleHost defaultReader 7 tableContainer in
  let second := _prepArticle exampleHost defaultReader 7 first in
  first = Elem (lit "DIV") [] None None [Elem (lit "P") [] None None []]
  /\ second = Elem (lit "DIV") [] None None []
  /\ second <> first.
Proof. vm_compute. repeat split; discriminate. Qed.

(** C8.  The stages of the sanitizer that strip attributes, that remove
    elements through [_removeNodes], or that change a tag are
    idempotent, each on its own: [_cleanStyles], [_clean] for every tag,
    [_cleanHeaders], the change of the H1 elements into H2, and the
    removal of the empty paragraphs.  Run a second time on its own
    result, such a stage removes no further node and gives the same
    container.  (The pass as a whole is not idempotent.) *)
Theorem C8_stages_idempotent (host : Host) (this : reader) (flags : Z)
  (e : node) :
  _cleanStyles host (_cleanStyles host e) = _cleanStyles host e
  /\ (forall tag,
        _clean host this (_clean host this e tag) tag = _clean host this e tag)
  /\ _cleanHeaders host this flags (_cleanHeaders host this flags e)
     = _cleanHeaders host this flags e
  /\ replaceH1s (replaceH1s e) = replaceH1s e
  /\ removeEmptyParagraphs (removeEmptyParagraphs e) = removeEmptyParagraphs e.
Proof.
  split; [| split; [| split; [| split]]].
  - apply cleanStyles_idempotent.
  - intros tag. apply removeNodes_idempotent.
  - apply removeNodes_idempotent.
  - apply replaceH1s_idempotent.
  - apply removeNodes_idempotent.
Qed.

(* ------------------------------------------------------------------ *)
(** ** C9 and C10: absolute URIs and the links that run scripts *)

Lemma lit_inj (x y : String.string) : lit x = lit y -> x = y.
Proof.
  assert (Hinv : forall s,
            String.string_of_list_ascii (map ascii_of_N (lit s)) = s).
  { intros s. unfold lit. rewrite List.map_map.
    rewrite (List.map_ext _ (fun c => c) ascii_N_embedding), List.map_id.
    apply String.string_of_list_ascii_of_string. }
  intros H. rewrite <- (Hinv x), <- (Hinv y), H. reflexivity.
Qed.

Lemma hasTag_other (x y : String.string) (n : node) :
  x <> y -> hasTag x n = true -> hasTag y n = false.
Proof.
  destruct n as [s | t a r d k]; [reflexivity |].
  cbn [hasTag]. intros Hne Hx. apply eqb_true in Hx. subst t.
  apply eqb_false. intros H. apply Hne, lit_inj, H.
Qed.

(** Reading an attribute after [setAttribute]. *)
Lemma lookupAttr_setAttr (a : attrs) (name name' value : jsstring) :
  lookupAttr (setAttr a name value) name'
  = if JS.eqb name name' then Some value else lookupAttr a name'.
Proof.
  induction a as [| [k v] rest IH]; cbn [setAttr lookupAttr].
  - reflexivity.
  - destruct (JS.eqb k name) eqn:Ek; cbn [lookupAttr].
    + apply eqb_true in Ek. subst k.
      destruct (JS.eqb name name'); reflexivity.
    + rewrite IH. destruct (JS.eqb k name') eqn:Ek'; [| reflexivity].
      apply eqb_true in Ek'. subst k. apply eqb_false in Ek.
      destruct (JS.eqb name name') eqn:En; [| reflexivity].
      apply eqb_true in En. congruence.
Qed.

(** The elements of a subtree in document order, its root first. *)
Definition elementsOf (c : node) : list node :=
  match c with Text _ => [] | Elem _ _ _ _ _ => c :: descendants c end.

Lemma descendants_childNodes (n : node) :
  descendants n = concat (map elementsOf (childNodes n)).
Proof. destruct n; reflexivity. Qed.

(** A step that goes through the children one by one relates the
    elements below a node to the elements below what it makes of it. *)
Section Related.
Context (step : node -> option node) (P Q : node -> bool)
        (S : node -> node -> Prop).

Lemma kids_related (k : list node) :
  Forall (fun c => forall c', step c = Some c' ->
            Forall2 S (List.filter P (elementsOf c))
                      (List.filter Q (elementsOf c'))) k ->
  forall k', mapM step k = Some k' ->
  Forall2 S (List.filter P (concat (map elementsOf k)))
            (List.filter Q (concat (map elementsOf k'))).
Proof.
  intros Hall k' Hk. apply mapM_Some in Hk.
  induction Hk as [| c c' k k' Hc _ IH]; [constructor |].
  apply Forall_cons in Hall as [Hhead Hall].
  cbn [map concat]. rewrite !List.filter_app.
  apply Forall2_app; [apply Hhead, Hc | apply IH, Hall].
Qed.

End Related.

(** The same tag and the same attributes; the children may differ. *)
Definition sameShell (e e' : node) : Prop :=
  tagName e' = tagName e /\ attributes e' = attributes e.

Section UriFacts.
Context (host : Host) (doc : document).

(** What the loop over the media stores as [srcset]. *)
Definition absoluteSrcset (srcset : jsstring) : option jsstring :=
  replaceAllM REGEXPS.srcsetUrl
    (fun m =>
       p1 ← toAbsoluteURI host doc (default [] (cap m 1));
       Some (p1 ++ default [] (cap m 2) ++ default [] (cap m 3)))
    srcset.

(** The attribute [name] of [e'] is what [f] makes of the one of [e],
    when [e] has the attribute and it is not empty, and is as in [e]
    otherwise. *)
Definition rewritten (f : jsstring -> option jsstring) (name : String.string)
  (e e' : node) : Prop :=
  getAttribute e' name
  = match truthyAttr e name with
    | Some v => f v
    | None => getAttribute e name
    end.

(** What the loop over the links does to an anchor it keeps. *)
Definition linkFixed (e e' : node) : Prop :=
  tagName e' = tagName e
  /\ rewritten (toAbsoluteURI host doc) "href" e e'
  /\ (forall name, name <> lit "href" ->
        lookupAttr (attributes e') name = lookupAttr (attributes e) name).

(** What the loop over the media does to an element. *)
Definition mediumFixed (e e' : node) : Prop :=
  tagName e' = tagName e
  /\ rewritten (toAbsoluteURI host doc) "src" e e'
  /\ rewritten (toAbsoluteURI host doc) "poster" e e'
  /\ rewritten absoluteSrcset "srcset" e e'
  /\ (forall name, name ∉ [lit "src"; lit "poster"; lit "srcset"] ->
        lookupAttr (attributes e') name = lookupAttr (attributes e) name).

(** An anchor that the loop over the links replaces. *)
Definition javascriptLink (a : node) : bool :=
  match truthyAttr a "href" with
  | Some href => startsWith href (lit "javascript:")
  | None => false
  end.

Definition isMedium (n : node) : bool := hasTagIn mediaTags n.
Definition keptAnchor (n : node) : bool := hasTag "A" n && negb (javascriptLink n).

Lemma fixMedium_spec t a r d k n' :
  fixMedium host doc (Elem t a r d k) = Some n' ->
  exists a', n' = Elem t a' r d k
             /\ mediumFixed (Elem t a r d k) (Elem t a' r d k).
Proof.
  unfold fixMedium, mediumFixed, rewritten, truthyAttr, getAttribute.
  cbn [attributes]. fold absoluteSrcset.
  intros H.
  destruct (lookupAttr a (lit "src")) as [src |] eqn:Esrc;
    destruct (lookupAttr a (lit "poster")) as [poster |] eqn:Eposter;
    destruct (lookupAttr a (lit "srcset")) as [srcset |] eqn:Esrcset.
  all: repeat match type of H with
         | context [if truthy ?v then _ else _] => destruct (truthy v)
         end.
  all: cbn [mbind option_bind fmap option_fmap option_map] in H.
  all: repeat match type of H with
         | context [toAbsoluteURI host doc ?v] =>
             destruct (toAbsoluteURI host doc v) eqn:?;
             cbn [mbind option_bind fmap option_fmap option_map] in H
         | context [replaceAllM REGEXPS.srcsetUrl ?g ?v] =>
             change (replaceAllM REGEXPS.srcsetUrl g v) with (absoluteSrcset v) in H;
             destruct (absoluteSrcset v) eqn:?;
             cbn [mbind option_bind fmap option_fmap option_map] in H
         end.
  all: try discriminate H.
  all: injection H as <-; unfold setAttribute; cbn [withAttributes attributes].
  all: eexists; split; [reflexivity |]; cbn [tagName attributes].
  all: rewrite ?lookupAttr_setAttr; cbn [JS.eqb].
  all: repeat split; try (intros name Hname; rewrite ?lookupAttr_setAttr).
  all: repeat match goal with
         | |- context [JS.eqb (lit ?x) (lit ?y)] =>
             let b := eval vm_compute in (JS.eqb (lit x) (lit y)) in
             change (JS.eqb (lit x) (lit y)) with b
         end; cbn iota.
  all: repeat match goal with
         | Hname : ?name ∉ _ |- context [JS.eqb (lit ?x) ?name] =>
             destruct (JS.eqb (lit x) name) eqn:E;
             [apply eqb_true in E; subst name; exfalso; apply Hname;
              repeat first [apply list_elem_of_here | apply list_elem_of_further]
             | clear E]
         end.
  all: try assumption; try reflexivity.
Qed.
End UriFacts.

Section UriTree.
Context (host : Host) (doc : document).

Lemma medium_not_anchor (n : node) : isMedium n = true -> hasTag "A" n = false.
Proof.
  destruct n as [s | t a r d k]; [reflexivity |].
  unfold isMedium, hasTagIn, mediaTags. cbn [existsb hasTag]. intros H.
  repeat (apply orb_prop in H as [H | H]); try discriminate H;
    apply eqb_true in H; subst t; reflexivity.
Qed.

Lemma anchor_not_medium (n : node) : hasTag "A" n = true -> isMedium n = false.
Proof.
  intros H. destruct (isMedium n) eqn:E; [| reflexivity].
  apply medium_not_anchor in E. congruence.
Qed.

Lemma fixMedia_media (n : node) : forall n',
  fixMedia host doc n = Some n' ->
  Forall2 (mediumFixed host doc) (List.filter isMedium (elementsOf n))
          (List.filter isMedium (elementsOf n')).
Proof.
  induction n as [s | t a r d k IH] using node_ind'; intros n' H.
  - injection H as <-. constructor.
  - cbn [fixMedia] in H.
    destruct (mapM (fixMedia host doc) k) as [k' |] eqn:Ek; [| discriminate H].
    cbn [mbind option_bind] in H.
    pose proof (kids_related _ _ _ _ k IH k' Ek) as Hkids.
    destruct (hasTagIn mediaTags (Elem t a r d k)) eqn:Em.
    + apply fixMedium_spec in H as (a' & -> & Hfixed).
      cbn [elementsOf List.filter]. rewrite !descendants_childNodes.
      cbn [childNodes].
      change (isMedium (Elem t a r d k)) with (hasTagIn mediaTags (Elem t a r d k)).
      change (isMedium (Elem t a' r d k')) with (hasTagIn mediaTags (Elem t a r d k)).
      rewrite Em. constructor; [| exact Hkids].
      destruct Hfixed as (Htag & Hsrc & Hposter & Hsrcset & Hothers).
      repeat split; assumption.
    + injection H as <-.
      cbn [elementsOf List.filter]. rewrite !descendants_childNodes.
      cbn [childNodes].
      change (isMedium (Elem t a r d k)) with (hasTagIn mediaTags (Elem t a r d k)).
      change (isMedium (Elem t a r d k')) with (hasTagIn mediaTags (Elem t a r d k)).
      rewrite Em. exact Hkids.
Qed.

(** What the two loops leave alone: the elements that [P], which reads
    the tag alone, picks out. *)
Section Untouched.
Context (P : node -> bool).
Hypothesis P_tag : forall t a r d k a' r' d' k',
  P (Elem t a r d k) = P (Elem t a' r' d' k').

Lemma fixMedia_untouched (n : node) :
  (forall m, isMedium m = true -> P m = false) ->
  forall n', fixMedia host doc n = Some n' ->
  Forall2 sameShell (List.filter P (elementsOf n))
          (List.filter P (elementsOf n')).
Proof.
  intros P_not_medium.
  induction n as [s | t a r d k IH] using node_ind'; intros n' H.
  - injection H as <-. constructor.
  - cbn [fixMedia] in H.
    destruct (mapM (fixMedia host doc) k) as [k' |] eqn:Ek; [| discriminate H].
    cbn [mbind option_bind] in H.
    pose proof (kids_related _ _ _ _ k IH k' Ek) as Hkids.
    destruct (hasTagIn mediaTags (Elem t a r d k)) eqn:Em.
    + apply fixMedium_spec in H as (a' & -> & _).
      cbn [elementsOf List.filter]. rewrite !descendants_childNodes.
      cbn [childNodes].
      rewrite (P_tag t a' r d k' a r d k), (P_not_medium _ Em). exact Hkids.
    + injection H as <-.
      cbn [elementsOf List.filter]. rewrite !descendants_childNodes.
      cbn [childNodes]. rewrite (P_tag t a r d k' a r d k).
      destruct (P (Elem t a r d k)); [| exact Hkids].
      constructor; [split; reflexivity | exact Hkids].
Qed.

Lemma fixLink_untouched (n : node) :
  (forall m, hasTag "A" m = true -> P m = false) ->
  (forall k, P (createElement (lit "SPAN") k) = false) ->
  forall n', fixLink host doc n = Some n' ->
  Forall2 sameShell (List.filter P (elementsOf n))
          (List.filter P (elementsOf n')).
Proof.
  intros P_not_anchor P_not_span.
  induction n as [s | t a r d k IH] using node_ind'; intros n' H.
  - injection H as <-. constructor.
  - cbn [fixLink] in H.
    destruct (mapM (fixLink host doc) k) as [k' |] eqn:Ek; [| discriminate H].
    cbn [mbind option_bind] in H.
    pose proof (kids_related _ _ _ _ k IH k' Ek) as Hkids.
    cbn [elementsOf List.filter]. rewrite descendants_childNodes.
    cbn [childNodes].
    assert (Hsame :
      Forall2 sameShell
        (if P (Elem t a r d k)
         then Elem t a r d k :: List.filter P (concat (map elementsOf k))
         else List.filter P (concat (map elementsOf k)))
        (List.filter P (elementsOf (Elem t a r d k')))).
    { cbn [elementsOf List.filter]. rewrite descendants_childNodes.
      cbn [childNodes]. rewrite (P_tag t a r d k' a r d k).
      destruct (P (Elem t a r d k)); [| exact Hkids].
      constructor; [split; reflexivity | exact Hkids]. }
    destruct (hasTag "A" (Elem t a r d k)) eqn:Ea.
    + rewrite (P_not_anchor _ Ea).
      destruct (truthyAttr (Elem t a r d k) "href") as [h |] eqn:Eh.
      * destruct (startsWith h (lit "javascript:")) eqn:Ejs.
        -- assert (Hspan :
             Forall2 sameShell
               (List.filter P (concat (map elementsOf k)))
               (List.filter P (elementsOf (createElement (lit "SPAN") k')))).
           { pose proof (P_not_span k') as Hs. unfold createElement in *.
             cbn [elementsOf List.filter]. rewrite Hs, descendants_childNodes.
             exact Hkids. }
           destruct k as [| [s |] [|]]; try (injection H as <-; exact Hspan).
           injection H as <-. constructor.
        -- destruct (toAbsoluteURI host doc h) as [absolute |] eqn:Eabs;
             [| discriminate H].
           injection H as <-. unfold setAttribute.
           cbn [withAttributes attributes elementsOf List.filter].
           rewrite descendants_childNodes. cbn [childNodes].
           rewrite (P_tag t _ r d k' a r d k), (P_not_anchor _ Ea).
           exact Hkids.
      * injection H as <-.
        rewrite (P_not_anchor _ Ea) in Hsame. exact Hsame.
    + injection H as <-. exact Hsame.
Qed.

End Untouched.

Lemma fixLink_anchors (n : node) : forall n',
  fixLink host doc n = Some n' ->
  Forall2 (linkFixed host doc) (List.filter keptAnchor (elementsOf n))
          (List.filter (hasTag "A") (elementsOf n')).
Proof.
  induction n as [s | t a r d k IH] using node_ind'; intros n' H.
  - injection H as <-. constructor.
  - cbn [fixLink] in H.
    destruct (mapM (fixLink host doc) k) as [k' |] eqn:Ek; [| discriminate H].
    cbn [mbind option_bind] in H.
    pose proof (kids_related _ _ _ _ k IH k' Ek) as Hkids.
    cbn [elementsOf List.filter]. rewrite descendants_childNodes.
    cbn [childNodes]. unfold keptAnchor at 1, javascriptLink.
    destruct (hasTag "A" (Elem t a r d k)) eqn:Ea; cbn [andb].
    + destruct (truthyAttr (Elem t a r d k) "href") as [h |] eqn:Eh.
      * destruct (startsWith h (lit "javascript:")) eqn:Ejs; cbn [negb].
        -- assert (Hspan :
             Forall2 (linkFixed host doc)
               (List.filter keptAnchor (concat (map elementsOf k)))
               (List.filter (hasTag "A")
                  (elementsOf (createElement (lit "SPAN") k')))).
           { cbn [elementsOf createElement List.filter].
             rewrite descendants_childNodes. exact Hkids. }
           destruct k as [| [s |] [|]]; try (injection H as <-; exact Hspan).
           injection H as <-. constructor.
        -- destruct (toAbsoluteURI host doc h) as [absolute |] eqn:Eabs;
             [| discriminate H].
           injection H as <-. unfold setAttribute.
           cbn [withAttributes attributes elementsOf List.filter].
           rewrite descendants_childNodes. cbn [childNodes].
           change (hasTag "A" (Elem t (setAttr a (lit "href") absolute) r d k'))
             with (hasTag "A" (Elem t a r d k)).
           rewrite Ea. constructor; [| exact Hkids].
           split; [reflexivity |]. split.
           ++ unfold rewritten. rewrite Eh, Eabs.
              unfold getAttribute. cbn [attributes].
              rewrite lookupAttr_setAttr.
              replace (JS.eqb (lit "href") (lit "href")) with true
                by (symmetry; apply eqb_true; reflexivity).
              reflexivity.
           ++ intros name Hname. cbn [attributes].
              rewrite lookupAttr_setAttr.
              destruct (JS.eqb (lit "href") name) eqn:E; [| reflexivity].
              apply eqb_true in E. congruence.
      * injection H as <-. cbn [negb elementsOf List.filter].
        rewrite descendants_childNodes. cbn [childNodes].
        change (hasTag "A" (Elem t a r d k')) with (hasTag "A" (Elem t a r d k)).
        rewrite Ea. constructor; [| exact Hkids].
        split; [reflexivity |]. split; [| reflexivity].
        unfold rewritten.
        change (truthyAttr (Elem t a r d k') "href")
          with (truthyAttr (Elem t a r d k) "href").
        rewrite Eh. reflexivity.
    + injection H as <-. cbn [elementsOf List.filter].
      rewrite descendants_childNodes. cbn [childNodes].
      change (hasTag "A" (Elem t a r d k')) with (hasTag "A" (Elem t a r d k)).
      rewrite Ea. exact Hkids.
Qed.

Lemma linkFixed_sameShell (x y z : node) :
  linkFixed host doc x y -> sameShell y z -> linkFixed host doc x z.
Proof.
  intros (Htag & Hhref & Hothers) [Htag' Hattrs].
  unfold linkFixed, rewritten, getAttribute in *. rewrite Htag', Hattrs.
  repeat split; assumption.
Qed.

Lemma sameShell_mediumFixed (x y z : node) :
  sameShell x y -> mediumFixed host doc y z -> mediumFixed host doc x z.
Proof.
  intros [Htag Hattrs] (Htag' & Hsrc & Hposter & Hsrcset & Hothers).
  unfold mediumFixed, rewritten, truthyAttr, getAttribute in *.
  rewrite <- Htag, <- Hattrs. repeat split; assumption.
Qed.

Lemma sameShell_trans (x y z : node) :
  sameShell x y -> sameShell y z -> sameShell x z.
Proof. intros [Ht Ha] [Ht' Ha']. split; congruence. Qed.

(** The two loops of [_fixRelativeUris], one after the other. *)
Lemma fixRelativeUris_inv (articleContent fixed : node) :
  _fixRelativeUris host doc articleContent = Some fixed ->
  exists k1 k2,
    mapM (fixLink host doc) (childNodes articleContent) = Some k1
    /\ mapM (fixMedia host doc) k1 = Some k2
    /\ descendants fixed = concat (map elementsOf k2).
Proof.
  unfold _fixRelativeUris. intros H.
  destruct (mapM (fixLink host doc) (childNodes articleContent))
    as [k1 |] eqn:E1; [| discriminate H].
  cbn [mbind option_bind] in H.
  destruct (mapM (fixMedia host doc) k1) as [k2 |] eqn:E2; [| discriminate H].
  injection H as <-. exists k1, k2. repeat split; [exact E2 |].
  destruct articleContent; [| reflexivity].
  injection E1 as <-. injection E2 as <-. reflexivity.
Qed.

Lemma fixRelativeUris_links (articleContent fixed : node) :
  _fixRelativeUris host doc articleContent = Some fixed ->
  Forall2 (linkFixed host doc)
    (List.filter keptAnchor (descendants articleContent))
    (List.filter (hasTag "A") (descendants fixed)).
Proof.
  intros H. apply fixRelativeUris_inv in H as (k1 & k2 & E1 & E2 & ->).
  rewrite descendants_childNodes.
  apply (Forall2_trans (linkFixed host doc) sameShell _
           _ (List.filter (hasTag "A") (concat (map elementsOf k1))) _).
  - exact linkFixed_sameShell.
  - apply (kids_related (fixLink host doc)); [| exact E1].
    apply Forall_forall. intros c _. apply fixLink_anchors.
  - apply (kids_related (fixMedia host doc)); [| exact E2].
    apply Forall_forall. intros c _.
    apply (fixMedia_untouched (hasTag "A")); [reflexivity |].
    exact medium_not_anchor.
Qed.

Lemma fixRelativeUris_media (articleContent fixed : node) :
  _fixRelativeUris host doc articleContent = Some fixed ->
  Forall2 (mediumFixed host doc)
    (List.filter isMedium (descendants articleContent))
    (List.filter isMedium (descendants fixed)).
Proof.
  intros H. apply fixRelativeUris_inv in H as (k1 & k2 & E1 & E2 & ->).
  rewrite descendants_childNodes.
  apply (Forall2_trans sameShell (mediumFixed host doc) _
           _ (List.filter isMedium (concat (map elementsOf k1))) _).
  - exact sameShell_mediumFixed.
  - apply (kids_related (fixLink host doc)); [| exact E1].
    apply Forall_forall. intros c _.
    apply (fixLink_untouched isMedium);
      [reflexivity | exact anchor_not_medium | reflexivity].
  - apply (kids_related (fixMedia host doc)); [| exact E2].
    apply Forall_forall. intros c _. apply fixMedia_media.
Qed.

(** The elements of another tag are as they were. *)
Lemma fixRelativeUris_others (tag : String.string)
  (articleContent fixed : node) :
  tag ∉ "A" :: "SPAN" :: mediaTags ->
  _fixRelativeUris host doc articleContent = Some fixed ->
  Forall2 sameShell
    (List.filter (hasTag tag) (descendants articleContent))
    (List.filter (hasTag tag) (descendants fixed)).
Proof.
  intros Htag H. apply fixRelativeUris_inv in H as (k1 & k2 & E1 & E2 & ->).
  apply not_elem_of_cons in Htag as [Hanchor Htag].
  apply not_elem_of_cons in Htag as [Hspan Hmedia].
  rewrite descendants_childNodes.
  apply (Forall2_trans sameShell sameShell _
           _ (List.filter (hasTag tag) (concat (map elementsOf k1))) _).
  - exact sameShell_trans.
  - apply (kids_related (fixLink host doc)); [| exact E1].
    apply Forall_forall. intros c _.
    apply (fixLink_untouched (hasTag tag)); [reflexivity | |].
    + intros m. apply hasTag_other. congruence.
    + intros k. apply (hasTag_other "SPAN"); [congruence | reflexivity].
  - apply (kids_related (fixMedia host doc)); [| exact E2].
    apply Forall_forall. intros c _.
    apply (fixMedia_untouched (hasTag tag)); [reflexivity |].
    intros m Hm. apply existsb_exists in Hm as (x & Hx & Hm).
    apply (hasTag_other x); [| exact Hm].
    intros ->. apply Hmedia, list_elem_of_In, Hx.
Qed.

End UriTree.

Lemma filter_anchors (l : list node) :
  List.filter (fun a => negb (javascriptLink a)) (List.filter (hasTagIn ["A"]) l)
  = List.filter keptAnchor l.
Proof.
  rewrite filter_filter_and. apply List.filter_ext. intros x.
  unfold keptAnchor, hasTagIn. cbn [existsb]. rewrite orb_false_r. reflexivity.
Qed.

Lemma filter_hasTagIn_one (tag : String.string) (l : list node) :
  List.filter (hasTagIn [tag]) l = List.filter (hasTag tag) l.
Proof.
  apply List.filter_ext. intros x. unfold hasTagIn. cbn [existsb].
  apply orb_false_r.
Qed.

Lemma startsWith_slashes (uri : jsstring) :
  startsWith uri (lit "//") = true ->
  truthy uri = true /\ startsWith uri (lit "#") = false.
Proof.
  destruct uri as [| c uri]; [discriminate |].
  cbn -[N.eqb]. intros H. split; [reflexivity |].
  apply andb_prop in H as [H _]. apply N.eqb_eq in H. subst c. reflexivity.
Qed.

Lemma piecesScan_skip (r : regex) (a : jsstring) : forall pre rest,
  piecesScan r (length a) pre (a ++ rest) = piecesScan r 0 (rev a ++ pre) rest.
Proof.
  induction a as [| x a IH]; intros pre rest; [reflexivity |].
  cbn [length app piecesScan rev]. rewrite IH, <- app_assoc. reflexivity.
Qed.

(** *** The candidates of a [srcset] *)

(** The loop of a greedy star, as [rmatch] runs it. *)
Definition starLoop {A : Type} (a : regex) (k : mstate -> option A)
  : nat -> mstate -> option A :=
  fix iter (n : nat) (s : mstate) {struct n} : option A :=
    match n with
    | O => k s
    | S n' =>
        match rmatch a s (fun s1 =>
                if (length (m_rest s1) <? length (m_rest s))%nat
                then iter n' s1 else None) with
        | Some x => Some x
        | None => k s
        end
    end.

Lemma rmatch_star {A : Type} (a : regex) (s : mstate) (k : mstate -> option A) :
  rmatch (RStar a) s k = starLoop a k (S (length (m_rest s))) s.
Proof. reflexivity. Qed.

Lemma rmatch_seq {A : Type} (a b : regex) (s : mstate) (k : mstate -> option A) :
  rmatch (RSeq a b) s k = rmatch a s (fun s1 => rmatch b s1 k).
Proof. reflexivity. Qed.

Lemma rmatch_group {A : Type} (i : nat) (a : regex) (s : mstate)
  (k : mstate -> option A) :
  rmatch (RGroup i a) s k = rmatch a s (fun s1 => k (setCap i s s1)).
Proof. reflexivity. Qed.

(** What follows is tried after the longest run first, then after the
    shorter ones. *)
Fixpoint longestFirst {A : Type} (k : mstate -> option A) (pre run rest : list N)
  (caps : list (nat * jsstring)) : option A :=
  match run with
  | [] => k (MState pre rest caps)
  | c :: run' =>
      match longestFirst k (c :: pre) run' rest caps with
      | Some x => Some x
      | None => k (MState pre (c :: run' ++ rest) caps)
      end
  end.

(** No character of the class [p] starts [rest]. *)
Definition stopsAt (p : N -> bool) (rest : list N) : bool :=
  match rest with c :: _ => negb (p c) | [] => true end.

Section StarOfClass.
Context {A : Type} (p : N -> bool) (k : mstate -> option A).

Lemma starLoop_run (run : list N) : forall n pre rest caps,
  (length (run ++ rest) < n)%nat ->
  forallb p run = true -> stopsAt p rest = true ->
  starLoop (RChar p) k n (MState pre (run ++ rest) caps)
  = longestFirst k pre run rest caps.
Proof.
  induction run as [| c run IH]; intros n pre rest caps Hn Hrun Hstop;
    (destruct n as [| n]; [lia |]); cbn [starLoop rmatch m_rest m_pre m_caps app].
  - destruct rest as [| c rest]; [reflexivity |].
    cbn [stopsAt] in Hstop. apply negb_true_iff in Hstop. rewrite Hstop.
    reflexivity.
  - cbn [forallb] in Hrun. apply andb_prop in Hrun as [Hc Hrun]. rewrite Hc.
    cbn [length]. replace (length (run ++ rest) <? S (length (run ++ rest)))%nat
      with true by (symmetry; apply Nat.ltb_lt; lia).
    fold (starLoop (RChar p) k).
    rewrite IH by (cbn [app length] in Hn; try lia; assumption).
    reflexivity.
Qed.

Lemma rmatch_star_run (run pre rest : list N) (caps : list (nat * jsstring)) :
  forallb p run = true -> stopsAt p rest = true ->
  rmatch (RStar (RChar p)) (MState pre (run ++ rest) caps) k
  = longestFirst k pre run rest caps.
Proof.
  intros Hrun Hstop. rewrite rmatch_star. cbn [m_rest].
  apply starLoop_run; [lia | assumption | assumption].
Qed.

Lemma rmatch_star_stop (pre rest : list N) (caps : list (nat * jsstring)) :
  stopsAt p rest = true ->
  rmatch (RStar (RChar p)) (MState pre rest caps) k = k (MState pre rest caps).
Proof. intros Hstop. exact (rmatch_star_run [] pre rest caps eq_refl Hstop). Qed.

Lemma rmatch_plus_run (c : N) (run pre rest : list N)
  (caps : list (nat * jsstring)) :
  p c = true -> forallb p run = true -> stopsAt p rest = true ->
  rmatch (rplus (RChar p)) (MState pre (c :: run ++ rest) caps) k
  = longestFirst k (c :: pre) run rest caps.
Proof.
  intros Hc Hrun Hstop. unfold rplus.
  change (rmatch (RSeq (RChar p) (RStar (RChar p)))
            (MState pre (c :: run ++ rest) caps) k)
    with (if p c
          then rmatch (RStar (RChar p)) (MState (c :: pre) (run ++ rest) caps) k
          else None).
  rewrite Hc. apply rmatch_star_run; assumption.
Qed.

(** What follows succeeds after the longest run. *)
Lemma longestFirst_greedy (run : list N) : forall pre rest caps x,
  k (MState (rev run ++ pre) rest caps) = Some x ->
  longestFirst k pre run rest caps = Some x.
Proof.
  induction run as [| c run IH]; intros pre rest caps x Hk;
    cbn [longestFirst]; [exact Hk |].
  rewrite (IH (c :: pre) rest caps x); [reflexivity |].
  cbn [rev] in Hk. rewrite <- app_assoc in Hk. exact Hk.
Qed.

(** What follows fails after the longest run, and succeeds one
    character before. *)
Lemma longestFirst_back (run : list N) : forall pre c rest caps x,
  k (MState (c :: rev run ++ pre) rest caps) = None ->
  k (MState (rev run ++ pre) (c :: rest) caps) = Some x ->
  longestFirst k pre (run ++ [c]) rest caps = Some x.
Proof.
  induction run as [| c0 run IH]; intros pre c rest caps x Hnone Hsome;
    cbn [longestFirst app].
  - cbn [rev app] in Hnone, Hsome. rewrite Hnone. exact Hsome.
  - rewrite (IH (c0 :: pre) c rest caps x); [reflexivity | |];
      cbn [rev] in Hnone, Hsome; rewrite <- app_assoc in Hnone, Hsome;
      assumption.
Qed.

End StarOfClass.

(** The second and the third group of [REGEXPS.srcsetUrl]. *)
Definition isNumberChar (c : N) : bool := isDigit c || (c =? 46)%N.

Definition descriptorGroup : regex :=
  RGroup 2 (rseq [rplus REGEXPS.sp; rplus (RChar isNumberChar);
                  RChar (oneOf (lit "xw"))]).

Definition separatorGroup : regex :=
  RGroup 3 (rseq [RStar REGEXPS.sp; RAlt (chr 44) REol]).

Lemma srcsetUrl_groups :
  REGEXPS.srcsetUrl
  = RSeq (RGroup 1 (rplus REGEXPS.nonSp))
         (RSeq (ropt descriptorGroup) (RSeq separatorGroup REps)).
Proof. reflexivity. Qed.

Lemma setCap_app (i : nat) (pre a b : list N) (caps : list (nat * jsstring))
  (pre' : list N) (caps' : list (nat * jsstring)) :
  setCap i (MState pre (a ++ b) caps) (MState pre' b caps')
  = MState pre' b ((i, a) :: caps').
Proof.
  unfold setCap, consumed. cbn [m_pre m_rest m_caps]. rewrite length_app.
  replace (length a + length b - length b)%nat with (length a) by lia.
  rewrite take_app_length. reflexivity.
Qed.

Lemma isNumberChar_range (c : N) :
  isNumberChar c = true -> (46 <= c <= 57)%N.
Proof.
  unfold isNumberChar, isDigit. intros H.
  apply orb_prop in H as [H | H].
  - apply andb_prop in H as [H1 H2]. apply N.leb_le in H1, H2. lia.
  - apply N.eqb_eq in H. lia.
Qed.

Lemma isSpace_range (c : N) : (33 <= c <= 159)%N -> isSpace c = false.
Proof.
  intros H. unfold isSpace.
  replace (c <=? 13)%N with false by (symmetry; apply N.leb_gt; lia).
  replace (c =? 32)%N with false by (symmetry; apply N.eqb_neq; lia).
  replace (c =? 160)%N with false by (symmetry; apply N.eqb_neq; lia).
  replace (c =? 5760)%N with false by (symmetry; apply N.eqb_neq; lia).
  replace (8192 <=? c)%N with false by (symmetry; apply N.leb_gt; lia).
  replace (c =? 8232)%N with false by (symmetry; apply N.eqb_neq; lia).
  replace (c =? 8233)%N with false by (symmetry; apply N.eqb_neq; lia).
  replace (c =? 8239)%N with false by (symmetry; apply N.eqb_neq; lia).
  replace (c =? 8287)%N with false by (symmetry; apply N.eqb_neq; lia).
  replace (c =? 12288)%N with false by (symmetry; apply N.eqb_neq; lia).
  replace (c =? 65279)%N with false by (symmetry; apply N.eqb_neq; lia).
  rewrite andb_false_r. reflexivity.
Qed.

Section SeparatorGroup.
Context {A : Type} (k : mstate -> option A).

Lemma rmatch_separator_comma pre more caps :
  rmatch separatorGroup (MState pre (44%N :: more) caps) k
  = k (MState (44%N :: pre) more ((3%nat, [44%N]) :: caps)).
Proof.
  unfold separatorGroup, REGEXPS.sp. cbn [rseq foldr].
  rewrite rmatch_group, rmatch_seq, rmatch_star_stop by reflexivity.
  cbn [rmatch m_rest m_pre m_caps chr].
  change (44 =? 44)%N with true. cbn iota.
  pose proof (setCap_app 3 pre [44%N] more caps (44%N :: pre) caps) as Hcap.
  cbn [app] in Hcap. rewrite Hcap.
  destruct (k _); reflexivity.
Qed.

Lemma rmatch_separator_end pre caps :
  rmatch separatorGroup (MState pre [] caps) k
  = k (MState pre [] ((3%nat, []) :: caps)).
Proof.
  unfold separatorGroup, REGEXPS.sp. cbn [rseq foldr].
  rewrite rmatch_group, rmatch_seq, rmatch_star_stop by reflexivity.
  cbn [rmatch m_rest m_pre m_caps chr].
  pose proof (setCap_app 3 pre [] [] caps pre caps) as Hcap.
  cbn [app] in Hcap. rewrite Hcap. reflexivity.
Qed.

Lemma rmatch_separator_fail pre c0 more caps :
  isSpace c0 = false -> (c0 =? 44)%N = false ->
  rmatch separatorGroup (MState pre (32%N :: c0 :: more) caps) k = None.
Proof.
  intros Hspace Hcomma. unfold separatorGroup, REGEXPS.sp. cbn [rseq foldr].
  rewrite rmatch_group, rmatch_seq.
  rewrite (rmatch_star_run isSpace _ [32%N] pre (c0 :: more) caps);
    [| reflexivity | cbn [stopsAt]; rewrite Hspace; reflexivity].
  cbn [longestFirst rmatch m_rest m_pre m_caps chr app].
  rewrite (N.eqb_sym 44 c0), Hcomma. reflexivity.
Qed.

End SeparatorGroup.

Lemma rmatch_char {A : Type} (p : N -> bool) (pre rest : list N)
  (caps : list (nat * jsstring)) (k : mstate -> option A) :
  rmatch (RChar p) (MState pre rest caps) k
  = match rest with
    | c :: t => if p c then k (MState (c :: pre) t caps) else None
    | [] => None
    end.
Proof. reflexivity. Qed.

Lemma rmatch_alt {A : Type} (a b : regex) (s : mstate) (k : mstate -> option A) :
  rmatch (RAlt a b) s k
  = match rmatch a s k with Some x => Some x | None => rmatch b s k end.
Proof. reflexivity. Qed.

Lemma rmatch_eps {A : Type} (s : mstate) (k : mstate -> option A) :
  rmatch REps s k = k s.
Proof. reflexivity. Qed.

Section DescriptorGroup.
Context {A : Type} (k : mstate -> option A).

(** No descriptor where no white space follows the URL. *)
Lemma rmatch_descriptor_none pre rest caps :
  stopsAt isSpace rest = true ->
  rmatch descriptorGroup (MState pre rest caps) k = None.
Proof.
  intros Hstop. unfold descriptorGroup, rplus, REGEXPS.sp. cbn [rseq foldr].
  rewrite rmatch_group, !rmatch_seq, rmatch_char.
  destruct rest as [| c t]; [reflexivity |].
  cbn [stopsAt] in Hstop. apply negb_true_iff in Hstop. rewrite Hstop.
  reflexivity.
Qed.

(** No descriptor where what follows the white space is no number. *)
Lemma rmatch_descriptor_fail pre c0 more caps :
  isSpace c0 = false -> isNumberChar c0 = false ->
  rmatch descriptorGroup (MState pre (32%N :: c0 :: more) caps) k = None.
Proof.
  intros Hspace Hnumber. unfold descriptorGroup, REGEXPS.sp. cbn [rseq foldr].
  rewrite rmatch_group, rmatch_seq.
  rewrite (rmatch_plus_run isSpace _ 32%N [] pre (c0 :: more) caps);
    [| reflexivity | reflexivity | cbn [stopsAt]; rewrite Hspace; reflexivity].
  cbn [longestFirst]. unfold rplus. rewrite !rmatch_seq, rmatch_char, Hnumber.
  reflexivity.
Qed.

(** A descriptor: one space, a number, and [x] or [w]. *)
Lemma rmatch_descriptor pre number unit rest caps x :
  truthy number = true -> forallb isNumberChar number = true ->
  oneOf (lit "xw") unit = true ->
  k (MState (unit :: rev number ++ 32%N :: pre) rest
            ((2%nat, 32%N :: number ++ [unit]) :: caps)) = Some x ->
  rmatch descriptorGroup (MState pre (32%N :: number ++ unit :: rest) caps) k
  = Some x.
Proof.
  intros Htruthy Hnumber Hunit Hk.
  destruct number as [| n0 number]; [discriminate |].
  cbn [forallb] in Hnumber. apply andb_prop in Hnumber as [Hn0 Hnumber].
  assert (Hunit_number : isNumberChar unit = false).
  { unfold oneOf in Hunit. cbn [existsb lit] in Hunit.
    cbn in Hunit. rewrite orb_false_r in Hunit.
    apply orb_prop in Hunit as [H | H]; apply N.eqb_eq in H; subst unit;
      reflexivity. }
  unfold descriptorGroup, REGEXPS.sp. cbn [rseq foldr].
  rewrite rmatch_group, rmatch_seq. cbn [app].
  rewrite (rmatch_plus_run isSpace _ 32%N [] pre (n0 :: number ++ unit :: rest) caps);
    [| reflexivity | reflexivity
     | cbn [stopsAt];
       rewrite (isSpace_range n0)
         by (pose proof (isNumberChar_range n0 Hn0); lia);
       reflexivity].
  cbn [longestFirst]. rewrite rmatch_seq.
  rewrite (rmatch_plus_run isNumberChar _ n0 number (32%N :: pre) (unit :: rest) caps);
    [| exact Hn0 | exact Hnumber | cbn [stopsAt]; rewrite Hunit_number; reflexivity].
  apply longestFirst_greedy.
  rewrite rmatch_seq, rmatch_char, Hunit, rmatch_eps.
  pose proof (setCap_app 2 pre (32%N :: n0 :: number ++ [unit]) rest caps
                (unit :: rev number ++ n0 :: 32%N :: pre) caps) as Hcap.
  cbn [app] in Hcap. rewrite <- app_assoc in Hcap. cbn [app] in Hcap.
  rewrite Hcap. cbn [rev] in Hk. rewrite <- app_assoc in Hk. exact Hk.
Qed.

End DescriptorGroup.

(** A candidate of a [srcset]: a URL and, when it has one, the number
    and the unit of its width or density descriptor. *)
Record candidate : Type := Candidate {
  c_url : jsstring;
  c_descriptor : option (jsstring * N);
}.

Definition isUrlChar (c : N) : bool := negb (isSpace c) && negb (c =? 44)%N.

Definition descriptorText (d : option (jsstring * N)) : jsstring :=
  match d with
  | Some (number, unit) => 32%N :: number ++ [unit]
  | None => []
  end.

Definition candidateText (c : candidate) : jsstring :=
  c_url c ++ descriptorText (c_descriptor c).

(** The candidates, a comma and a space between them. *)
Definition srcsetText (cs : list candidate) : jsstring :=
  join (lit ", ") (candidateText <$> cs).

(** The URL is not empty and has no white space and no comma; the
    number of the descriptor is made of digits and dots, and its unit is
    [x] or [w]. *)
Definition wellFormedCandidate (c : candidate) : bool :=
  truthy (c_url c) && forallb isUrlChar (c_url c)
  && match c_descriptor c with
     | Some (number, unit) =>
         truthy number && forallb isNumberChar number && oneOf (lit "xw") unit
     | None => true
     end.

(** A list of candidates in which no URL that starts with a digit or a
    dot follows a candidate without descriptor. *)
Fixpoint wellFormedSrcset (cs : list candidate) : bool :=
  match cs with
  | [] => true
  | c :: rest =>
      wellFormedCandidate c
      && match c_descriptor c, rest with
         | None, next :: _ =>
             match c_url next with
             | c0 :: _ => negb (isNumberChar c0)
             | [] => true
             end
         | _, _ => true
         end
      && wellFormedSrcset rest
  end.

(** What follows the first group of [REGEXPS.srcsetUrl]. *)
Definition afterUrl (s : mstate) : option mstate :=
  rmatch (RSeq (ropt descriptorGroup) (RSeq separatorGroup REps)) s Some.

Definition descriptorCaps (d : option (jsstring * N)) : list (nat * jsstring) :=
  match d with Some _ => [(2%nat, descriptorText d)] | None => [] end.

Definition wellFormedDescriptor (d : option (jsstring * N)) : bool :=
  match d with
  | Some (number, unit) =>
      truthy number && forallb isNumberChar number && oneOf (lit "xw") unit
  | None => true
  end.

Lemma afterUrl_end (d : option (jsstring * N)) pre caps :
  wellFormedDescriptor d = true ->
  afterUrl (MState pre (descriptorText d) caps)
  = Some (MState (rev (descriptorText d) ++ pre) []
                 ((3%nat, []) :: descriptorCaps d ++ caps)).
Proof.
  intros Hd. unfold afterUrl, ropt. rewrite rmatch_seq, rmatch_alt.
  destruct d as [[number unit] |]; cbn [descriptorText descriptorCaps app].
  - cbn [wellFormedDescriptor] in Hd.
    apply andb_prop in Hd as [Hd Hunit]. apply andb_prop in Hd as [Htruthy Hnumber].
    pose proof (rmatch_descriptor
                  (fun s1 => rmatch (RSeq separatorGroup REps) s1 Some)
                  pre number unit [] caps) as Hmatch.
    rewrite (Hmatch (MState (unit :: rev number ++ 32%N :: pre) []
                       ((3%nat, []) :: (2%nat, 32%N :: number ++ [unit]) :: caps))
               Htruthy Hnumber Hunit);
      [| cbv beta; rewrite rmatch_seq, rmatch_separator_end; reflexivity].
    cbn [rev]. rewrite rev_app_distr. cbn [rev app].
    rewrite <- app_assoc. reflexivity.
  - rewrite rmatch_descriptor_none by reflexivity.
    rewrite rmatch_eps, rmatch_seq, rmatch_separator_end. reflexivity.
Qed.

Lemma afterUrl_comma (d : option (jsstring * N)) pre more caps :
  wellFormedDescriptor d = true ->
  afterUrl (MState pre (descriptorText d ++ 44%N :: more) caps)
  = Some (MState (44%N :: rev (descriptorText d) ++ pre) more
                 ((3%nat, [44%N]) :: descriptorCaps d ++ caps)).
Proof.
  intros Hd. unfold afterUrl, ropt. rewrite rmatch_seq, rmatch_alt.
  destruct d as [[number unit] |]; cbn [descriptorText descriptorCaps app].
  - cbn [wellFormedDescriptor] in Hd.
    apply andb_prop in Hd as [Hd Hunit]. apply andb_prop in Hd as [Htruthy Hnumber].
    pose proof (rmatch_descriptor
                  (fun s1 => rmatch (RSeq separatorGroup REps) s1 Some)
                  pre number unit (44%N :: more) caps) as Hmatch.
    rewrite <- app_assoc. cbn [app].
    rewrite (Hmatch (MState (44%N :: unit :: rev number ++ 32%N :: pre) more
                       ((3%nat, [44%N]) :: (2%nat, 32%N :: number ++ [unit]) :: caps))
               Htruthy Hnumber Hunit);
      [| cbv beta; rewrite rmatch_seq, rmatch_separator_comma; reflexivity].
    cbn [rev]. rewrite rev_app_distr. cbn [rev app].
    rewrite <- app_assoc. reflexivity.
  - rewrite rmatch_descriptor_none by reflexivity.
    rewrite rmatch_eps, rmatch_seq, rmatch_separator_comma. reflexivity.
Qed.

Lemma afterUrl_fail pre c0 more caps :
  isSpace c0 = false -> (c0 =? 44)%N = false -> isNumberChar c0 = false ->
  afterUrl (MState pre (32%N :: c0 :: more) caps) = None.
Proof.
  intros Hspace Hcomma Hnumber. unfold afterUrl, ropt.
  rewrite rmatch_seq, rmatch_alt.
  rewrite rmatch_descriptor_fail by assumption.
  rewrite rmatch_eps, rmatch_seq. apply rmatch_separator_fail; assumption.
Qed.

Definition candidateCaps (c : candidate) (sep : jsstring)
  : list (nat * jsstring) :=
  (3%nat, sep) :: descriptorCaps (c_descriptor c) ++ [(1%nat, c_url c)].

Lemma urlChars_nonSp (url : jsstring) :
  forallb isUrlChar url = true ->
  forallb (fun c => negb (isSpace c)) url = true.
Proof.
  intros H. apply forallb_forall. intros c Hc.
  apply (proj1 (forallb_forall _ _) H) in Hc.
  unfold isUrlChar in Hc. apply andb_prop in Hc as [Hc _]. exact Hc.
Qed.

Lemma matchAt_srcsetUrl (pre rest : list N) :
  matchAt REGEXPS.srcsetUrl pre rest
  = rmatch (rplus REGEXPS.nonSp) (MState pre rest [])
      (fun s1 => afterUrl (setCap 1 (MState pre rest []) s1)).
Proof. reflexivity. Qed.

Lemma descriptorText_stops (d : option (jsstring * N)) (rest : list N) :
  d <> None ->
  stopsAt (fun c => negb (isSpace c)) (descriptorText d ++ rest) = true.
Proof. destruct d as [[number unit] |]; [reflexivity | congruence]. Qed.

(** The pattern at a candidate that ends the list. *)
Lemma matchAt_candidate_last (c : candidate) (pre : list N) :
  wellFormedCandidate c = true ->
  matchAt REGEXPS.srcsetUrl pre (candidateText c)
  = Some (MState (rev (candidateText c) ++ pre) [] (candidateCaps c [])).
Proof.
  destruct c as [url d]. unfold wellFormedCandidate, candidateText, candidateCaps.
  cbn [c_url c_descriptor]. intros H.
  apply andb_prop in H as [H Hd]. apply andb_prop in H as [Htruthy Hurl].
  fold (wellFormedDescriptor d) in Hd.
  destruct url as [| u0 url]; [discriminate |].
  cbn [forallb] in Hurl. apply andb_prop in Hurl as [Hu0 Hurl].
  rewrite matchAt_srcsetUrl. unfold REGEXPS.nonSp. cbn [app].
  rewrite (rmatch_plus_run (fun c => negb (isSpace c)) _ u0 url pre
             (descriptorText d) []);
    [| unfold isUrlChar in Hu0; apply andb_prop in Hu0 as [Hu0 _]; exact Hu0
     | apply urlChars_nonSp, Hurl
     | destruct d as [[number unit] |]; reflexivity].
  apply longestFirst_greedy.
  pose proof (setCap_app 1 pre (u0 :: url) (descriptorText d) []
                (rev url ++ u0 :: pre) []) as Hcap.
  cbn [app] in Hcap. rewrite Hcap, (afterUrl_end d _ _ Hd).
  cbn [rev]. rewrite rev_app_distr, <- !app_assoc. reflexivity.
Qed.

(** The pattern at a candidate that another one follows. *)
Lemma matchAt_candidate_next (c : candidate) (pre : list N) (c0 : N)
  (more : list N) :
  wellFormedCandidate c = true ->
  isUrlChar c0 = true ->
  (c_descriptor c = None -> isNumberChar c0 = false) ->
  matchAt REGEXPS.srcsetUrl pre (candidateText c ++ 44%N :: 32%N :: c0 :: more)
  = Some (MState (44%N :: rev (candidateText c) ++ pre) (32%N :: c0 :: more)
                 (candidateCaps c [44%N])).
Proof.
  destruct c as [url d]. unfold wellFormedCandidate, candidateText, candidateCaps.
  cbn [c_url c_descriptor]. intros H Hc0 Hnumber.
  apply andb_prop in H as [H Hd]. apply andb_prop in H as [Htruthy Hurl].
  fold (wellFormedDescriptor d) in Hd.
  unfold isUrlChar in Hc0. apply andb_prop in Hc0 as [Hspace Hcomma].
  apply negb_true_iff in Hspace, Hcomma.
  destruct url as [| u0 url]; [discriminate |].
  cbn [forallb] in Hurl. apply andb_prop in Hurl as [Hu0 Hurl].
  assert (Hu0' : negb (isSpace u0) = true)
    by (unfold isUrlChar in Hu0; apply andb_prop in Hu0 as [Hu0 _]; exact Hu0).
  rewrite matchAt_srcsetUrl. unfold REGEXPS.nonSp. cbn [app].
  destruct d as [[number unit] |].
  - rewrite <- app_assoc.
    rewrite (rmatch_plus_run (fun c => negb (isSpace c)) _ u0 url pre
               (descriptorText (Some (number, unit)) ++ 44%N :: 32%N :: c0 :: more) []);
      [| exact Hu0' | apply urlChars_nonSp, Hurl | reflexivity].
    apply longestFirst_greedy.
    pose proof (setCap_app 1 pre (u0 :: url)
                  (descriptorText (Some (number, unit)) ++ 44%N :: 32%N :: c0 :: more)
                  [] (rev url ++ u0 :: pre) []) as Hcap.
    cbn [app] in Hcap. rewrite Hcap.
    rewrite (afterUrl_comma (Some (number, unit)) _ _ _ Hd).
    cbn [rev]. rewrite rev_app_distr, <- !app_assoc. reflexivity.
  - cbn [descriptorText]. rewrite app_nil_r.
    change (url ++ 44%N :: 32%N :: c0 :: more)
      with (url ++ [44%N] ++ 32%N :: c0 :: more).
    rewrite (app_assoc url).
    rewrite (rmatch_plus_run (fun c => negb (isSpace c)) _ u0 (url ++ [44%N]) pre
               (32%N :: c0 :: more) []);
      [| exact Hu0'
       | rewrite forallb_app, (urlChars_nonSp url Hurl); reflexivity
       | reflexivity].
    apply longestFirst_back.
    + pose proof (setCap_app 1 pre (u0 :: url ++ [44%N]) (32%N :: c0 :: more) []
                    (44%N :: rev url ++ u0 :: pre) []) as Hcap.
      cbn [app] in Hcap. rewrite <- app_assoc in Hcap. cbn [app] in Hcap.
      rewrite <- app_assoc. cbn [app].
      rewrite Hcap. apply afterUrl_fail; [exact Hspace | exact Hcomma |].
      apply Hnumber. reflexivity.
    + pose proof (setCap_app 1 pre (u0 :: url) (44%N :: 32%N :: c0 :: more) []
                    (rev url ++ u0 :: pre) []) as Hcap.
      cbn [app] in Hcap. rewrite <- app_assoc. cbn [app].
      rewrite Hcap.
      pose proof (afterUrl_comma None (rev url ++ u0 :: pre) (32%N :: c0 :: more)
                    [(1%nat, u0 :: url)] eq_refl) as Hafter.
      cbn [descriptorText rev app descriptorCaps] in Hafter.
      etransitivity; [exact Hafter |].
      cbn [descriptorCaps rev app]. rewrite <- app_assoc. reflexivity.
Qed.

(** The scan of [replace] at a match and where there is none. *)
Lemma piecesScan_match (r : regex) (pre a rest : list N) (e : mstate) :
  a <> [] -> matchAt r pre (a ++ rest) = Some e -> m_rest e = rest ->
  piecesScan r 0 pre (a ++ rest)
  = inr (foundAt pre (a ++ rest) e) :: piecesScan r 0 (rev a ++ pre) rest.
Proof.
  intros Ha Hmatch Hrest. destruct a as [| c a]; [congruence |].
  cbn [app piecesScan] in *. rewrite Hmatch. f_equal.
  unfold foundAt. cbn [f_text]. rewrite Hrest.
  change (c :: a ++ rest) with ((c :: a) ++ rest) at 1.
  rewrite length_app.
  replace (length (c :: a) + length rest - length rest)%nat
    with (S (length a)) by (cbn [length]; lia).
  rewrite length_take. cbn [length]. rewrite length_app.
  replace (S (length a) `min` S (length a + length rest))%nat
    with (S (length a)) by lia.
  rewrite piecesScan_skip. cbn [rev]. rewrite <- app_assoc. reflexivity.
Qed.

Lemma piecesScan_miss (r : regex) (pre : list N) (c : N) (t : list N) :
  matchAt r pre (c :: t) = None ->
  piecesScan r 0 pre (c :: t) = inl c :: piecesScan r 0 (c :: pre) t.
Proof. intros H. cbn [piecesScan]. rewrite H. reflexivity. Qed.

Lemma piecesScan_end (r : regex) (pre : list N) :
  matchAt r pre [] = None -> piecesScan r 0 pre [] = [].
Proof. intros H. cbn [piecesScan]. rewrite H. reflexivity. Qed.

Lemma foundAt_caps (pre rest : list N) (e : mstate) :
  f_caps (foundAt pre rest e) = m_caps e.
Proof. reflexivity. Qed.

Lemma matchAt_srcsetUrl_space (pre rest : list N) :
  matchAt REGEXPS.srcsetUrl pre (32%N :: rest) = None.
Proof. reflexivity. Qed.

Lemma matchAt_srcsetUrl_nil (pre : list N) :
  matchAt REGEXPS.srcsetUrl pre [] = None.
Proof. reflexivity. Qed.

Lemma candidateCaps_groups (c : candidate) (sep : jsstring) (m : found) :
  f_caps m = candidateCaps c sep ->
  default [] (cap m 1) = c_url c
  /\ default [] (cap m 2) = descriptorText (c_descriptor c)
  /\ default [] (cap m 3) = sep.
Proof.
  intros Hcaps. unfold cap. rewrite Hcaps. unfold candidateCaps.
  destruct (c_descriptor c) as [[number unit] |]; repeat split; reflexivity.
Qed.

Lemma srcsetText_cons (c next : candidate) (cs : list candidate) :
  srcsetText (c :: next :: cs)
  = candidateText c ++ 44%N :: 32%N :: srcsetText (next :: cs).
Proof. reflexivity. Qed.

Lemma srcsetText_head (c : candidate) (cs : list candidate) :
  wellFormedCandidate c = true ->
  exists c0 url more,
    c_url c = c0 :: url /\ isUrlChar c0 = true
    /\ srcsetText (c :: cs) = c0 :: more.
Proof.
  destruct c as [url d]. unfold wellFormedCandidate. cbn [c_url c_descriptor].
  intros H. apply andb_prop in H as [H _]. apply andb_prop in H as [Htruthy Hurl].
  destruct url as [| c0 url]; [discriminate |].
  cbn [forallb] in Hurl. apply andb_prop in Hurl as [Hc0 _].
  exists c0, url. unfold srcsetText, candidateText. cbn [fmap list_fmap c_url c_descriptor].
  destruct cs; cbn [join list_fmap app]; eexists; repeat split; try exact Hc0;
    reflexivity.
Qed.

Lemma concat_bind (parts : option (list jsstring)) (x y : jsstring) :
  (fun l => concat l)
    <$> ((parts ≫= fun k => mret (y :: k)) ≫= fun k => mret (x :: k))
  = (fun s => x ++ y ++ s) <$> ((fun l => concat l) <$> parts).
Proof. destruct parts; reflexivity. Qed.

Section AbsoluteCandidates.
Context (host : Host) (doc : document).

(** A candidate with its URL made absolute. *)
Definition absoluteCandidate (c : candidate) : option candidate :=
  (fun url => Candidate url (c_descriptor c)) <$> toAbsoluteURI host doc (c_url c).

Let replacement (piece : N + found) : option jsstring :=
  match piece with
  | inl c => Some [c]
  | inr m =>
      p1 ← toAbsoluteURI host doc (default [] (cap m 1));
      Some (p1 ++ default [] (cap m 2) ++ default [] (cap m 3))
  end.

Lemma replacement_candidate (c : candidate) (sep : jsstring) (m : found) :
  f_caps m = candidateCaps c sep ->
  replacement (inr m)
  = (fun c' => candidateText c' ++ sep) <$> absoluteCandidate c.
Proof.
  intros Hcaps. destruct (candidateCaps_groups c sep m Hcaps) as (H1 & H2 & H3).
  unfold replacement, absoluteCandidate. rewrite H1, H2, H3.
  destruct (toAbsoluteURI host doc (c_url c)) as [url |]; [| reflexivity].
  cbn [mbind option_bind fmap option_fmap option_map].
  unfold candidateText. cbn [c_url c_descriptor]. rewrite <- app_assoc.
  reflexivity.
Qed.

Lemma scan_candidates (cs : list candidate) : forall pre,
  wellFormedSrcset cs = true ->
  (fun parts => concat parts)
    <$> mapM replacement (piecesScan REGEXPS.srcsetUrl 0 pre (srcsetText cs))
  = srcsetText <$> mapM absoluteCandidate cs.
Proof.
  induction cs as [| c cs IH]; intros pre Hcs; [reflexivity |].
  cbn [wellFormedSrcset] in Hcs.
  apply andb_prop in Hcs as [Hcs Hrest]. apply andb_prop in Hcs as [Hc Hnext].
  destruct cs as [| next cs].
  - change (srcsetText [c]) with (candidateText c).
    rewrite <- (app_nil_r (candidateText c)).
    pose proof (matchAt_candidate_last c pre Hc) as Hmatch.
    rewrite <- (app_nil_r (candidateText c)) in Hmatch at 1.
    assert (Hne : candidateText c <> []).
    { destruct (srcsetText_head c [] Hc) as (c0 & url & more & Hurl & _ & _).
      unfold candidateText. rewrite Hurl. discriminate. }
    rewrite (piecesScan_match _ _ _ _ _ Hne Hmatch eq_refl).
    rewrite piecesScan_end by apply matchAt_srcsetUrl_nil.
    cbn [mapM]. rewrite (replacement_candidate c []) by reflexivity.
    cbn [mapM]. unfold absoluteCandidate.
    destruct (toAbsoluteURI host doc (c_url c)) as [url |]; [| reflexivity].
    cbn. rewrite !app_nil_r. reflexivity.
  - destruct (srcsetText_head next cs) as (c0 & url & more & Hurl & Hc0 & Htext).
    { cbn [wellFormedSrcset] in Hrest. apply andb_prop in Hrest as [Hrest _].
      apply andb_prop in Hrest as [Hrest _]. exact Hrest. }
    rewrite srcsetText_cons, Htext.
    assert (Hnumber : c_descriptor c = None -> isNumberChar c0 = false).
    { intros Hnone. rewrite Hnone, Hurl in Hnext.
      apply negb_true_iff in Hnext. exact Hnext. }
    pose proof (matchAt_candidate_next c pre c0 more Hc Hc0 Hnumber) as Hmatch.
    change (candidateText c ++ 44%N :: 32%N :: c0 :: more)
      with (candidateText c ++ [44%N] ++ 32%N :: c0 :: more) in *.
    rewrite (app_assoc (candidateText c)) in *.
    assert (Hne : candidateText c ++ [44%N] <> []).
    { intros Hnil. apply app_eq_nil in Hnil as [_ Hnil]. discriminate. }
    rewrite (piecesScan_match _ _ _ _ _ Hne Hmatch eq_refl).
    rewrite piecesScan_miss by apply matchAt_srcsetUrl_space.
    specialize (IH (32%N :: rev (candidateText c ++ [44%N]) ++ pre) Hrest).
    rewrite Htext in IH.
    cbn [mapM].
    change (absoluteCandidate next
            ≫= fun y => mapM absoluteCandidate cs ≫= fun k => mret (y :: k))
      with (mapM absoluteCandidate (next :: cs)).
    rewrite (replacement_candidate c [44%N]) by reflexivity.
    destruct (absoluteCandidate c) as [c' |]; [| reflexivity].
    cbn [fmap option_fmap option_map mbind option_bind replacement].
    rewrite concat_bind, IH.
    destruct (mapM absoluteCandidate (next :: cs)) as [[| next' cs'] |] eqn:Eabs;
      [apply length_mapM in Eabs; discriminate Eabs | | reflexivity].
    cbn [fmap option_fmap option_map mbind option_bind mret option_ret].
    rewrite srcsetText_cons, <- !app_assoc. reflexivity.
Qed.

(** The URLs of a well-formed [srcset] are made absolute, every one,
    and its descriptors are kept. *)
Lemma absoluteSrcset_candidates (cs : list candidate) :
  wellFormedSrcset cs = true ->
  absoluteSrcset host doc (srcsetText cs)
  = srcsetText <$> mapM absoluteCandidate cs.
Proof. intros Hcs. exact (scan_candidates cs [] Hcs). Qed.

End AbsoluteCandidates.

(** A document at [https://example.com/a/] with no [base] element. *)
Definition exampleDocument : document :=
  Document [] (Elem (lit "HTML") [] None None [])
           (lit "https://example.com/a/") (lit "https://example.com/a/").

Definition image (src : String.string) : node :=
  Elem (lit "IMG") [(lit "src", lit src)] None None [].

Definition page (kids : list node) : node := Elem (lit "DIV") [] None None kids.

(** An embedded video with a protocol-relative address. *)
Definition videoFrame : node :=
  Elem (lit "IFRAME") [(lit "src", lit "//www.youtube.com/embed/x")] None None [].

(** The [src] of an IFRAME is not rewritten: the video frame goes
    through the sanitizer, which keeps it for its address, and through
    [_fixRelativeUris], which leaves its protocol-relative [src] as it
    was, although [toAbsoluteURI] would have made it absolute. *)
Lemma C9_iframe_src_counterexample :
  _prepArticle exampleHost defaultReader 7 (page [videoFrame]) = page [videoFrame]
  /\ _fixRelativeUris exampleHost exampleDocument (page [videoFrame])
     = Some (page [videoFrame])
  /\ toAbsoluteURI exampleHost exampleDocument (lit "//www.youtube.com/embed/x")
     = Some (lit "https://www.youtube.com/embed/x").
Proof. vm_compute. repeat split. Qed.

(** The names that [querySelectorAll] is given: an element in the
    namespace of SVG or MathML has its tag in the case it is written in,
    and matches them in lower case. *)
Definition foreignTags : list String.string :=
  ["a"; "img"; "picture"; "figure"; "video"; "audio"; "source"].

(** A [srcset] with two descriptors on its first candidate: the pattern
    matches nowhere in [/a.png 640w], and the first URL stays as it is,
    while the second one is made absolute. *)
Lemma absoluteSrcset_two_descriptors :
  absoluteSrcset exampleHost exampleDocument (lit "/a.png 640w 480h, /b.png")
  = Some (lit "/a.png 640w 480h, https://example.com/b.png").
Proof. vm_compute. reflexivity. Qed.

(** C9.  When [_fixRelativeUris] returns, the A elements of the result
    are, in document order, those of the content whose [href] does not
    start with [javascript:], each with its [href], when it has one that
    is not empty, replaced by what [toAbsoluteURI] gives for it and with
    its other attributes as they were; and the IMG, PICTURE, FIGURE,
    VIDEO, AUDIO and SOURCE elements of the result are those of the
    content, each with its non-empty [src] and [poster] replaced by what
    [toAbsoluteURI] gives and with its non-empty [srcset] replaced by
    what the replacement of the matches of [REGEXPS.srcsetUrl] gives.
    Of a [srcset] that is a list of candidates with a comma and a space
    between them, each a URL without white space and without comma,
    alone or followed by a space and one descriptor, a number of digits
    and dots with [x] or [w] after it, and none without descriptor
    followed by a URL that starts with a digit or a dot, that
    replacement makes every URL what [toAbsoluteURI] gives for it, and
    keeps the descriptors; of a [srcset] of another form it may leave a
    URL as it was.  The elements of any other tag keep the attributes
    they had: SPAN apart, which the loop over the links may create, and
    apart from the elements of these names in lower case, those of
    another namespace, which the selectors match as well.
    [toAbsoluteURI] leaves an empty URI as it is; leaves a URI that
    starts with [#] as it is when the base URI is the document URI; puts
    the protocol of the base URI before a URI that starts with [//] and
    gives the resolved form of that when it resolves; and of any other
    URI gives the form resolved against the base URI, or the URI
    unchanged when it does not resolve.  In particular, where the URL
    constructor resolves [/pic.png] against [https://example.com/a/] to
    [https://example.com/pic.png], an IMG with the first as [src] ends
    with the second. *)
Theorem C9_fix_relative_uris (host : Host) (doc : document)
  (articleContent fixed : node)
  (Hfixed : _fixRelativeUris host doc articleContent = Some fixed) :
  Forall2 (linkFixed host doc)
    (List.filter (fun a => negb (javascriptLink a))
                 (_getAllNodesWithTag articleContent ["A"]))
    (_getAllNodesWithTag fixed ["A"])
  /\ Forall2 (mediumFixed host doc)
       (_getAllNodesWithTag articleContent mediaTags)
       (_getAllNodesWithTag fixed mediaTags)
  /\ (forall candidates,
        wellFormedSrcset candidates = true ->
        absoluteSrcset host doc (srcsetText candidates)
        = srcsetText <$> mapM (absoluteCandidate host doc) candidates)
  /\ (forall tag,
        tag ∉ "A" :: "SPAN" :: mediaTags ++ foreignTags ->
        Forall2 sameShell
          (_getAllNodesWithTag articleContent [tag])
          (_getAllNodesWithTag fixed [tag]))
  /\ (forall uri,
        truthy uri = false -> toAbsoluteURI host doc uri = Some uri)
  /\ (forall uri,
        baseURI doc = documentURI doc -> startsWith uri (lit "#") = true ->
        toAbsoluteURI host doc uri = Some uri)
  /\ (forall uri base resolved,
        startsWith uri (lit "//") = true ->
        newURL host (baseURI doc) None = Some base ->
        newURL host (protocol base ++ uri) (Some (baseURI doc)) = Some resolved ->
        toAbsoluteURI host doc uri = Some (href resolved))
  /\ (forall uri,
        truthy uri = true -> startsWith uri (lit "//") = false ->
        JS.eqb (baseURI doc) (documentURI doc) && startsWith uri (lit "#") = false ->
        toAbsoluteURI host doc uri
        = Some match newURL host uri (Some (baseURI doc)) with
               | Some resolved => href resolved
               | None => uri
               end)
  /\ (forall resolved,
        baseURI doc = lit "https://example.com/a/" ->
        newURL host (lit "/pic.png") (Some (baseURI doc)) = Some resolved ->
        href resolved = lit "https://example.com/pic.png" ->
        _fixRelativeUris host doc (page [image "/pic.png"])
        = Some (page [image "https://example.com/pic.png"])).
Proof.
  split; [| split; [| split; [| split; [| split; [| split; [| split; [| split]]]]]]].
  - unfold _getAllNodesWithTag. rewrite filter_anchors, filter_hasTagIn_one.
    apply fixRelativeUris_links, Hfixed.
  - apply fixRelativeUris_media, Hfixed.
  - intros candidates. apply absoluteSrcset_candidates.
  - intros tag Htag. unfold _getAllNodesWithTag. rewrite !filter_hasTagIn_one.
    apply (fixRelativeUris_others host doc); [| assumption].
    intros Hin. apply Htag.
    change ("A" :: "SPAN" :: mediaTags ++ foreignTags)
      with (("A" :: "SPAN" :: mediaTags) ++ foreignTags).
    apply elem_of_app. left. exact Hin.
  - intros uri Hempty. unfold toAbsoluteURI. rewrite Hempty. reflexivity.
  - intros uri Hbase Hhash. unfold toAbsoluteURI.
    destruct (truthy uri); [| reflexivity]. cbn [negb].
    replace (JS.eqb (baseURI doc) (documentURI doc)) with true
      by (symmetry; apply eqb_true, Hbase).
    rewrite Hhash. reflexivity.
  - intros uri base resolved Hslashes Hbase Hresolved.
    destruct (startsWith_slashes uri Hslashes) as [Htruthy Hhash].
    unfold toAbsoluteURI.
    rewrite Htruthy, Hhash, andb_false_r, Hslashes, Hbase. cbn.
    rewrite Hresolved. reflexivity.
  - intros uri Htruthy Hslashes Hhash. unfold toAbsoluteURI.
    rewrite Htruthy, Hhash, Hslashes. reflexivity.
  - intros resolved Hbase Hresolved Hhref.
    unfold _fixRelativeUris, page, image.
    cbn [childNodes mapM fixLink hasTag mbind option_bind fmap option_fmap option_map
         option_ret mret].
    replace (JS.eqb (lit "IMG") (lit "A")) with false by reflexivity.
    cbn [mapM fixMedia mbind option_bind fmap option_fmap option_map option_ret mret].
    replace (hasTagIn mediaTags (Elem (lit "IMG") [(lit "src", lit "/pic.png")] None None []))
      with true by reflexivity.
    unfold fixMedium.
    replace (truthyAttr (Elem (lit "IMG") [(lit "src", lit "/pic.png")] None None []) "src")
      with (Some (lit "/pic.png")) by reflexivity.
    replace (truthyAttr (Elem (lit "IMG") [(lit "src", lit "/pic.png")] None None []) "poster")
      with (@None jsstring) by reflexivity.
    replace (truthyAttr (Elem (lit "IMG") [(lit "src", lit "/pic.png")] None None []) "srcset")
      with (@None jsstring) by reflexivity.
    assert (Habs : toAbsoluteURI host doc (lit "/pic.png")
                   = Some (lit "https://example.com/pic.png")).
    { unfold toAbsoluteURI.
      replace (truthy (lit "/pic.png")) with true by reflexivity.
      replace (startsWith (lit "/pic.png") (lit "#")) with false by reflexivity.
      replace (startsWith (lit "/pic.png") (lit "//")) with false by reflexivity.
      rewrite andb_false_r. cbn [negb mbind option_bind].
      rewrite Hresolved, Hhref. reflexivity. }
    rewrite Habs. reflexivity.
Qed.

(** Two candidates, the first with a width. *)
Definition twoCandidates : list candidate :=
  [Candidate (lit "/a.png") (Some (lit "480", 119%N));
   Candidate (lit "/b.png") None].

Lemma C9_fix_relative_uris_witness :
  _fixRelativeUris exampleHost exampleDocument (page [image "/pic.png"])
  = Some (page [image "https://example.com/pic.png"])
  /\ Forall2 (mediumFixed exampleHost exampleDocument)
       (_getAllNodesWithTag (page [image "/pic.png"]) mediaTags)
       (_getAllNodesWithTag (page [image "https://example.com/pic.png"]) mediaTags)
  /\ srcsetText twoCandidates = lit "/a.png 480w, /b.png"
  /\ wellFormedSrcset twoCandidates = true
  /\ absoluteSrcset exampleHost exampleDocument (lit "/a.png 480w, /b.png")
     = Some (lit "https://example.com/a.png 480w, https://example.com/b.png").
Proof.
  assert (Hfixed : _fixRelativeUris exampleHost exampleDocument
                     (page [image "/pic.png"])
                   = Some (page [image "https://example.com/pic.png"]))
    by (vm_compute; reflexivity).
  destruct (C9_fix_relative_uris exampleHost exampleDocument
              (page [image "/pic.png"]) (page [image "https://example.com/pic.png"])
              Hfixed) as (_ & Hmedia & Hsrcset & _).
  split; [exact Hfixed |]. split; [exact Hmedia |].
  split; [reflexivity |]. split; [reflexivity |].
  change (lit "/a.png 480w, /b.png") with (srcsetText twoCandidates).
  rewrite (Hsrcset twoCandidates eq_refl). vm_compute. reflexivity.
Defined.

Definition anchor (href : String.string) (kids : list node) : node :=
  Elem (lit "A") [(lit "href", lit href)] None None kids.

(** C10.  The anchors of the result of [_fixRelativeUris] are those of
    the content whose [href], as it is written, does not start with
    [javascript:] in lower case; an anchor whose [href] does is replaced
    by a text node with its text when its only child is a text node, and
    by a SPAN with its children otherwise.  The test reads the attribute
    as written, and [toAbsoluteURI] then stores the normalized URL: the
    anchor with [href] [JAVASCRIPT:alert(1)] is not taken for a script
    link, it is kept, and its [href] becomes [javascript:alert(1)]: an
    anchor whose [href] begins with [javascript:] remains in the
    content. *)
Theorem C10_javascript_anchor_survives :
  (forall host doc articleContent fixed,
     _fixRelativeUris host doc articleContent = Some fixed ->
     Forall2 (linkFixed host doc)
       (List.filter (fun a => negb (javascriptLink a))
                    (_getAllNodesWithTag articleContent ["A"]))
       (_getAllNodesWithTag fixed ["A"]))
  /\ (forall host doc t a r d k k',
        hasTag "A" (Elem t a r d k) = true ->
        javascriptLink (Elem t a r d k) = true ->
        mapM (fixLink host doc) k = Some k' ->
        fixLink host doc (Elem t a r d k)
        = Some match k with
               | [Text _] => Text (textContent (Elem t a r d k))
               | _ => createElement (lit "SPAN") k'
               end)
  /\ javascriptLink (anchor "JAVASCRIPT:alert(1)" [Text (lit "x")]) = false
  /\ _fixRelativeUris exampleHost exampleDocument
       (page [anchor "JAVASCRIPT:alert(1)" [Text (lit "x")]])
     = Some (page [anchor "javascript:alert(1)" [Text (lit "x")]])
  /\ javascriptLink (anchor "javascript:alert(1)" [Text (lit "x")]) = true.
Proof.
  split; [| split; [| split; [| split]]].
  - intros host doc articleContent fixed Hfixed.
    unfold _getAllNodesWithTag. rewrite filter_anchors, filter_hasTagIn_one.
    apply fixRelativeUris_links, Hfixed.
  - intros host doc t a r d k k' Ha Hjs Hk.
    cbn [fixLink]. rewrite Hk. cbn [mbind option_bind]. rewrite Ha.
    unfold javascriptLink in Hjs.
    destruct (truthyAttr (Elem t a r d k) "href") as [h |]; [| discriminate Hjs].
    rewrite Hjs. destruct k as [| [s |] [|]]; reflexivity.
  - reflexivity.
  - vm_compute. reflexivity.
  - reflexivity.
Qed.

(* ================================================================== *)
(** * Further properties of the engine *)
(* ================================================================== *)

(** ** Removing the nodes of a list: [_removeNodes] and its callers *)

Section RemoveNodesContract.
Context (tags : list String.string) (filterFn : node -> bool).

Let keep (c : node) : option node :=
  let c' := _removeNodes tags filterFn c in
  if hasTagIn tags c' && filterFn c' then None else Some c'.

Lemma removeNodes_children t a r d k :
  _removeNodes tags filterFn (Elem t a r d k) = Elem t a r d (omap keep k).
Proof. reflexivity. Qed.

Lemma removeNodes_shape (n : node) :
  shape (_removeNodes tags filterFn n) = shape n.
Proof. destruct n; reflexivity. Qed.

Lemma filter_elementsOf (P : node -> bool) (c : node) :
  List.filter P (elementsOf c)
  = (if isElement c && P c then [c] else []) ++ List.filter P (descendants c).
Proof.
  destruct c as [s | t a r d k]; [reflexivity |].
  cbn [elementsOf List.filter isElement andb]. destruct (P _); reflexivity.
Qed.

Lemma removeNodes_filtered (n : node) :
  Forall (fun c => filterFn c = false)
         (List.filter (hasTagIn tags) (descendants (_removeNodes tags filterFn n))).
Proof.
  induction n as [s | t a r d k IH] using node_ind'; [constructor |].
  rewrite removeNodes_children, descendants_childNodes. cbn [childNodes].
  induction IH as [| c k Hc _ IHk]; [constructor |].
  cbn [omap list_omap]. destruct (keep c) as [c' |] eqn:E; [| exact IHk].
  cbn [map concat]. rewrite List.filter_app. apply Forall_app. split; [| exact IHk].
  unfold keep in E. cbn zeta in E.
  destruct (hasTagIn tags _ && filterFn _) eqn:Etest; [discriminate |].
  injection E as <-. rewrite filter_elementsOf. apply Forall_app. split; [| exact Hc].
  destruct (isElement _ && hasTagIn tags _) eqn:Ehead; [| constructor].
  apply andb_prop in Ehead as [_ Htag]. rewrite Htag in Etest.
  constructor; [exact Etest | constructor].
Qed.

Lemma removeNodes_text (n : node) :
  textContent (_removeNodes tags filterFn n) `sublist_of` textContent n.
Proof.
  induction n as [s | t a r d k IH] using node_ind'; [reflexivity |].
  rewrite removeNodes_children. cbn [textContent].
  induction IH as [| c k Hc _ IHk]; [reflexivity |].
  cbn [omap list_omap map concat]. destruct (keep c) as [c' |] eqn:E.
  - unfold keep in E. cbn zeta in E.
    destruct (hasTagIn tags _ && filterFn _); [discriminate |].
    injection E as <-. cbn [map concat]. apply sublist_app; assumption.
  - apply sublist_inserts_l. exact IHk.
Qed.

Lemma removeNodes_elements (n : node) :
  (shape <$> descendants (_removeNodes tags filterFn n))
    `sublist_of` (shape <$> descendants n).
Proof.
  induction n as [s | t a r d k IH] using node_ind'; [reflexivity |].
  rewrite removeNodes_children, !descendants_childNodes. cbn [childNodes].
  induction IH as [| c k Hc _ IHk]; [reflexivity |].
  cbn [omap list_omap map concat]. rewrite fmap_app.
  destruct (keep c) as [c' |] eqn:E.
  - unfold keep in E. cbn zeta in E.
    destruct (hasTagIn tags _ && filterFn _); [discriminate |].
    injection E as <-. cbn [map concat]. rewrite fmap_app.
    apply sublist_app; [| exact IHk].
    destruct c as [s | t' a' r' d' k']; [reflexivity |].
    cbn [elementsOf]. rewrite removeNodes_children at 1.
    rewrite !fmap_cons. apply sublist_skip. exact Hc.
  - apply sublist_inserts_l. exact IHk.
Qed.

End RemoveNodesContract.

Lemma Forall_false_nil {A : Type} (l : list A) :
  Forall (fun _ => true = false) l -> l = [].
Proof. destruct 1; [reflexivity | discriminate]. Qed.

(** X1.  [_removeNodes] only removes: it keeps the root, every node of
    the list that is still in the tree afterwards is one the filter
    refuses as it then stands, the elements left are, in document order
    and with their tags and attributes, among those there were, and
    the text left is what remains of the text after taking characters
    out. *)
Theorem X1_removeNodes_contract (tags : list String.string)
  (filterFn : node -> bool) (n : node) :
  let result := _removeNodes tags filterFn n in
  shape result = shape n
  /\ Forall (fun c => filterFn c = false) (_getAllNodesWithTag result tags)
  /\ (shape <$> descendants result) `sublist_of` (shape <$> descendants n)
  /\ textContent result `sublist_of` textContent n.
Proof.
  cbv zeta. split; [apply removeNodes_shape |].
  split; [apply removeNodes_filtered |].
  split; [apply removeNodes_elements | apply removeNodes_text].
Qed.

(** X2.  After [_clean(e, tag)] no element of the tag is left below [e],
    unless the tag is OBJECT, EMBED or IFRAME, and then those left each
    have an attribute, or for an OBJECT the markup inside, that the
    pattern of the allowed videos matches. *)
Theorem X2_clean_leaves_videos_only (host : Host) (this : reader) (e : node)
  (tag : String.string) :
  let left := _getAllNodesWithTag (_clean host this e tag) [tag] in
  (if bool_decide (tag ∈ ["OBJECT"; "EMBED"; "IFRAME"])
   then Forall (fun element => isVideoEmbed host this element = true) left
   else left = []).
Proof.
  cbv zeta. unfold _clean.
  pose proof (removeNodes_filtered [tag]
    (fun element =>
       if bool_decide (tag ∈ ["OBJECT"; "EMBED"; "IFRAME"])
       then negb (isVideoEmbed host this element) else true) e) as H.
  fold (_getAllNodesWithTag
          (_removeNodes [tag]
             (fun element =>
                if bool_decide (tag ∈ ["OBJECT"; "EMBED"; "IFRAME"])
                then negb (isVideoEmbed host this element) else true) e) [tag]) in H.
  destruct (bool_decide (tag ∈ ["OBJECT"; "EMBED"; "IFRAME"])).
  - eapply Forall_impl; [exact H |]. intros x Hx. cbn beta in Hx.
    apply negb_false_iff. exact Hx.
  - apply Forall_false_nil. exact H.
Qed.

(** X3.  After [_cleanHeaders] no H1 or H2 is left whose class and id
    weigh below 0, and when there is an article title none that
    duplicates it. *)
Theorem X3_cleanHeaders_postcondition (host : Host) (this : reader) (flags : Z)
  (e : node) :
  Forall (fun heading =>
            0 <= _getClassWeight flags heading
            /\ (truthy (_articleTitle this) = true ->
                _headerDuplicatesTitle host this heading = false))
         (_getAllNodesWithTag (_cleanHeaders host this flags e) ["H1"; "H2"]).
Proof.
  unfold _cleanHeaders, _getAllNodesWithTag.
  eapply Forall_impl; [apply removeNodes_filtered |].
  intros heading H. cbn beta zeta in H.
  apply orb_false_elim in H as [Hweight Hduplicate].
  split; [apply Z.ltb_ge, Hweight |].
  intros Htitle. rewrite Htitle in Hduplicate. exact Hduplicate.
Qed.


(** ** Stripping styles: [_cleanStyles] *)

Lemma Forall_elementsOf_children (P : node -> Prop) (k : list node) :
  Forall P (concat (map elementsOf k))
  <-> Forall (fun c => Forall P (elementsOf c)) k.
Proof.
  induction k as [| c k IH]; cbn [map concat].
  - split; constructor.
  - rewrite Forall_app, Forall_cons, IH. reflexivity.
Qed.

Lemma elementsOf_Elem t a r d k :
  elementsOf (Elem t a r d k) = Elem t a r d k :: concat (map elementsOf k).
Proof. reflexivity. Qed.

Lemma lookupAttr_filter_none (p : jsstring * jsstring -> bool) (a : attrs)
  (name : jsstring) :
  (forall v, p (name, v) = false) ->
  lookupAttr (List.filter p a) name = None.
Proof.
  intros Hp. induction a as [| [k v] a IH]; [reflexivity |].
  cbn [List.filter]. destruct (p (k, v)) eqn:E; [| exact IH].
  cbn [lookupAttr]. destruct (JS.eqb k name) eqn:Ek; [| exact IH].
  apply eqb_true in Ek. subst k. rewrite Hp in E. discriminate.
Qed.

(** No element of the subtree is an [svg] element. *)
Definition svgFree (host : Host) (e : node) : Prop :=
  Forall (fun x => JS.eqb (toLowerCase host (default [] (tagName x))) (lit "svg")
                   = false)
         (elementsOf e).

Section CleanStylesFacts.
Context (host : Host).

Lemma cleanStyles_text (e : node) :
  textContent (_cleanStyles host e) = textContent e.
Proof.
  induction e as [s | t a r d k IH] using node_ind'; [reflexivity |].
  destruct (JS.eqb (toLowerCase host t) (lit "svg")) eqn:Esvg.
  - cbn [_cleanStyles]. rewrite Esvg. reflexivity.
  - rewrite (cleanStyles_Elem _ _ _ _ _ _ Esvg). cbn [textContent]. f_equal.
    rewrite List.map_map. apply List.map_ext_in.
    exact (proj1 (List.Forall_forall _ _) IH).
Qed.

Lemma cleanStyles_tags (e : node) :
  tagName <$> elementsOf (_cleanStyles host e) = tagName <$> elementsOf e.
Proof.
  induction e as [s | t a r d k IH] using node_ind'; [reflexivity |].
  destruct (JS.eqb (toLowerCase host t) (lit "svg")) eqn:Esvg.
  - cbn [_cleanStyles]. rewrite Esvg. reflexivity.
  - rewrite (cleanStyles_Elem _ _ _ _ _ _ Esvg), !elementsOf_Elem, !fmap_cons.
    cbn [tagName]. f_equal.
    induction IH as [| c k Hc _ IHk]; [reflexivity |].
    cbn [map concat]. rewrite !fmap_app, Hc, IHk. reflexivity.
Qed.

Lemma cleanStyles_stripped (e : node) :
  svgFree host e ->
  Forall (fun x => forall name, name ∈ PRESENTATIONAL_ATTRIBUTES ->
                     getAttribute x name = None)
         (elementsOf (_cleanStyles host e)).
Proof.
  unfold svgFree.
  induction e as [s | t a r d k IH] using node_ind'; [constructor |].
  rewrite elementsOf_Elem, Forall_cons. cbn [tagName default].
  intros [Hsvg Hkids].
  rewrite (cleanStyles_Elem _ _ _ _ _ _ Hsvg), elementsOf_Elem.
  constructor.
  - intros name Hname. unfold getAttribute. cbn [attributes].
    apply lookupAttr_filter_none. intros v. unfold keptAttribute.
    replace (named PRESENTATIONAL_ATTRIBUTES (lit name, v)) with true;
      [reflexivity |].
    symmetry. unfold named. apply existsb_exists. exists name.
    split; [apply list_elem_of_In, Hname | apply eqb_true; reflexivity].
  - apply Forall_elementsOf_children in Hkids.
    apply Forall_elementsOf_children.
    induction IH as [| c k Hc _ IHk]; [constructor |].
    apply Forall_cons in Hkids as [Hhead Htail].
    cbn [map]. constructor; [apply Hc, Hhead | apply IHk, Htail].
Qed.

End CleanStylesFacts.

(** X5.  [_cleanStyles] changes attributes only: the text and the tags
    of the elements stay as they are.  When no element of the subtree is
    an [svg] element, no element is left with any of the presentational
    attributes, [style] among them. *)
Theorem X5_cleanStyles_strips_presentation (host : Host) (e : node)
  (Hsvg : svgFree host e) :
  let cleaned := _cleanStyles host e in
  textContent cleaned = textContent e
  /\ tagName <$> elementsOf cleaned = tagName <$> elementsOf e
  /\ Forall (fun x => forall name, name ∈ PRESENTATIONAL_ATTRIBUTES ->
                        getAttribute x name = None)
            (elementsOf cleaned).
Proof.
  cbv zeta. split; [apply cleanStyles_text |].
  split; [apply cleanStyles_tags | apply cleanStyles_stripped, Hsvg].
Qed.

Definition styledPage : node :=
  Elem (lit "DIV") [(lit "style", lit "color:red"); (lit "id", lit "main")]
    None None
    [Elem (lit "TD") [(lit "width", lit "10"); (lit "align", lit "left")]
       None None [Text (lit "cell")]].

Lemma X5_cleanStyles_strips_presentation_witness :
  svgFree exampleHost styledPage
  /\ _cleanStyles exampleHost styledPage
     = Elem (lit "DIV") [(lit "id", lit "main")] None None
         [Elem (lit "TD") [] None None [Text (lit "cell")]]
  /\ Forall (fun x => forall name, name ∈ PRESENTATIONAL_ATTRIBUTES ->
                        getAttribute x name = None)
            (elementsOf (_cleanStyles exampleHost styledPage)).
Proof.
  assert (Hsvg : svgFree exampleHost styledPage).
  { unfold svgFree. repeat constructor. }
  split; [exact Hsvg |]. split; [vm_compute; reflexivity |].
  apply (X5_cleanStyles_strips_presentation exampleHost styledPage Hsvg).
Defined.

(** ** Data tables: [_markDataTables] and [_cleanConditionally] *)

(** [node._readabilityDataTable]. *)
Definition dataTableMark (n : node) : option bool :=
  match n with Elem _ _ _ d _ => d | Text _ => None end.

Section MapRelated.
Context (g : node -> node) (P Q : node -> bool) (S : node -> node -> Prop).

Lemma map_related (k : list node) :
  Forall (fun c => Forall2 S (List.filter P (elementsOf c))
                             (List.filter Q (elementsOf (g c)))) k ->
  Forall2 S (List.filter P (concat (map elementsOf k)))
            (List.filter Q (concat (map elementsOf (map g k)))).
Proof.
  induction 1 as [| c k Hc _ IH]; [constructor |].
  cbn [map concat]. rewrite !List.filter_app. apply Forall2_app; assumption.
Qed.

End MapRelated.

Section MarkFacts.
Context (host : Host).

Let mark (table : node) : node :=
  if hasTag "TABLE" table
  then withDataTable (Some (dataTableFlag table)) table else table.

Lemma mark_Elem t a r d k :
  mark (Elem t a r d k)
  = Elem t a r (if hasTag "TABLE" (Elem t a r d k)
                then Some (dataTableFlag (Elem t a r d k)) else d) k.
Proof. unfold mark. destruct (hasTag "TABLE" _); reflexivity. Qed.

Lemma mapTree_mark t a r d k :
  mapTree mark (Elem t a r d k)
  = Elem t a r (if hasTag "TABLE" (Elem t a r d k)
                then Some (dataTableFlag (Elem t a r d k)) else d)
         (map (mapTree mark) k).
Proof.
  cbn [mapTree]. rewrite mark_Elem, drop_all, app_nil_r. reflexivity.
Qed.

Lemma mapTree_mark_clone (n : node) :
  cloneNode (mapTree mark n) = cloneNode n.
Proof.
  induction n as [s | t a r d k IH] using node_ind'; [reflexivity |].
  rewrite mapTree_mark. cbn [cloneNode]. f_equal.
  rewrite List.map_map. apply List.map_ext_in.
  exact (proj1 (List.Forall_forall _ _) IH).
Qed.

Lemma mapTree_mark_score (n : node) :
  score <$> elementsOf (mapTree mark n) = score <$> elementsOf n.
Proof.
  induction n as [s | t a r d k IH] using node_ind'; [reflexivity |].
  rewrite mapTree_mark, !elementsOf_Elem, !fmap_cons. cbn [score]. f_equal.
  induction IH as [| c k Hc _ IHk]; [reflexivity |].
  cbn [map concat]. rewrite !fmap_app, Hc, IHk. reflexivity.
Qed.

Lemma mapTree_mark_tables (n : node) :
  Forall2 (fun table marked =>
             dataTableMark marked = Some (dataTableFlag table))
          (List.filter (hasTag "TABLE") (elementsOf n))
          (List.filter (hasTag "TABLE") (elementsOf (mapTree mark n))).
Proof.
  induction n as [s | t a r d k IH] using node_ind'; [constructor |].
  rewrite mapTree_mark, !elementsOf_Elem. cbn [List.filter].
  change (hasTag "TABLE" (Elem t a r _ (map (mapTree mark) k)))
    with (hasTag "TABLE" (Elem t a r d k)).
  pose proof (map_related (mapTree mark) _ _ _ k IH) as Hkids.
  destruct (hasTag "TABLE" (Elem t a r d k)); [| exact Hkids].
  constructor; [reflexivity | exact Hkids].
Qed.

End MarkFacts.

(** X6.  [_markDataTables] sets the mark [_readabilityDataTable] and
    nothing else: a clone of the marked tree is a clone of the tree, and
    the scores are as they were.  Every TABLE below the root carries a
    mark afterwards, and the mark is what the rules give for the table
    as it was. *)
Theorem X6_markDataTables_marks_only (root : node) :
  let marked := _markDataTables root in
  cloneNode marked = cloneNode root
  /\ score <$> descendants marked = score <$> descendants root
  /\ Forall2 (fun table result =>
                dataTableMark result = Some (dataTableFlag table))
             (_getAllNodesWithTag root ["TABLE"])
             (_getAllNodesWithTag marked ["TABLE"]).
Proof.
  cbv zeta. unfold _markDataTables, mapDescendants.
  destruct root as [s | t a r d k]; [repeat split; constructor |].
  cbn [withChildren childNodes]. split; [| split].
  - cbn [cloneNode]. f_equal. rewrite List.map_map. apply List.map_ext.
    intros c. apply mapTree_mark_clone.
  - rewrite !descendants_childNodes. cbn [childNodes].
    induction k as [| c k IH]; [reflexivity |].
    cbn [map concat]. rewrite !fmap_app, IH. f_equal. apply mapTree_mark_score.
  - unfold _getAllNodesWithTag. rewrite !filter_hasTagIn_one.
    rewrite !descendants_childNodes. cbn [childNodes].
    apply (map_related _ (hasTag "TABLE") (hasTag "TABLE")).
    apply Forall_forall. intros c _. apply mapTree_mark_tables.
Qed.

(** A TABLE that carries the mark of a data table. *)
Definition markedTable (n : node) : bool := hasTag "TABLE" n && isDataTable n.

Lemma no_marked_tables (l : list node) :
  existsb isDataTable (List.filter (hasTag "TABLE") l) = false ->
  List.filter markedTable l = [].
Proof.
  induction l as [| x l IH]; [reflexivity |].
  cbn [List.filter]. unfold markedTable at 1.
  destruct (hasTag "TABLE" x); cbn [existsb andb]; [| exact IH].
  intros H. apply orb_false_elim in H as [Hx Hl]. rewrite Hx. apply IH, Hl.
Qed.

Section ConditionalFacts.
Context (host : Host) (this : reader) (flags : Z) (tag : String.string).

Let judge := conditionallyRemoves host this flags.
Let clean := removeForward (hasTag tag) judge.

Lemma judge_under_data_table (ancestors : list node) (n : node) :
  existsb markedTable ancestors = true -> judge ancestors n = false.
Proof.
  intros H. unfold judge, conditionallyRemoves.
  destruct (hasTag "TABLE" n && isDataTable n); [reflexivity |].
  unfold _hasAncestorTag. replace (-1 >? 0) with false by reflexivity.
  unfold markedTable in H. rewrite H. reflexivity.
Qed.

Lemma judge_removes_no_table (ancestors : list node) (n : node) :
  judge ancestors n = true -> List.filter markedTable (elementsOf n) = [].
Proof.
  unfold judge, conditionallyRemoves. intros H.
  destruct (hasTag "TABLE" n && isDataTable n) eqn:Eself; [discriminate H |].
  destruct (_hasAncestorTag ancestors "TABLE" (-1) isDataTable);
    [discriminate H |].
  destruct (_hasAncestorTag ancestors "CODE" 3 (fun _ => true));
    [discriminate H |].
  destruct (existsb isDataTable (getElementsByTagName n "TABLE")) eqn:Einside;
    [discriminate H |].
  rewrite filter_elementsOf. unfold markedTable at 1. rewrite Eself, andb_false_r.
  apply no_marked_tables, Einside.
Qed.

Lemma clean_under_data_table (n : node) : forall ancestors,
  existsb markedTable ancestors = true -> clean ancestors n = n.
Proof.
  induction n as [s | t a r d k IH] using node_ind'; intros ancestors H;
    [reflexivity |].
  unfold clean. cbn [removeForward]. f_equal.
  fold judge. fold clean.
  assert (Hin : existsb markedTable (Elem t a r d k :: ancestors) = true)
    by (cbn [existsb]; rewrite H; apply orb_true_r).
  revert Hin. generalize (Elem t a r d k :: ancestors). intros above Hin.
  induction IH as [| c k' Hc _ IHk]; [reflexivity |].
  cbn [omap list_omap].
  rewrite (judge_under_data_table _ c Hin), andb_false_r, (Hc _ Hin).
  f_equal. exact IHk.
Qed.

Lemma clean_data_table (n : node) (ancestors : list node) :
  markedTable n = true -> clean ancestors n = n.
Proof.
  intros H. destruct n as [s | t a r d k]; [reflexivity |].
  unfold clean. cbn [removeForward]. f_equal. fold judge. fold clean.
  assert (Hin : existsb markedTable (Elem t a r d k :: ancestors) = true)
    by (cbn [existsb]; rewrite H; reflexivity).
  revert Hin. generalize (Elem t a r d k :: ancestors). intros above Hin.
  clear H. induction k as [| c k IHk]; [reflexivity |].
  cbn [omap list_omap].
  rewrite (judge_under_data_table _ c Hin), andb_false_r,
    (clean_under_data_table c _ Hin).
  f_equal. exact IHk.
Qed.

Lemma clean_tables (n : node) : forall ancestors,
  List.filter markedTable (elementsOf (clean ancestors n))
  = List.filter markedTable (elementsOf n).
Proof.
  induction n as [s | t a r d k IH] using node_ind'; intros ancestors;
    [reflexivity |].
  destruct (markedTable (Elem t a r d k)) eqn:Eself;
    [rewrite (clean_data_table _ _ Eself); reflexivity |].
  unfold clean. cbn [removeForward]. fold judge. fold clean.
  rewrite !elementsOf_Elem. cbn [List.filter].
  change (markedTable (Elem t a r d _)) with (markedTable (Elem t a r d k)).
  rewrite Eself. clear Eself.
  generalize (Elem t a r d k :: ancestors). intros above.
  induction IH as [| c k' Hc _ IHk]; [reflexivity |].
  cbn [omap list_omap map concat]. rewrite List.filter_app.
  destruct (hasTag tag c && judge above c) eqn:Eremoved.
  - apply andb_prop in Eremoved as [_ Hjudge].
    rewrite (judge_removes_no_table _ _ Hjudge). exact IHk.
  - cbn [map concat]. rewrite List.filter_app, Hc, IHk. reflexivity.
Qed.

End ConditionalFacts.

(** X7.  [_cleanConditionally] never removes a table marked as a data
    table, nor a node that holds one, nor anything inside one: the
    marked tables below [e] are all there afterwards, in the same order,
    each with its whole subtree as it was. *)
Theorem X7_cleanConditionally_keeps_data_tables (host : Host) (this : reader)
  (flags : Z) (e : node) (tag : String.string) :
  List.filter markedTable (descendants (_cleanConditionally host this flags e tag))
  = List.filter markedTable (descendants e).
Proof.
  unfold _cleanConditionally.
  destruct (negb (_flagIsActive flags FLAG_CLEAN_CONDITIONALLY)); [reflexivity |].
  destruct e as [s | t a r d k]; [reflexivity |].
  cbn [removeForward]. rewrite !descendants_childNodes. cbn [childNodes].
  generalize [Elem t a r d k]. intros above.
  induction k as [| c k IHk]; [reflexivity |].
  cbn [omap list_omap map concat]. rewrite List.filter_app.
  destruct (hasTag tag c && conditionallyRemoves host this flags above c)
    eqn:Eremoved.
  - apply andb_prop in Eremoved as [_ Hjudge].
    rewrite (judge_removes_no_table _ _ _ _ _ Hjudge). exact IHk.
  - cbn [map concat]. rewrite List.filter_app, IHk. f_equal.
    apply clean_tables.
Qed.

(** ** The text under [_fixRelativeUris] *)

Section UriText.
Context (host : Host) (doc : document).

Lemma mapM_text (step : node -> option node) (k : list node) :
  Forall (fun c => forall c', step c = Some c' -> textContent c' = textContent c) k ->
  forall k', mapM step k = Some k' ->
  map textContent k' = map textContent k.
Proof.
  intros Hall k' Hk. apply mapM_Some in Hk.
  induction Hk as [| c c' k k' Hc _ IH]; [reflexivity |].
  apply Forall_cons in Hall as [Hhead Hall].
  cbn [map]. rewrite (Hhead _ Hc), (IH Hall). reflexivity.
Qed.

Lemma fixLink_text (n : node) : forall n',
  fixLink host doc n = Some n' -> textContent n' = textContent n.
Proof.
  induction n as [s | t a r d k IH] using node_ind'; intros n' H.
  - injection H as <-. reflexivity.
  - cbn [fixLink] in H.
    destruct (mapM (fixLink host doc) k) as [k' |] eqn:Ek; [| discriminate H].
    cbn [mbind option_bind] in H.
    pose proof (mapM_text _ k IH k' Ek) as Hkids.
    assert (Hsame : forall t' a' r' d',
              textContent (Elem t' a' r' d' k') = textContent (Elem t a r d k)).
    { intros. cbn [textContent]. rewrite Hkids. reflexivity. }
    destruct (hasTag "A" (Elem t a r d k)); [| injection H as <-; apply Hsame].
    destruct (truthyAttr (Elem t a r d k) "href") as [h |];
      [| injection H as <-; apply Hsame].
    destruct (startsWith h (lit "javascript:")).
    + destruct k as [| [s |] [|]]; injection H as <-;
        try apply Hsame; reflexivity.
    + destruct (toAbsoluteURI host doc h); [| discriminate H].
      injection H as <-. apply Hsame.
Qed.

Lemma fixMedia_text (n : node) : forall n',
  fixMedia host doc n = Some n' -> textContent n' = textContent n.
Proof.
  induction n as [s | t a r d k IH] using node_ind'; intros n' H.
  - injection H as <-. reflexivity.
  - cbn [fixMedia] in H.
    destruct (mapM (fixMedia host doc) k) as [k' |] eqn:Ek; [| discriminate H].
    cbn [mbind option_bind] in H.
    pose proof (mapM_text _ k IH k' Ek) as Hkids.
    destruct (hasTagIn mediaTags (Elem t a r d k)).
    + apply fixMedium_spec in H as (a' & -> & _).
      cbn [textContent]. rewrite Hkids. reflexivity.
    + injection H as <-. cbn [textContent]. rewrite Hkids. reflexivity.
Qed.

End UriText.

(** X8.  When [_fixRelativeUris] returns, the text of the content is as
    it was: the step changes addresses and takes script links apart, and
    no character of the text is lost or added. *)
Theorem X8_fixRelativeUris_keeps_text (host : Host) (doc : document)
  (articleContent fixed : node)
  (Hfixed : _fixRelativeUris host doc articleContent = Some fixed) :
  textContent fixed = textContent articleContent.
Proof.
  unfold _fixRelativeUris in Hfixed.
  destruct (mapM (fixLink host doc) (childNodes articleContent))
    as [k1 |] eqn:E1; [| discriminate Hfixed].
  cbn [mbind option_bind] in Hfixed.
  destruct (mapM (fixMedia host doc) k1) as [k2 |] eqn:E2; [| discriminate Hfixed].
  injection Hfixed as <-.
  destruct articleContent as [s | t a r d k]; [reflexivity |].
  cbn [withChildren textContent childNodes] in *. f_equal.
  rewrite (mapM_text (fixMedia host doc) k1) with (k' := k2); [| | exact E2].
  - apply (mapM_text (fixLink host doc) k); [| exact E1].
    apply Forall_forall. intros c _. apply fixLink_text.
  - apply Forall_forall. intros c _. apply fixMedia_text.
Qed.

Definition scriptLinks : node :=
  Elem (lit "DIV") [] None None
    [Elem (lit "A") [(lit "href", lit "javascript:void(0)")] None None
       [Text (lit "Read ")];
     Elem (lit "A") [(lit "href", lit "javascript:go()")] None None
       [Elem (lit "B") [] None None [Text (lit "more")]; Text (lit "!")];
     Elem (lit "IMG") [(lit "src", lit "/pic.png")] None None []].

Lemma X8_fixRelativeUris_keeps_text_witness :
  _fixRelativeUris exampleHost exampleDocument scriptLinks
  = Some (Elem (lit "DIV") [] None None
            [Text (lit "Read ");
             Elem (lit "SPAN") [] None None
               [Elem (lit "B") [] None None [Text (lit "more")]; Text (lit "!")];
             Elem (lit "IMG") [(lit "src", lit "https://example.com/pic.png")]
               None None []])
  /\ textContent
       (Elem (lit "DIV") [] None None
            [Text (lit "Read ");
             Elem (lit "SPAN") [] None None
               [Elem (lit "B") [] None None [Text (lit "more")]; Text (lit "!")];
             Elem (lit "IMG") [(lit "src", lit "https://example.com/pic.png")]
               None None []])
     = textContent scriptLinks.
Proof.
  split; [vm_compute; reflexivity |].
  apply (X8_fixRelativeUris_keeps_text exampleHost exampleDocument).
  vm_compute. reflexivity.
Defined.

(** ** The range of [_textSimilarity] *)

(** X9.  [_textSimilarity] is a number from 0 to 1.  It is 1 exactly
    when both texts are not empty, both have tokens, and every token of
    the second text is a token of the first. *)
Theorem X9_textSimilarity_range (host : Host) (textA textB : jsstring) :
  (0 <= _textSimilarity host textA textB <= 1)%Q
  /\ ((_textSimilarity host textA textB == 1)%Q
      <-> truthy textA = true /\ truthy textB = true
          /\ tokens host textA <> [] /\ tokens host textB <> []
          /\ Forall (fun token => token ∈ tokens host textA) (tokens host textB)).
Proof. exact (textSimilarity_range host textA textB). Qed.

(** ** Headings that repeat the title *)

Lemma headerDuplicatesTitle_same (host : Host) (this : reader) (heading : node) :
  hasTagIn ["H1"; "H2"] heading = true ->
  truthy (_articleTitle this) = true ->
  tokens host (_articleTitle this) <> [] ->
  _getInnerText heading false = _articleTitle this ->
  _headerDuplicatesTitle host this heading = true.
Proof.
  intros Htag Htitle Htokens Htext. unfold _headerDuplicatesTitle.
  rewrite Htag, Htitle, Htext. cbn [negb].
  pose proof (textSimilarity_self host _ Htitle Htokens) as Hone.
  apply orb_true_intro. left. apply Qgtb_spec. rewrite Hone. reflexivity.
Qed.

(** X10.  When the article title is not empty and has a token in it,
    [_cleanHeaders] leaves no H1 and no H2 whose text, trimmed, is the
    title: a heading that repeats the title is taken for a duplicate
    whatever the flags are, and removed. *)
Theorem X10_cleanHeaders_drops_title (host : Host) (this : reader) (flags : Z)
  (e : node)
  (Htitle : truthy (_articleTitle this) = true)
  (Htokens : tokens host (_articleTitle this) <> []) :
  Forall (fun heading => _getInnerText heading false <> _articleTitle this)
         (_getAllNodesWithTag (_cleanHeaders host this flags e) ["H1"; "H2"]).
Proof.
  unfold _cleanHeaders, _getAllNodesWithTag.
  apply Forall_forall. intros heading Hin.
  pose proof (removeNodes_filtered ["H1"; "H2"]
    (fun n =>
       (_getClassWeight flags n <? 0)
       || truthy (_articleTitle this) && _headerDuplicatesTitle host this n) e)
    as Hall.
  rewrite Forall_forall in Hall. specialize (Hall heading Hin). cbn beta in Hall.
  apply orb_false_elim in Hall as [_ Hduplicate].
  rewrite Htitle in Hduplicate. cbn [andb] in Hduplicate.
  intros Htext.
  assert (Htag : hasTagIn ["H1"; "H2"] heading = true).
  { apply list_elem_of_In, filter_In in Hin. tauto. }
  rewrite (headerDuplicatesTitle_same host this heading Htag Htitle Htokens Htext)
    in Hduplicate.
  discriminate.
Qed.

Definition newsReader : reader :=
  Reader (lit "Big News") 0 500 REGEXPS.videos 0%Q.

Definition newsPage : node :=
  Elem (lit "DIV") [] None None
    [Elem (lit "H1") [] None None [Text (lit " Big News ")];
     Elem (lit "H2") [] None None [Text (lit "Something else entirely")];
     Elem (lit "P") [] None None [Text (lit "Body")]].

Lemma X10_cleanHeaders_drops_title_witness :
  _cleanHeaders exampleHost newsReader 7 newsPage
  = Elem (lit "DIV") [] None None
      [Elem (lit "H2") [] None None [Text (lit "Something else entirely")];
       Elem (lit "P") [] None None [Text (lit "Body")]]
  /\ Forall (fun heading => _getInnerText heading false <> _articleTitle newsReader)
            (_getAllNodesWithTag (_cleanHeaders exampleHost newsReader 7 newsPage)
                                 ["H1"; "H2"]).
Proof.
  split; [vm_compute; reflexivity |].
  apply (X10_cleanHeaders_drops_title exampleHost newsReader 7 newsPage).
  - reflexivity.
  - vm_compute. discriminate.
Defined.

(** ** Flags *)

Lemma toInt32_small (x : Z) : - 2 ^ 31 <= x < 2 ^ 31 -> toInt32 x = x.
Proof. intros H. unfold toInt32. rewrite Z.mod_small; lia. Qed.

Lemma ldiff_bounds (flags flag : Z) :
  0 <= flags -> 0 <= Z.land flags (Z.lnot flag) <= flags.
Proof.
  intros Hflags. rewrite <- Z.ldiff_land.
  split; [apply Z.ldiff_nonneg; lia |].
  assert (Hdisjoint : Z.land (Z.ldiff flags flag) (Z.land flags flag) = 0).
  { apply Z.bits_inj'. intros n Hn.
    rewrite !Z.land_spec, Z.ldiff_spec, Z.bits_0 by exact Hn.
    destruct (Z.testbit flags n), (Z.testbit flag n); reflexivity. }
  pose proof (Z.lor_ldiff_and flags flag) as Hsum.
  rewrite <- (Z.lxor_lor _ _ Hdisjoint), <- (Z.add_nocarry_lxor _ _ Hdisjoint)
    in Hsum.
  assert (0 <= Z.land flags flag) by (apply Z.land_nonneg; lia).
  lia.
Qed.

(** X11.  On sets of flags that are non-negative 32-bit integers, as
    those of the engine are, [_removeFlag] clears the flag it is given,
    so that [_flagIsActive] answers no for it afterwards; what it
    returns is again such a set of flags, not greater than the one it
    was given; and every flag that shares no bit with the one removed
    is as it was. *)
Theorem X11_removeFlag_clears_one_flag (flags flag : Z)
  (Hflags : 0 <= flags < 2 ^ 31) (Hflag : 0 <= flag < 2 ^ 31) :
  _flagIsActive (_removeFlag flags flag) flag = false
  /\ 0 <= _removeFlag flags flag <= flags
  /\ (forall other,
        0 <= other < 2 ^ 31 ->
        Z.land flag other = 0 ->
        _flagIsActive (_removeFlag flags flag) other = _flagIsActive flags other).
Proof.
  pose proof (ldiff_bounds flags flag (proj1 Hflags)) as Hbounds.
  assert (Hremove : _removeFlag flags flag = Z.land flags (Z.lnot flag)).
  { unfold _removeFlag.
    rewrite (toInt32_small flags), (toInt32_small flag) by lia.
    rewrite (toInt32_small (Z.lnot flag)) by (unfold Z.lnot; lia).
    apply toInt32_small. lia. }
  rewrite Hremove. unfold _flagIsActive.
  rewrite (toInt32_small flag), (toInt32_small (Z.land flags (Z.lnot flag)))
    by lia.
  split; [| split; [exact Hbounds |]].
  - replace (Z.land (Z.land flags (Z.lnot flag)) flag) with 0; [reflexivity |].
    symmetry. apply Z.bits_inj'. intros n Hn.
    rewrite !Z.land_spec, Z.lnot_spec, Z.bits_0 by exact Hn.
    destruct (Z.testbit flags n), (Z.testbit flag n); reflexivity.
  - intros other Hrange Hother.
    rewrite (toInt32_small flags), (toInt32_small other) by lia. f_equal.
    apply Z.bits_inj'. intros n Hn.
    rewrite !Z.land_spec, Z.lnot_spec by exact Hn.
    assert (Hbit : Z.testbit flag n && Z.testbit other n = false).
    { rewrite <- Z.land_spec, Hother. apply Z.bits_0. }
    destruct (Z.testbit flags n), (Z.testbit flag n), (Z.testbit other n);
      try reflexivity; discriminate.
Qed.

(** Without the flag StripUnlikelys the flags 7 are the flags 6, and
    CleanConditionally is still active. *)
Lemma X11_removeFlag_clears_one_flag_witness :
  (0 <= 7 < 2 ^ 31 /\ 0 <= FLAG_STRIP_UNLIKELYS < 2 ^ 31)
  /\ _removeFlag 7 FLAG_STRIP_UNLIKELYS = 6
  /\ _flagIsActive (_removeFlag 7 FLAG_STRIP_UNLIKELYS) FLAG_STRIP_UNLIKELYS
     = false
  /\ _flagIsActive (_removeFlag 7 FLAG_STRIP_UNLIKELYS) FLAG_CLEAN_CONDITIONALLY
     = true.
Proof.
  assert (Hflags : 0 <= 7 < 2 ^ 31) by (split; [discriminate | reflexivity]).
  assert (Hflag : 0 <= FLAG_STRIP_UNLIKELYS < 2 ^ 31)
    by (split; [discriminate | reflexivity]).
  split; [split; assumption |]. split; [reflexivity |].
  destruct (X11_removeFlag_clears_one_flag 7 FLAG_STRIP_UNLIKELYS Hflags Hflag)
    as (Hcleared & _ & Hothers).
  split; [exact Hcleared |].
  rewrite (Hothers FLAG_CLEAN_CONDITIONALLY);
    [reflexivity | split; [discriminate | reflexivity] | reflexivity].
Defined.

(** ** Elements without content, and block elements below an element *)

Lemma hasContent_empty : test REGEXPS.hasContent [] = false.
Proof. reflexivity. Qed.

Lemma concat_nil_all {A : Type} (l : list (list A)) :
  concat l = [] -> Forall (fun x => x = []) l.
Proof.
  induction l as [| x l IH]; [constructor |]. cbn [concat]. intros H.
  apply app_eq_nil in H as [Hx Hl]. constructor; [exact Hx | apply IH, Hl].
Qed.

(** X12.  An element that has no text at all in its subtree is without
    content for [_isElementWithoutContent], whatever elements it holds:
    images and videos count for nothing. *)
Theorem X12_no_text_is_without_content (n : node)
  (Helement : isElement n = true) (Htext : textContent n = []) :
  _isElementWithoutContent n = true.
Proof.
  induction n as [s | t a r d k IH] using node_ind'; [discriminate |].
  cbn [_isElementWithoutContent]. rewrite Htext, hasContent_empty.
  apply negb_true_iff. cbn [textContent] in Htext.
  apply concat_nil_all in Htext. clear Helement.
  induction IH as [| c k Hc _ IHk]; [reflexivity |].
  cbn [map] in Htext. apply Forall_cons in Htext as [Hhead Htail].
  cbn [existsb]. rewrite (IHk Htail), orb_false_r.
  destruct (isElement c) eqn:Ec; [| reflexivity].
  rewrite (Hc eq_refl Hhead). cbn [negb]. rewrite !andb_false_r. reflexivity.
Qed.

Definition pictureOnly : node :=
  Elem (lit "DIV") [] None None
    [Elem (lit "FIGURE") [] None None
       [Elem (lit "IMG") [(lit "src", lit "https://example.com/pic.png")]
          None None []]].

Lemma X12_no_text_is_without_content_witness :
  _getAllNodesWithTag pictureOnly ["IMG"] <> []
  /\ _isElementWithoutContent pictureOnly = true.
Proof.
  split; [discriminate |].
  apply X12_no_text_is_without_content; reflexivity.
Defined.

(** X13.  [_hasChildBlockElement] says whether a block element, one of
    [DIV_TO_P_ELEMS], is anywhere below the element, at any depth. *)
Theorem X13_hasChildBlockElement_descendants (element : node) :
  _hasChildBlockElement element
  = existsb (hasTagIn DIV_TO_P_ELEMS) (descendants element).
Proof.
  induction element as [s | t a r d k IH] using node_ind'; [reflexivity |].
  cbn [_hasChildBlockElement]. rewrite descendants_childNodes. cbn [childNodes].
  induction IH as [| c k Hc _ IHk]; [reflexivity |].
  cbn [existsb map concat]. rewrite existsb_app, IHk. f_equal.
  destruct c as [s | t' a' r' d' k']; [reflexivity |].
  rewrite Hc. reflexivity.
Qed.

(** ** Literal patterns *)

Lemma rmatch_codes {A : Type} (p : jsstring) (s : mstate) (k : mstate -> option A) :
  rmatch (codes p) s k
  = if startsWith (m_rest s) p
    then k (MState (rev p ++ m_pre s) (drop (length p) (m_rest s)) (m_caps s))
    else None.
Proof.
  unfold codes. revert s. induction p as [| c p IH]; intros [pre rest caps].
  - destruct rest; reflexivity.
  - cbn [fmap list_fmap rseq foldr rmatch m_rest m_pre m_caps chr].
    destruct rest as [| x rest]; [reflexivity |].
    cbn [startsWith length drop]. destruct (c =? x)%N eqn:E; [| reflexivity].
    apply N.eqb_eq in E. subst x. cbn [andb].
    change (foldr RSeq REps (list_fmap N regex chr p)) with (rseq (chr <$> p)).
    rewrite IH. cbn [m_rest m_pre m_caps rev].
    rewrite <- app_assoc. reflexivity.
Qed.

Lemma matchAt_codes (p : jsstring) (pre rest : list N) :
  matchAt (codes p) pre rest
  = if startsWith rest p
    then Some (MState (rev p ++ pre) (drop (length p) rest) [])
    else None.
Proof. unfold matchAt. rewrite rmatch_codes. reflexivity. Qed.

(** What [replace] makes of the text from a position on. *)
Definition rendered (r : regex) (f : found -> jsstring) (skip : nat)
  (pre rest : list N) : jsstring :=
  concat ((fun piece => match piece with inl c => [c] | inr m => f m end)
            <$> piecesScan r skip pre rest).

Lemma replaceAll_rendered r f s : replaceAll r f s = rendered r f 0 [] s.
Proof. reflexivity. Qed.

Section FirstCharacter.
Context (c0 : N) (p : jsstring) (f : found -> jsstring).

Let r := codes (c0 :: p).

Lemma matchAt_other_first (pre rest : list N) :
  match rest with x :: _ => x <> c0 | [] => True end ->
  matchAt r pre rest = None.
Proof.
  intros H. unfold r. rewrite matchAt_codes.
  destruct rest as [| x rest]; [reflexivity |].
  cbn [startsWith]. replace (c0 =? x)%N with false; [reflexivity |].
  symmetry. apply N.eqb_neq. congruence.
Qed.

Lemma rendered_without_first (s : jsstring) : forall pre rest,
  Forall (fun x => x <> c0) s ->
  rendered r f 0 pre (s ++ rest) = s ++ rendered r f 0 (rev s ++ pre) rest.
Proof.
  induction s as [| x s IH]; intros pre rest Hs; [reflexivity |].
  apply Forall_cons in Hs as [Hx Hs].
  unfold rendered. cbn [app piecesScan].
  rewrite (matchAt_other_first pre (x :: s ++ rest) Hx).
  cbn [fmap list_fmap concat app]. f_equal.
  fold (rendered r f 0 (x :: pre) (s ++ rest)).
  rewrite (IH (x :: pre) rest Hs). cbn [rev]. rewrite <- app_assoc. reflexivity.
Qed.

Lemma rendered_end (pre : list N) : rendered r f 0 pre [] = [].
Proof.
  unfold rendered. cbn [piecesScan].
  rewrite (matchAt_other_first pre [] I). reflexivity.
Qed.

Lemma replaceAll_without_first (s : jsstring) :
  Forall (fun x => x <> c0) s -> replaceAll r f s = s.
Proof.
  intros Hs. rewrite replaceAll_rendered.
  rewrite <- (app_nil_r s) at 1.
  rewrite (rendered_without_first s [] [] Hs), rendered_end, app_nil_r.
  reflexivity.
Qed.

End FirstCharacter.

Lemma startsWith_app (p rest : jsstring) : startsWith (p ++ rest) p = true.
Proof.
  induction p as [| c p IH]; [destruct rest; reflexivity |].
  cbn [app startsWith]. rewrite N.eqb_refl. exact IH.
Qed.

Section LiteralReplaced.
Context (c0 : N) (p y : jsstring).

Let r := codes (c0 :: p).
Let f : found -> jsstring := fun _ => y.

Lemma rendered_hit (pre rest : list N) :
  rendered r f 0 pre ((c0 :: p) ++ rest)
  = y ++ rendered r f 0 (rev (c0 :: p) ++ pre) rest.
Proof.
  unfold rendered at 1. cbn [app piecesScan].
  unfold r. rewrite matchAt_codes.
  change (c0 :: p ++ rest) with ((c0 :: p) ++ rest).
  rewrite startsWith_app. cbn iota.
  unfold foundAt. cbn [m_rest m_caps f_text].
  rewrite length_drop.
  replace (length ((c0 :: p) ++ rest) - (length ((c0 :: p) ++ rest) - length (c0 :: p)))%nat
    with (length (c0 :: p)) by (rewrite length_app; lia).
  rewrite take_app_length. cbn [length app].
  rewrite (piecesScan_skip (codes (c0 :: p)) p (c0 :: pre) rest).
  cbn [fmap list_fmap concat rev]. rewrite <- app_assoc. reflexivity.
Qed.

Lemma replaceAll_hit (s1 s2 : jsstring) :
  Forall (fun x => x <> c0) s1 -> Forall (fun x => x <> c0) s2 ->
  replaceAll r f (s1 ++ (c0 :: p) ++ s2) = s1 ++ y ++ s2.
Proof.
  intros H1 H2. rewrite replaceAll_rendered.
  rewrite (rendered_without_first c0 p f s1 [] _ H1), rendered_hit.
  rewrite <- (app_nil_r s2) at 1.
  rewrite (rendered_without_first c0 p f s2 _ [] H2), rendered_end, app_nil_r.
  reflexivity.
Qed.

Lemma replaceAll_miss (s1 x s2 : jsstring) :
  Forall (fun c => c <> c0) s1 -> Forall (fun c => c <> c0) x ->
  Forall (fun c => c <> c0) s2 ->
  startsWith ((c0 :: x) ++ s2) (c0 :: p) = false ->
  replaceAll r f (s1 ++ (c0 :: x) ++ s2) = s1 ++ (c0 :: x) ++ s2.
Proof.
  intros H1 Hx H2 Hmiss. rewrite replaceAll_rendered.
  rewrite (rendered_without_first c0 p f s1 [] _ H1). f_equal.
  unfold rendered at 1. cbn [app piecesScan].
  unfold r. rewrite matchAt_codes.
  change (c0 :: x ++ s2) with ((c0 :: x) ++ s2). rewrite Hmiss.
  cbn [fmap list_fmap concat app]. f_equal.
  fold (rendered (codes (c0 :: p)) f 0 (c0 :: rev s1 ++ []) (x ++ s2)).
  rewrite (rendered_without_first c0 p f x _ _ Hx). f_equal.
  rewrite <- (app_nil_r s2) at 1.
  rewrite (rendered_without_first c0 p f s2 _ [] H2), rendered_end, app_nil_r.
  reflexivity.
Qed.

End LiteralReplaced.

(** ** HTML entities: [_unescapeHtmlEntities] *)

Definition noAmpersand (s : jsstring) : Prop := Forall (fun c => c <> 38%N) s.

Lemma noAmpersand_app (a b : jsstring) :
  noAmpersand a -> noAmpersand b -> noAmpersand (a ++ b).
Proof. intros Ha Hb. apply Forall_app. split; assumption. Qed.

Ltac no_ampersand :=
  repeat match goal with
         | |- _ => assumption
         | |- Forall _ (_ ++ _) => apply noAmpersand_app
         | |- noAmpersand (_ ++ _) => apply noAmpersand_app
         | |- _ => apply Forall_nil_2
         | |- _ => apply Forall_cons_2; [discriminate |]
         end.

(** X14.  [_unescapeHtmlEntities] gives back a string that has no
    ampersand as it is, the empty string included; it decodes each of
    the five entities [&lt;] [&gt;] [&quot;] [&apos;] [&amp;] to its
    character; and it decodes once only: of [&amp;lt;] it makes [&lt;].
    ([s1] and [s2] stand for the text around the entity.) *)
Theorem X14_unescapeHtmlEntities_decodes_once (s1 s2 : jsstring)
  (H1 : noAmpersand s1) (H2 : noAmpersand s2) :
  _unescapeHtmlEntities s1 = s1
  /\ _unescapeHtmlEntities (s1 ++ lit "&lt;" ++ s2) = s1 ++ lit "<" ++ s2
  /\ _unescapeHtmlEntities (s1 ++ lit "&gt;" ++ s2) = s1 ++ lit ">" ++ s2
  /\ _unescapeHtmlEntities (s1 ++ lit "&quot;" ++ s2) = s1 ++ [34%N] ++ s2
  /\ _unescapeHtmlEntities (s1 ++ lit "&apos;" ++ s2) = s1 ++ lit "'" ++ s2
  /\ _unescapeHtmlEntities (s1 ++ lit "&amp;" ++ s2) = s1 ++ lit "&" ++ s2
  /\ _unescapeHtmlEntities (s1 ++ lit "&amp;lt;" ++ s2) = s1 ++ lit "&lt;" ++ s2.
Proof.
  assert (Hplain : forall s, noAmpersand s -> _unescapeHtmlEntities s = s).
  { intros s Hs. unfold _unescapeHtmlEntities. cbv zeta.
    change (str "&lt;") with (codes (38 :: lit "lt;")%N).
    change (str "&gt;") with (codes (38 :: lit "gt;")%N).
    change (str "&quot;") with (codes (38 :: lit "quot;")%N).
    change (str "&apos;") with (codes (38 :: lit "apos;")%N).
    change (str "&amp;") with (codes (38 :: lit "amp;")%N).
    rewrite !(replaceAll_without_first 38 _ _ s Hs). reflexivity. }
  split; [apply Hplain, H1 |].
  unfold _unescapeHtmlEntities. cbv zeta.
  change (str "&lt;") with (codes (38 :: lit "lt;")%N).
  change (str "&gt;") with (codes (38 :: lit "gt;")%N).
  change (str "&quot;") with (codes (38 :: lit "quot;")%N).
  change (str "&apos;") with (codes (38 :: lit "apos;")%N).
  change (str "&amp;") with (codes (38 :: lit "amp;")%N).
  change (lit "&lt;") with (38 :: lit "lt;")%N.
  change (lit "&gt;") with (38 :: lit "gt;")%N.
  change (lit "&quot;") with (38 :: lit "quot;")%N.
  change (lit "&apos;") with (38 :: lit "apos;")%N.
  change (lit "&amp;") with (38 :: lit "amp;")%N.
  change (lit "&amp;lt;") with (38 :: lit "amp;lt;")%N.
  repeat split.
  - rewrite (replaceAll_hit 38 (lit "lt;") (lit "<") s1 s2 H1 H2).
    rewrite !(replaceAll_without_first 38 _ _ (s1 ++ lit "<" ++ s2))
      by no_ampersand.
    reflexivity.
  - rewrite (replaceAll_miss 38 (lit "lt;") (lit "<") s1 (lit "gt;") s2 H1
               ltac:(no_ampersand) H2 eq_refl).
    rewrite (replaceAll_hit 38 (lit "gt;") (lit ">") s1 s2 H1 H2).
    rewrite !(replaceAll_without_first 38 _ _ (s1 ++ lit ">" ++ s2))
      by no_ampersand.
    reflexivity.
  - rewrite (replaceAll_miss 38 (lit "lt;") (lit "<") s1 (lit "quot;") s2 H1
               ltac:(no_ampersand) H2 eq_refl).
    rewrite (replaceAll_miss 38 (lit "gt;") (lit ">") s1 (lit "quot;") s2 H1
               ltac:(no_ampersand) H2 eq_refl).
    rewrite (replaceAll_hit 38 (lit "quot;") [34%N] s1 s2 H1 H2).
    rewrite !(replaceAll_without_first 38 _ _ (s1 ++ [34%N] ++ s2))
      by no_ampersand.
    reflexivity.
  - rewrite (replaceAll_miss 38 (lit "lt;") (lit "<") s1 (lit "apos;") s2 H1
               ltac:(no_ampersand) H2 eq_refl).
    rewrite (replaceAll_miss 38 (lit "gt;") (lit ">") s1 (lit "apos;") s2 H1
               ltac:(no_ampersand) H2 eq_refl).
    rewrite (replaceAll_miss 38 (lit "quot;") [34%N] s1 (lit "apos;") s2 H1
               ltac:(no_ampersand) H2 eq_refl).
    rewrite (replaceAll_hit 38 (lit "apos;") (lit "'") s1 s2 H1 H2).
    rewrite !(replaceAll_without_first 38 _ _ (s1 ++ lit "'" ++ s2))
      by no_ampersand.
    reflexivity.
  - rewrite (replaceAll_miss 38 (lit "lt;") (lit "<") s1 (lit "amp;") s2 H1
               ltac:(no_ampersand) H2 eq_refl).
    rewrite (replaceAll_miss 38 (lit "gt;") (lit ">") s1 (lit "amp;") s2 H1
               ltac:(no_ampersand) H2 eq_refl).
    rewrite (replaceAll_miss 38 (lit "quot;") [34%N] s1 (lit "amp;") s2 H1
               ltac:(no_ampersand) H2 eq_refl).
    rewrite (replaceAll_miss 38 (lit "apos;") (lit "'") s1 (lit "amp;") s2 H1
               ltac:(no_ampersand) H2 eq_refl).
    rewrite (replaceAll_hit 38 (lit "amp;") (lit "&") s1 s2 H1 H2).
    reflexivity.
  - rewrite (replaceAll_miss 38 (lit "lt;") (lit "<") s1 (lit "amp;lt;") s2 H1
               ltac:(no_ampersand) H2 eq_refl).
    rewrite (replaceAll_miss 38 (lit "gt;") (lit ">") s1 (lit "amp;lt;") s2 H1
               ltac:(no_ampersand) H2 eq_refl).
    rewrite (replaceAll_miss 38 (lit "quot;") [34%N] s1 (lit "amp;lt;") s2 H1
               ltac:(no_ampersand) H2 eq_refl).
    rewrite (replaceAll_miss 38 (lit "apos;") (lit "'") s1 (lit "amp;lt;") s2 H1
               ltac:(no_ampersand) H2 eq_refl).
    change (38 :: lit "amp;lt;")%N with ((38 :: lit "amp;") ++ lit "lt;")%N.
    rewrite <- (app_assoc (38 :: lit "amp;")%N).
    rewrite (replaceAll_hit 38 (lit "amp;") (lit "&") s1 (lit "lt;" ++ s2) H1
               ltac:(no_ampersand)).
    reflexivity.
Qed.

Lemma X14_unescapeHtmlEntities_decodes_once_witness :
  noAmpersand (lit "1 ") /\ noAmpersand (lit " 2")
  /\ _unescapeHtmlEntities (lit "1 " ++ lit "&lt;" ++ lit " 2") = lit "1 < 2".
Proof.
  assert (H1 : noAmpersand (lit "1 ")) by (repeat constructor; discriminate).
  assert (H2 : noAmpersand (lit " 2")) by (repeat constructor; discriminate).
  split; [exact H1 |]. split; [exact H2 |].
  apply (X14_unescapeHtmlEntities_decodes_once _ _ H1 H2).
Defined.

(** ** What passes for a URL: [_isUrl] *)

Lemma execFrom_bol (r : regex) (rest : list N) : forall c pre,
  execFrom (RSeq RBol r) (c :: pre) rest = None.
Proof.
  induction rest as [| x rest IH]; intros c pre; cbn [execFrom]; [reflexivity |].
  apply IH.
Qed.

Lemma test_bol (r : regex) (s : jsstring) :
  test (RSeq RBol r) s
  = match matchAt (RSeq RBol r) [] s with Some _ => true | None => false end.
Proof.
  unfold test, exec. destruct s as [| c t]; cbn [execFrom].
  - destruct (matchAt _ _ _); reflexivity.
  - destruct (matchAt _ _ _); [reflexivity |]. rewrite execFrom_bol. reflexivity.
Qed.

(** X15.  [_isUrl] refuses the empty string, accepts every string that
    starts with a slash or with a hash sign, whatever follows and
    whatever the URL parser says, and refuses every string whose first
    character is none of [/], [#], [h] and [f]: a relative address such
    as [images/a.png] is no URL for it. *)
Theorem X15_isUrl_by_first_character (host : Host) :
  _isUrl host [] = false
  /\ (forall t, _isUrl host (47%N :: t) = true)
  /\ (forall t, _isUrl host (35%N :: t) = true)
  /\ (forall c t, c ∉ [47%N; 35%N; 104%N; 102%N] -> _isUrl host (c :: t) = false).
Proof.
  split; [reflexivity |]. split; [| split].
  - intros t. unfold _isUrl. cbn [truthy negb].
    destruct (_ && bool_decide _); [reflexivity |].
    cbn [rseq foldr]. rewrite !test_bol.
    replace (matchAt (RSeq RBol (RSeq (chr 47) (RSeq (ropt (RChar (fun c => negb (c =? 47)%N))) REps)))
               [] (47%N :: t))
      with (Some (match t with
                  | c :: t' => if negb (c =? 47)%N
                               then MState [c; 47%N] t' []
                               else MState [47%N] t []
                  | [] => MState [47%N] [] []
                  end)).
    + rewrite orb_true_r. reflexivity.
    + destruct t as [| c t']; [reflexivity |].
      unfold matchAt, ropt, chr. cbn [rmatch m_pre m_rest m_caps N.eqb Pos.eqb].
      destruct (negb (c =? 47)%N); reflexivity.
  - intros t. unfold _isUrl. cbn [truthy negb].
    destruct (_ && bool_decide _); [reflexivity |].
    cbn [rseq foldr]. rewrite !test_bol.
    replace (matchAt (RSeq RBol (RSeq (chr 35) REps)) [] (35%N :: t))
      with (Some (MState [35%N] t [])) by reflexivity.
    rewrite orb_true_r. reflexivity.
  - intros c t Hc. unfold _isUrl. cbn [truthy negb].
    assert (H47 : (47 =? c)%N = false)
      by (apply N.eqb_neq; intros <-; apply Hc; set_solver).
    assert (H35 : (35 =? c)%N = false)
      by (apply N.eqb_neq; intros <-; apply Hc; set_solver).
    assert (H104 : (104 =? c)%N = false)
      by (apply N.eqb_neq; intros <-; apply Hc; set_solver).
    assert (H102 : (102 =? c)%N = false)
      by (apply N.eqb_neq; intros <-; apply Hc; set_solver).
    replace (startsWith (c :: t) (lit "http:")) with false
      by (change (lit "http:") with (104 :: lit "ttp:")%N; cbn [startsWith];
          rewrite H104; reflexivity).
    replace (startsWith (c :: t) (lit "https:")) with false
      by (change (lit "https:") with (104 :: lit "ttps:")%N; cbn [startsWith];
          rewrite H104; reflexivity).
    replace (startsWith (c :: t) (lit "//")) with false
      by (change (lit "//") with (47 :: lit "/")%N; cbn [startsWith];
          rewrite H47; reflexivity).
    cbn [orb andb rseq foldr]. rewrite !test_bol.
    unfold matchAt, ropt, chr, Regex.str.
    change (lit "http") with (104 :: lit "ttp")%N.
    change (lit "ftp") with (102 :: lit "tp")%N.
    cbn [rmatch rseq foldr fmap list_fmap m_pre m_rest m_caps chr].
    rewrite H47, H35, H104, H102. reflexivity.
Qed.

(** ** Classes: [_cleanClasses] *)

Lemma lookupAttr_removed (a : attrs) (name name' : jsstring) :
  lookupAttr (List.filter (fun kv => negb (JS.eqb (fst kv) name)) a) name'
  = if JS.eqb name name' then None else lookupAttr a name'.
Proof.
  induction a as [| [k v] a IH]; cbn [List.filter lookupAttr fst].
  - destruct (JS.eqb name name'); reflexivity.
  - destruct (JS.eqb k name) eqn:Ek; cbn [negb lookupAttr].
    + apply eqb_true in Ek. subst k. rewrite IH.
      destruct (JS.eqb name name'); reflexivity.
    + rewrite IH. destruct (JS.eqb k name') eqn:Ek'; [| reflexivity].
      apply eqb_true in Ek'. subst k. apply eqb_false in Ek.
      destruct (JS.eqb name name') eqn:En; [| reflexivity].
      apply eqb_true in En. congruence.
Qed.

(** What [_cleanClasses] makes of an element [x]: the tag and the
    attributes other than [class] are kept, and [class] is then absent
    or is a list, not empty, of classes to preserve, with single spaces
    between them. *)
Definition classesCleaned (preserved : list jsstring) (x y : node) : Prop :=
  tagName y = tagName x
  /\ (forall name, name <> lit "class" ->
        lookupAttr (attributes y) name = lookupAttr (attributes x) name)
  /\ match getAttribute y "class" with
     | None => True
     | Some v =>
         exists classes,
           classes <> [] /\ Forall (fun cls => cls ∈ preserved) classes
           /\ v = join (lit " ") classes
     end.

Section CleanClassesFacts.
Context (preserved : list jsstring).

Lemma cleanClasses_Elem t a r d k :
  _cleanClasses preserved (Elem t a r d k)
  = Elem t
      (let className := preservedClassName preserved (Elem t a r d k) in
       if truthy className then setAttr a (lit "class") className
       else List.filter (fun kv => negb (JS.eqb (fst kv) (lit "class"))) a)
      r d (map (_cleanClasses preserved) k).
Proof.
  cbn [_cleanClasses]. cbv zeta.
  destruct (truthy (preservedClassName preserved (Elem t a r d k))); reflexivity.
Qed.

Lemma cleanClasses_element t a r d k :
  classesCleaned preserved (Elem t a r d k)
    (_cleanClasses preserved (Elem t a r d k)).
Proof.
  rewrite cleanClasses_Elem. cbv zeta. unfold classesCleaned.
  split; [reflexivity |]. unfold getAttribute. cbn [attributes].
  destruct (truthy (preservedClassName preserved (Elem t a r d k))) eqn:Et.
  - split.
    + intros name Hname. rewrite lookupAttr_setAttr.
      destruct (JS.eqb (lit "class") name) eqn:E; [| reflexivity].
      apply eqb_true in E. congruence.
    + rewrite lookupAttr_setAttr.
      replace (JS.eqb (lit "class") (lit "class")) with true
        by (symmetry; apply eqb_true; reflexivity).
      unfold preservedClassName in *.
      set (classes := List.filter _ _) in *.
      exists classes. split; [| split; [| reflexivity]].
      * intros Hnil. rewrite Hnil in Et. discriminate.
      * apply Forall_forall. intros cls Hin.
        apply list_elem_of_In, filter_In in Hin as [_ Hin].
        apply andb_prop in Hin as [_ Hin].
        apply bool_decide_eq_true in Hin. exact Hin.
  - split.
    + intros name Hname. rewrite lookupAttr_removed.
      destruct (JS.eqb (lit "class") name) eqn:E; [| reflexivity].
      apply eqb_true in E. congruence.
    + rewrite lookupAttr_removed.
      replace (JS.eqb (lit "class") (lit "class")) with true
        by (symmetry; apply eqb_true; reflexivity).
      exact I.
Qed.

Lemma cleanClasses_elements (n : node) :
  Forall2 (classesCleaned preserved) (elementsOf n)
          (elementsOf (_cleanClasses preserved n)).
Proof.
  induction n as [s | t a r d k IH] using node_ind'; [constructor |].
  pose proof (cleanClasses_element t a r d k) as Hroot.
  rewrite cleanClasses_Elem in *. rewrite !elementsOf_Elem.
  constructor; [exact Hroot |].
  clear Hroot. induction IH as [| c k' Hc _ IHk]; [constructor |].
  cbn [map concat]. apply Forall2_app; assumption.
Qed.

Lemma cleanClasses_text (n : node) :
  textContent (_cleanClasses preserved n) = textContent n.
Proof.
  induction n as [s | t a r d k IH] using node_ind'; [reflexivity |].
  rewrite cleanClasses_Elem. cbn [textContent]. f_equal.
  rewrite List.map_map. apply List.map_ext_in.
  exact (proj1 (List.Forall_forall _ _) IH).
Qed.

End CleanClassesFacts.

(** X16.  [_cleanClasses] keeps the text, the elements, their tags and
    every attribute but [class]; the [class] of an element is afterwards
    absent, or a list that is not empty of classes to preserve. *)
Theorem X16_cleanClasses_keeps_preserved_only (preserved : list jsstring)
  (n : node) :
  textContent (_cleanClasses preserved n) = textContent n
  /\ Forall2 (classesCleaned preserved) (elementsOf n)
             (elementsOf (_cleanClasses preserved n)).
Proof. split; [apply cleanClasses_text | apply cleanClasses_elements]. Qed.

(** X17.  Whatever classes the options ask to preserve, the class [page]
    that [_finalizeArticle] sets is among those [_cleanClasses] keeps:
    after the two, the element with the id [readability-page-1], which
    is the content itself or its only child, still has the class
    [page]. *)
Theorem X17_page_class_survives (classesToPreserve : option (list jsstring))
  (articleContent : node) (neededToCreateTopCandidate : bool)
  (Helement : isElement articleContent = true) :
  let cleaned :=
    _cleanClasses (_classesToPreserve classesToPreserve)
      (_finalizeArticle articleContent neededToCreateTopCandidate) in
  exists page,
    (if neededToCreateTopCandidate then page = cleaned
     else childNodes cleaned = [page])
    /\ getAttribute page "id" = Some (lit "readability-page-1")
    /\ getAttribute page "class" = Some (lit "page").
Proof.
  cbv zeta.
  assert (Hkept : forall t a r d k,
    lookupAttr a (lit "class") = Some (lit "page") ->
    lookupAttr a (lit "id") = Some (lit "readability-page-1") ->
    let page := _cleanClasses (_classesToPreserve classesToPreserve)
                  (Elem t a r d k) in
    getAttribute page "id" = Some (lit "readability-page-1")
    /\ getAttribute page "class" = Some (lit "page")).
  { intros t a r d k Hclass Hid. cbv zeta. rewrite cleanClasses_Elem. cbv zeta.
    assert (Hname : preservedClassName (_classesToPreserve classesToPreserve)
                      (Elem t a r d k) = lit "page").
    { unfold preservedClassName, getAttribute. cbn [attributes].
      rewrite Hclass. change (default [] (Some (lit "page"))) with (lit "page").
      replace (Regex.split (rplus REGEXPS.sp) 0 (lit "page")) with [lit "page"]
        by (vm_compute; reflexivity).
      cbn [List.filter].
      rewrite bool_decide_eq_true_2; [reflexivity |].
      unfold _classesToPreserve. apply elem_of_app. left.
      apply list_elem_of_here. }
    rewrite Hname. replace (truthy (lit "page")) with true by reflexivity.
    unfold getAttribute. cbn [attributes]. rewrite !lookupAttr_setAttr.
    replace (JS.eqb (lit "class") (lit "id")) with false by reflexivity.
    replace (JS.eqb (lit "class") (lit "class")) with true by reflexivity.
    split; [exact Hid | reflexivity]. }
  destruct articleContent as [s | t a r d k]; [discriminate |].
  unfold _finalizeArticle. destruct neededToCreateTopCandidate.
  - eexists. split; [reflexivity |].
    unfold setAttribute. cbn [withAttributes attributes].
    apply Hkept; rewrite !lookupAttr_setAttr.
    + replace (JS.eqb (lit "class") (lit "class")) with true by reflexivity.
      reflexivity.
    + replace (JS.eqb (lit "class") (lit "id")) with false by reflexivity.
      replace (JS.eqb (lit "id") (lit "id")) with true by reflexivity.
      reflexivity.
  - unfold setAttribute, createElement.
    cbn [withAttributes attributes withChildren childNodes].
    rewrite cleanClasses_Elem. cbn [childNodes map].
    eexists. split; [reflexivity |]. apply Hkept; reflexivity.
Qed.

Definition articleBody : node :=
  Elem (lit "DIV") [(lit "class", lit "wrap  page extra")] None None
    [Elem (lit "P") [(lit "class", lit "lead")] None None [Text (lit "Text")]].

Lemma X17_page_class_survives_witness :
  _cleanClasses (_classesToPreserve (Some [lit "lead"]))
    (_finalizeArticle articleBody false)
  = Elem (lit "DIV") [(lit "class", lit "page")] None None
      [Elem (lit "DIV")
         [(lit "id", lit "readability-page-1"); (lit "class", lit "page")]
         None None
         [Elem (lit "P") [(lit "class", lit "lead")] None None
            [Text (lit "Text")]]]
  /\ exists page,
       childNodes (_cleanClasses (_classesToPreserve (Some [lit "lead"]))
                     (_finalizeArticle articleBody false)) = [page]
       /\ getAttribute page "id" = Some (lit "readability-page-1")
       /\ getAttribute page "class" = Some (lit "page").
Proof.
  split; [vm_compute; reflexivity |].
  apply (X17_page_class_survives (Some [lit "lead"]) articleBody false).
  reflexivity.
Defined.

(** ** The text under the sanitizer: [_prepArticle] *)

Lemma sublist_concat_map {A B : Type} (f g : A -> list B) (l : list A) :
  Forall (fun x => f x `sublist_of` g x) l ->
  concat (map f l) `sublist_of` concat (map g l).
Proof.
  induction 1 as [| x l Hx _ IH]; [reflexivity |].
  cbn [map concat]. apply sublist_app; assumption.
Qed.

Lemma removeForward_text (matches : node -> bool)
  (judge : list node -> node -> bool) (n : node) : forall ancestors,
  textContent (removeForward matches judge ancestors n) `sublist_of` textContent n.
Proof.
  induction n as [s | t a r d k IH] using node_ind'; intros ancestors;
    [reflexivity |].
  cbn [removeForward textContent].
  generalize (Elem t a r d k :: ancestors). intros above.
  induction IH as [| c k' Hc _ IHk]; [reflexivity |].
  cbn [omap list_omap map concat].
  destruct (matches c && judge above c).
  - apply sublist_inserts_l. exact IHk.
  - cbn [map concat]. apply sublist_app; [apply Hc | exact IHk].
Qed.

(** A change of the node at hand that keeps its children, but for
    children without text that it appends. *)
Definition keepsChildren (f : node -> node) : Prop :=
  forall t a r d k,
    exists t' a' r' d' extra,
      f (Elem t a r d k) = Elem t' a' r' d' (k ++ extra)
      /\ concat (map textContent extra) = [].

Lemma mapTree_text (f : node -> node) (n : node) :
  keepsChildren f -> textContent (mapTree f n) = textContent n.
Proof.
  intros Hf. induction n as [s | t a r d k IH] using node_ind'; [reflexivity |].
  cbn [mapTree]. destruct (Hf t a r d k) as (t' & a' & r' & d' & extra & -> & Hextra).
  rewrite drop_app_length. cbn [textContent].
  rewrite map_app, concat_app, Hextra, app_nil_r. f_equal.
  rewrite List.map_map. apply List.map_ext_in.
  exact (proj1 (List.Forall_forall _ _) IH).
Qed.

Lemma mapDescendants_text (f : node -> node) (root : node) :
  keepsChildren f -> textContent (mapDescendants f root) = textContent root.
Proof.
  intros Hf. unfold mapDescendants. destruct root as [s | t a r d k]; [reflexivity |].
  cbn [withChildren childNodes textContent]. f_equal.
  rewrite List.map_map. apply List.map_ext. intros c. apply mapTree_text, Hf.
Qed.

Lemma keepsChildren_same (f : node -> node) :
  (forall t a r d k, exists t' a' r' d', f (Elem t a r d k) = Elem t' a' r' d' k) ->
  keepsChildren f.
Proof.
  intros Hf t a r d k. destruct (Hf t a r d k) as (t' & a' & r' & d' & ->).
  exists t', a', r', d', []. rewrite app_nil_r. split; reflexivity.
Qed.

Lemma removeAttribute_Elem t a r d k name :
  removeAttribute (Elem t a r d k) name
  = Elem t (List.filter (fun kv => negb (JS.eqb (fst kv) (lit name))) a) r d k.
Proof. reflexivity. Qed.

Lemma setAttribute_Elem t a r d k name v :
  setAttribute (Elem t a r d k) name v = Elem t (setAttr a (lit name) v) r d k.
Proof. reflexivity. Qed.

Section SanitizerText.
Context (host : Host) (this : reader) (flags : Z).

Lemma fixLazyImage_children t a r d k :
  exists a' extra,
    fixLazyImage host (Elem t a r d k) = Elem t a' r d (k ++ extra)
    /\ concat (map textContent extra) = [].
Proof.
  unfold fixLazyImage. cbv zeta.
  match goal with
  | |- context [if ?b then removeAttribute _ "src" else _] =>
      generalize b; intros canRemovePlaceholder
  end.
  match goal with
  | |- context [negb ?h || canRemovePlaceholder] =>
      generalize h; intros hasRealSrc
  end.
  assert (Hdone : forall a2 potentialSrc potentialSrcset,
    exists a' extra,
      (if hasTag "FIGURE" (Elem t a2 r d k)
          && bool_decide (_getAllNodesWithTag (Elem t a2 r d k) ["IMG"; "PICTURE"] = [])
          && bool_decide (is_Some potentialSrcset \/ is_Some potentialSrc)
       then
         withChildren (Elem t a2 r d k)
           (childNodes (Elem t a2 r d k)
            ++ [match potentialSrc with
                | Some v =>
                    setAttribute
                      match potentialSrcset with
                      | Some v0 => setAttribute (createElement (lit "IMG") []) "srcset" v0
                      | None => createElement (lit "IMG") []
                      end "src" v
                | None =>
                    match potentialSrcset with
                    | Some v0 => setAttribute (createElement (lit "IMG") []) "srcset" v0
                    | None => createElement (lit "IMG") []
                    end
                end])
       else Elem t a2 r d k) = Elem t a' r d (k ++ extra)
      /\ concat (map textContent extra) = []).
  { intros a2 potentialSrc potentialSrcset.
    destruct (_ && _ && _).
    - cbn [withChildren childNodes]. eexists _, [_]. split; [reflexivity |].
      destruct potentialSrcset, potentialSrc; reflexivity.
    - exists a2, []. rewrite app_nil_r. split; reflexivity. }
  destruct canRemovePlaceholder; rewrite ?removeAttribute_Elem;
    destruct (lazySources host _) as [potentialSrc potentialSrcset];
    destruct (negb hasRealSrc || _);
    destruct potentialSrcset as [v0 |], potentialSrc as [v |];
    rewrite ?setAttribute_Elem;
    try match goal with
        | |- context [truthyAttr ?e "srcset"] => destruct (truthyAttr e "srcset")
        end;
    rewrite ?setAttribute_Elem; apply Hdone.
Qed.

Lemma fixLazyImages_text (root : node) :
  textContent (_fixLazyImages host root) = textContent root.
Proof.
  apply mapDescendants_text. intros t a r d k.
  destruct (hasTagIn ["IMG"; "PICTURE"; "FIGURE"] (Elem t a r d k)).
  - destruct (fixLazyImage_children t a r d k) as (a' & extra & -> & Hextra).
    exists t, a', r, d, extra. split; [reflexivity | exact Hextra].
  - exists t, a, r, d, []. rewrite app_nil_r. split; reflexivity.
Qed.

Lemma markDataTables_text (root : node) :
  textContent (_markDataTables root) = textContent root.
Proof.
  apply mapDescendants_text, keepsChildren_same. intros t a r d k.
  destruct (hasTag "TABLE" (Elem t a r d k)); repeat eexists.
Qed.

Lemma replaceH1s_text (root : node) :
  textContent (replaceH1s root) = textContent root.
Proof.
  apply mapDescendants_text, keepsChildren_same. intros t a r d k.
  destruct (hasTag "H1" (Elem t a r d k)); repeat eexists.
Qed.

Lemma cleanConditionally_text (e : node) (tag : String.string) :
  textContent (_cleanConditionally host this flags e tag) `sublist_of` textContent e.
Proof.
  unfold _cleanConditionally.
  destruct (negb (_flagIsActive flags FLAG_CLEAN_CONDITIONALLY)); [reflexivity |].
  apply removeForward_text.
Qed.

Lemma cleanShareElements_text (e : node) :
  textContent (cleanShareElements e) `sublist_of` textContent e.
Proof.
  unfold cleanShareElements. destruct e as [s | t a r d k]; [reflexivity |].
  cbn [withChildren childNodes textContent]. rewrite List.map_map.
  apply sublist_concat_map. apply Forall_forall. intros c _.
  apply removeForward_text.
Qed.

Lemma removeBrs_text (n : node) :
  textContent (removeBrsBeforeParagraphs n) `sublist_of` textContent n.
Proof.
  induction n as [s | t a r d k IH] using node_ind'; [reflexivity |].
  cbn [removeBrsBeforeParagraphs textContent].
  induction IH as [| c k' Hc _ IHk]; [reflexivity |].
  cbn [map concat].
  destruct (hasTag "BR" c && _).
  - apply sublist_inserts_l. exact IHk.
  - cbn [map concat]. apply sublist_app; assumption.
Qed.

Lemma firstElementChild_text (n c : node) :
  firstElementChild n = Some c -> textContent c `sublist_of` textContent n.
Proof.
  unfold firstElementChild, children. destruct n as [s | t a r d k]; [discriminate |].
  cbn [childNodes textContent].
  induction k as [| x k IH]; [discriminate |].
  cbn [List.filter]. destruct (isElement x); cbn [head map concat].
  - intros [= ->]. apply sublist_inserts_r. reflexivity.
  - intros H. apply sublist_inserts_l, IH, H.
Qed.

Lemma singleCell_text (table cell : node) :
  singleCell table = Some cell -> textContent cell `sublist_of` textContent table.
Proof.
  unfold singleCell. cbv zeta.
  set (tbody := if _hasSingleTagInsideElement table "TBODY"
                then default table (firstElementChild table) else table).
  assert (Htbody : textContent tbody `sublist_of` textContent table).
  { unfold tbody. destruct (_hasSingleTagInsideElement table "TBODY"); [| reflexivity].
    destruct (firstElementChild table) as [b |] eqn:E; [| reflexivity].
    apply firstElementChild_text, E. }
  destruct (_hasSingleTagInsideElement tbody "TR"); [| discriminate].
  destruct (firstElementChild tbody) as [row |] eqn:Erow; [| discriminate].
  cbn [mbind option_bind].
  destruct (_hasSingleTagInsideElement row "TD"); [| discriminate].
  intros Hcell.
  etrans; [apply firstElementChild_text, Hcell |].
  etrans; [apply firstElementChild_text, Erow | exact Htbody].
Qed.

Lemma setNodeTag_text (n : node) (tag : String.string) :
  textContent (_setNodeTag n tag) = textContent n.
Proof. destruct n; reflexivity. Qed.

Lemma collapse_text (n : node) :
  textContent (collapseSingleCellTables n) `sublist_of` textContent n.
Proof.
  induction n as [s | t a r d k IH] using node_ind'; [reflexivity |].
  cbn [collapseSingleCellTables]. cbv zeta.
  assert (Htable : textContent (Elem t a r d (map collapseSingleCellTables k))
                     `sublist_of` textContent (Elem t a r d k)).
  { cbn [textContent]. rewrite List.map_map. apply sublist_concat_map, IH. }
  destruct (hasTag "TABLE" (Elem t a r d k)); [| exact Htable].
  destruct (singleCell (Elem t a r d k)); [| exact Htable].
  destruct (singleCell (Elem t a r d (map collapseSingleCellTables k)))
    as [cell' |] eqn:E; [| exact Htable].
  rewrite setNodeTag_text. etrans; [apply singleCell_text, E | exact Htable].
Qed.

Lemma removeSingleCellTables_text (e : node) :
  textContent (removeSingleCellTables e) `sublist_of` textContent e.
Proof.
  unfold removeSingleCellTables. destruct e as [s | t a r d k]; [reflexivity |].
  cbn [withChildren childNodes textContent]. rewrite List.map_map.
  apply sublist_concat_map. apply Forall_forall. intros c _. apply collapse_text.
Qed.

End SanitizerText.

(** X18.  The sanitizer adds no text and moves none: the text of the
    content after [_prepArticle] is what is left of the text before it
    once characters are taken out, in the order they had. *)
Theorem X18_prepArticle_only_removes_text (host : Host) (this : reader)
  (flags : Z) (articleContent : node) :
  textContent (_prepArticle host this flags articleContent)
    `sublist_of` textContent articleContent.
Proof.
  unfold _prepArticle. cbv zeta.
  etrans; [apply removeSingleCellTables_text |].
  etrans; [apply removeBrs_text |].
  etrans; [apply removeNodes_text |].
  rewrite replaceH1s_text.
  do 3 (etrans; [apply cleanConditionally_text |]).
  etrans; [apply removeNodes_text |].
  do 5 (etrans; [apply removeNodes_text |]).
  etrans; [apply cleanShareElements_text |].
  do 5 (etrans; [apply removeNodes_text |]).
  do 2 (etrans; [apply cleanConditionally_text |]).
  rewrite fixLazyImages_text, markDataTables_text, cleanStyles_text.
  reflexivity.
Qed.

(** ** Lazy images: the body of the loop of [_fixLazyImages] *)

(** The element has a source that is no placeholder: a [src] that is
    not a base64 data URL, or no [src] and a [srcset]. *)
Definition hasRealSource (elem : node) : bool :=
  match truthyAttr elem "src" with
  | Some src => negb (test REGEXPS.b64DataUrl src)
  | None => bool_decide (is_Some (truthyAttr elem "srcset"))
  end.

(** X19.  [_fixLazyImages] leaves an image alone that has a real source:
    an IMG or PICTURE whose [src] is not a base64 data URL, or that has
    no [src] but a [srcset], comes out of the body of the loop as it
    went in, whatever its other attributes offer. *)
Theorem X19_fixLazyImage_keeps_real_source (host : Host) (elem : node)
  (Hfigure : hasTag "FIGURE" elem = false)
  (Hreal : hasRealSource elem = true) :
  fixLazyImage host elem = elem.
Proof.
  unfold hasRealSource in Hreal. unfold fixLazyImage. cbv zeta.
  destruct (truthyAttr elem "src") as [src |] eqn:Esrc.
  - apply negb_true_iff in Hreal. rewrite Hreal.
    assert (Hexec : exec REGEXPS.b64DataUrl src = None).
    { unfold test in Hreal. destruct (exec REGEXPS.b64DataUrl src);
        [discriminate | reflexivity]. }
    rewrite Hexec. cbn [negb orb].
    destruct (lazySources host elem) as [potentialSrc potentialSrcset].
    rewrite Hfigure. reflexivity.
  - rewrite Hreal. cbn [orb negb].
    destruct (lazySources host elem) as [potentialSrc potentialSrcset].
    rewrite Hfigure. reflexivity.
Qed.

Definition lazyPicture : node :=
  Elem (lit "IMG")
    [(lit "src", lit "https://example.com/real.png");
     (lit "data-src", lit "https://example.com/other.jpg")] None None [].

Lemma X19_fixLazyImage_keeps_real_source_witness :
  hasTag "FIGURE" lazyPicture = false /\ hasRealSource lazyPicture = true
  /\ fixLazyImage exampleHost lazyPicture = lazyPicture.
Proof.
  split; [reflexivity |]. split; [vm_compute; reflexivity |].
  apply X19_fixLazyImage_keeps_real_source; vm_compute; reflexivity.
Defined.

(** ** The article title and the title of the document *)

(** X20.  [_getArticleTitle] gives an empty title exactly when the
    document gives none: when neither [document.title] nor the TITLE
    element has anything but white space. *)
Theorem X20_getArticleTitle_empty_iff (doc : document) :
  truthy (_getArticleTitle doc) = truthy (rawTitle doc).
Proof.
  unfold _getArticleTitle. cbv zeta.
  destruct (rawTitle doc) as [| c origTitle] eqn:Eraw.
  - vm_compute. reflexivity.
  - match goal with
    | |- truthy (if truthy ?cur then _ else _) = _ => destruct cur; reflexivity
    end.
Qed.

(** ** Link density *)

Lemma linkCoefficient_positive (link : node) : (0 < linkCoefficient link)%Q.
Proof.
  unfold linkCoefficient. destruct (truthyAttr link "href"); [| reflexivity].
  destruct (test REGEXPS.hashUrl _); reflexivity.
Qed.

Lemma linkLength_nonnegative (links : list node) : forall acc,
  (0 <= acc)%Q ->
  (0 <= foldl (fun acc linkNode =>
                 acc + inject_Z (len (_getInnerText linkNode true))
                       * linkCoefficient linkNode) acc links)%Q.
Proof.
  induction links as [| link links IH]; intros acc Hacc; [exact Hacc |].
  cbn [foldl]. apply IH.
  pose proof (linkCoefficient_positive link) as Hc.
  assert (Hlen : (0 <= inject_Z (len (_getInnerText link true)))%Q).
  { change 0%Q with (inject_Z 0). rewrite <- Zle_Qle. unfold len. lia. }
  pose proof (Qmult_le_0_compat _ _ Hlen (Qlt_le_weak _ _ Hc)) as Hterm.
  lra.
Qed.

(** X21.  [_getLinkDensity] is never negative, and it is 0 for an
    element that has no text or no link below it. *)
Theorem X21_getLinkDensity_nonnegative (element : node) :
  (0 <= _getLinkDensity element)%Q
  /\ (_getInnerText element true = [] -> _getLinkDensity element = 0%Q)
  /\ (_getAllNodesWithTag element ["A"] = [] ->
      (_getLinkDensity element == 0)%Q).
Proof.
  unfold _getLinkDensity. cbv zeta. split; [| split].
  - destruct (len (_getInnerText element true) =? 0) eqn:E; [discriminate |].
    apply Z.eqb_neq in E.
    apply Qle_shift_div_l.
    + change 0%Q with (inject_Z 0). rewrite <- Zlt_Qlt. unfold len in *. lia.
    + rewrite Qmult_0_l. apply linkLength_nonnegative. discriminate.
  - intros ->. reflexivity.
  - intros ->. destruct (_ =? 0); [reflexivity |].
    cbn [foldl]. unfold Qdiv. rewrite Qmult_0_l. reflexivity.
Qed.

(** ** The inner text: [_getInnerText] *)

(** The white space a string starts with. *)
Fixpoint leadingSpaces (s : jsstring) : jsstring :=
  match s with
  | c :: t => if isSpace c then c :: leadingSpaces t else []
  | [] => []
  end.

Lemma leadingSpaces_trimStart (s : jsstring) : s = leadingSpaces s ++ trimStart s.
Proof.
  induction s as [| c t IH]; [reflexivity |].
  cbn [leadingSpaces trimStart]. destruct (isSpace c); [| reflexivity].
  cbn [app]. f_equal. exact IH.
Qed.

Lemma trimStart_head (s : jsstring) (c : N) :
  head (trimStart s) = Some c -> isSpace c = false.
Proof.
  induction s as [| x t IH]; [discriminate |].
  cbn [trimStart]. destruct (isSpace x) eqn:E; [exact IH |].
  intros [= <-]. exact E.
Qed.

Lemma trimStart_length (s : jsstring) : (length (trimStart s) <= length s)%nat.
Proof.
  induction s as [| x t IH]; [reflexivity |].
  cbn [trimStart]. destruct (isSpace x); cbn [length]; lia.
Qed.

(** The greedy [\s*] stops at the first character that is no white
    space. *)
Definition starIter : nat -> mstate -> option mstate :=
  fix iter (n : nat) (s : mstate) {struct n} : option mstate :=
    match n with
    | O => Some s
    | S n' =>
        match rmatch REGEXPS.sp s
                (fun s1 => if (length (m_rest s1) <? length (m_rest s))%nat
                           then iter n' s1 else None) with
        | Some x => Some x
        | None => Some s
        end
    end.

Lemma starIter_run (n : nat) : forall pre rest caps,
  (length rest < n)%nat ->
  starIter n (MState pre rest caps)
  = Some (MState (rev (leadingSpaces rest) ++ pre) (trimStart rest) caps).
Proof.
  induction n as [| n IH]; intros pre rest caps Hn; [lia |].
  cbn [starIter]. fold starIter. unfold REGEXPS.sp. cbn [rmatch m_rest m_pre m_caps].
  destruct rest as [| c t]; [reflexivity |].
  cbn [leadingSpaces trimStart]. destruct (isSpace c); [| reflexivity].
  cbn [length]. replace (length t <? S (length t))%nat with true
    by (symmetry; apply Nat.ltb_lt; lia).
  rewrite IH by (cbn [length] in Hn; lia).
  cbn [rev]. rewrite <- app_assoc. reflexivity.
Qed.

Lemma rmatch_char_seq {A : Type} (p : N -> bool) (b : regex) (pre rest : list N)
  (caps : list (nat * jsstring)) (k : mstate -> option A) :
  rmatch (RSeq (RChar p) b) (MState pre rest caps) k
  = match rest with
    | c :: t => if p c then rmatch b (MState (c :: pre) t caps) k else None
    | [] => None
    end.
Proof. reflexivity. Qed.

Lemma matchAt_normalize (pre rest : list N) :
  matchAt REGEXPS.normalize pre rest
  = match rest with
    | c1 :: c2 :: t =>
        if isSpace c1 && isSpace c2
        then Some (MState (rev (leadingSpaces t) ++ c2 :: c1 :: pre)
                          (trimStart t) [])
        else None
    | _ => None
    end.
Proof.
  unfold matchAt, REGEXPS.normalize, REGEXPS.sp. cbn [rseq foldr].
  rewrite rmatch_char_seq. destruct rest as [| c1 rest]; [reflexivity |].
  destruct (isSpace c1); [| destruct rest; reflexivity].
  rewrite rmatch_char_seq. destruct rest as [| c2 t]; [reflexivity |].
  destruct (isSpace c2); [| reflexivity]. cbn [andb].
  exact (starIter_run (S (length t)) (c2 :: c1 :: pre) t []
           (Nat.lt_succ_diag_r _)).
Qed.

(** A white-space character followed by another. *)
Fixpoint hasDoubleSpace (s : jsstring) : bool :=
  match s with
  | c :: t =>
      match t with
      | c' :: _ => (isSpace c && isSpace c') || hasDoubleSpace t
      | [] => false
      end
  | [] => false
  end.

Definition startsWithSpace (s : jsstring) : bool :=
  match s with c :: _ => isSpace c | [] => false end.

Definition endsWithSpace (s : jsstring) : bool := startsWithSpace (rev s).

Lemma hasDoubleSpace_cons (c : N) (t : jsstring) :
  hasDoubleSpace (c :: t) = (isSpace c && startsWithSpace t) || hasDoubleSpace t.
Proof. destruct t; [cbn; rewrite andb_false_r |]; reflexivity. Qed.

Lemma trimStart_startsWithSpace (s : jsstring) :
  startsWithSpace (trimStart s) = false.
Proof.
  destruct (trimStart s) as [| c t] eqn:E; [reflexivity |].
  apply (trimStart_head s). rewrite E. reflexivity.
Qed.

Lemma endsWithSpace_cons (c : N) (t : jsstring) :
  t <> [] -> endsWithSpace (c :: t) = endsWithSpace t.
Proof.
  intros Ht. unfold endsWithSpace. cbn [rev].
  destruct (rev t) as [| x l] eqn:E; [| reflexivity].
  apply (f_equal (@rev N)) in E. rewrite rev_involutive in E. contradiction.
Qed.

Lemma endsWithSpace_app (a b : jsstring) :
  b <> [] -> endsWithSpace (a ++ b) = endsWithSpace b.
Proof.
  intros Hb. induction a as [| x a IH]; [reflexivity |].
  cbn [app]. rewrite endsWithSpace_cons; [exact IH |].
  destruct a; [exact Hb | discriminate].
Qed.

Definition normalizedFrom (pre rest : list N) : jsstring :=
  rendered REGEXPS.normalize (fun _ => lit " ") 0 pre rest.

Lemma normalizedFrom_nil pre : normalizedFrom pre [] = [].
Proof. reflexivity. Qed.

Lemma normalizedFrom_keep pre c t :
  isSpace c && startsWithSpace t = false ->
  normalizedFrom pre (c :: t) = c :: normalizedFrom (c :: pre) t.
Proof.
  intros H. unfold normalizedFrom, rendered. cbn [piecesScan].
  rewrite matchAt_normalize.
  destruct t as [| c' t']; [reflexivity |].
  cbn [startsWithSpace] in H. rewrite H. reflexivity.
Qed.

Lemma normalizedFrom_run pre c1 c2 t :
  isSpace c1 && isSpace c2 = true ->
  normalizedFrom pre (c1 :: c2 :: t)
  = 32%N :: normalizedFrom (rev (c2 :: leadingSpaces t) ++ c1 :: pre) (trimStart t).
Proof.
  intros H.
  assert (Hlen : length (take (length (c1 :: c2 :: t) - length (trimStart t))
                              (c1 :: c2 :: t))
                 = S (length (c2 :: leadingSpaces t))).
  { rewrite length_take. pose proof (trimStart_length t) as Hle.
    pose proof (f_equal (@length N) (leadingSpaces_trimStart t)) as Hsplit.
    rewrite length_app in Hsplit. cbn [length]. lia. }
  pose proof (piecesScan_skip REGEXPS.normalize (c2 :: leadingSpaces t)
                (c1 :: pre) (trimStart t)) as Hskip.
  replace ((c2 :: leadingSpaces t) ++ trimStart t) with (c2 :: t) in Hskip
    by (cbn [app]; f_equal; apply leadingSpaces_trimStart).
  unfold normalizedFrom, rendered.
  change (piecesScan REGEXPS.normalize 0 pre (c1 :: c2 :: t))
    with (match matchAt REGEXPS.normalize pre (c1 :: c2 :: t) with
          | Some e =>
              let m := foundAt pre (c1 :: c2 :: t) e in
              inr m ::
              match length (f_text m) with
              | O => inl c1 :: piecesScan REGEXPS.normalize O (c1 :: pre) (c2 :: t)
              | S k => piecesScan REGEXPS.normalize k (c1 :: pre) (c2 :: t)
              end
          | None => inl c1 :: piecesScan REGEXPS.normalize O (c1 :: pre) (c2 :: t)
          end).
  rewrite matchAt_normalize, H. cbv zeta.
  unfold foundAt at 2. cbn [m_rest f_text].
  rewrite Hlen, Hskip. reflexivity.
Qed.

Lemma normalizedFrom_spec (n : nat) : forall rest pre,
  (length rest < n)%nat ->
  let out := normalizedFrom pre rest in
  hasDoubleSpace out = false
  /\ (startsWithSpace out = true -> startsWithSpace rest = true)
  /\ (endsWithSpace rest = false -> endsWithSpace out = false).
Proof.
  induction n as [| n IH]; intros rest pre Hn; [lia |]. cbv zeta.
  destruct rest as [| c1 t]; [repeat split; try reflexivity; discriminate |].
  destruct (isSpace c1 && startsWithSpace t) eqn:Erun.
  - destruct t as [| c2 t]; [rewrite andb_false_r in Erun; discriminate |].
    cbn [startsWithSpace] in Erun. rewrite (normalizedFrom_run _ _ _ _ Erun).
    pose proof (trimStart_length t) as Hle.
    destruct (IH (trimStart t) (rev (c2 :: leadingSpaces t) ++ c1 :: pre))
      as (Hdouble & Hstart & Hend); [cbn [length] in Hn; lia |].
    cbv zeta in Hdouble, Hstart, Hend.
    set (out := normalizedFrom _ (trimStart t)) in *.
    split; [| split].
    + rewrite hasDoubleSpace_cons, Hdouble, orb_false_r.
      destruct (startsWithSpace out) eqn:E; [| apply andb_false_r].
      rewrite (trimStart_startsWithSpace t) in Hstart.
      specialize (Hstart eq_refl). discriminate.
    + intros _. cbn [startsWithSpace]. apply andb_prop in Erun. tauto.
    + intros Hrest.
      assert (Hne : trimStart t <> []).
      { intros Hnil. apply andb_prop in Erun as [_ H2].
        assert (Hall : forall l, trimStart l = [] -> l <> [] ->
                         endsWithSpace l = true).
        { clear. intros l. unfold endsWithSpace.
          induction l as [| x l IHl]; [congruence |].
          cbn [trimStart]. destruct (isSpace x) eqn:Ex; [| discriminate].
          intros Hl _. destruct l as [| y l]; [cbn; exact Ex |].
          cbn [rev] in *. specialize (IHl Hl ltac:(discriminate)).
          destruct (rev l ++ [y]) as [| z l'] eqn:El; [discriminate |].
          exact IHl. }
        destruct t as [| c3 t].
        - unfold endsWithSpace in Hrest. cbn in Hrest. congruence.
        - rewrite !endsWithSpace_cons in Hrest by discriminate.
          rewrite (Hall (c3 :: t) Hnil ltac:(discriminate)) in Hrest.
          discriminate. }
      assert (Hsame : endsWithSpace (c1 :: c2 :: t) = endsWithSpace (trimStart t)).
      { rewrite (leadingSpaces_trimStart t) at 1.
        change (c1 :: c2 :: leadingSpaces t ++ trimStart t)
          with ((c1 :: c2 :: leadingSpaces t) ++ trimStart t).
        apply endsWithSpace_app, Hne. }
      rewrite Hsame in Hrest. specialize (Hend Hrest).
      destruct out as [| o out'] eqn:Eout.
      * exfalso. apply Hne.
        destruct (trimStart t) as [| x l] eqn:Et; [reflexivity |].
        destruct (isSpace x && startsWithSpace l) eqn:Ex.
        -- destruct l as [| y l]; [rewrite andb_false_r in Ex; discriminate |].
           unfold out in Eout. rewrite normalizedFrom_run in Eout by exact Ex.
           discriminate.
        -- unfold out in Eout. rewrite normalizedFrom_keep in Eout by exact Ex.
           discriminate.
      * rewrite endsWithSpace_cons by discriminate. exact Hend.
  - rewrite (normalizedFrom_keep _ _ _ Erun).
    destruct (IH t (c1 :: pre)) as (Hdouble & Hstart & Hend);
      [cbn [length] in Hn; lia |].
    cbv zeta in Hdouble, Hstart, Hend.
    set (out := normalizedFrom (c1 :: pre) t) in *.
    split; [| split].
    + rewrite hasDoubleSpace_cons, Hdouble, orb_false_r.
      destruct (startsWithSpace out) eqn:E; [| apply andb_false_r].
      rewrite (Hstart eq_refl) in Erun. rewrite andb_true_r in Erun.
      rewrite Erun. reflexivity.
    + intros H. exact H.
    + intros Hrest. destruct t as [| c2 t].
      * unfold out. rewrite normalizedFrom_nil. exact Hrest.
      * rewrite endsWithSpace_cons in Hrest by discriminate.
        specialize (Hend Hrest).
        destruct out as [| o out'] eqn:Eout.
        -- exfalso.
           destruct (isSpace c2 && startsWithSpace t) eqn:Ex.
           ++ destruct t as [| y l]; [rewrite andb_false_r in Ex; discriminate |].
              unfold out in Eout. rewrite normalizedFrom_run in Eout by exact Ex.
              discriminate.
           ++ unfold out in Eout. rewrite normalizedFrom_keep in Eout by exact Ex.
              discriminate.
        -- rewrite endsWithSpace_cons by discriminate. exact Hend.
Qed.

Lemma trim_endsWithSpace (s : jsstring) : endsWithSpace (trim s) = false.
Proof.
  unfold trim, trimEnd, endsWithSpace. rewrite rev_involutive.
  apply trimStart_startsWithSpace.
Qed.

Lemma trimEnd_prefix (s : jsstring) :
  s = trimEnd s ++ rev (leadingSpaces (rev s)).
Proof.
  unfold trimEnd. rewrite <- rev_app_distr, <- leadingSpaces_trimStart.
  symmetry. apply rev_involutive.
Qed.

Lemma trim_startsWithSpace (s : jsstring) : startsWithSpace (trim s) = false.
Proof.
  unfold trim. pose proof (trimStart_startsWithSpace s) as H.
  rewrite (trimEnd_prefix (trimStart s)) in H.
  destruct (trimEnd (trimStart s)); [reflexivity | exact H].
Qed.

(** X22. The text [_getInnerText] returns neither starts nor ends with a
    white-space character, whichever way [normalizeSpaces] is set; with
    [normalizeSpaces] on (the default) no white-space character of it is
    followed by another one. *)
Theorem X22_getInnerText_normal_form (e : node) :
  (forall normalizeSpaces,
     startsWithSpace (_getInnerText e normalizeSpaces) = false
     /\ endsWithSpace (_getInnerText e normalizeSpaces) = false)
  /\ hasDoubleSpace (_getInnerText e true) = false.
Proof.
  pose proof (normalizedFrom_spec (S (length (trim (textContent e))))
                (trim (textContent e)) [] (Nat.lt_succ_diag_r _))
    as (Hdouble & Hstart & Hend).
  cbv zeta in Hdouble, Hstart, Hend.
  split; [| exact Hdouble].
  intros [|]; unfold _getInnerText; cbv zeta.
  - rewrite replaceAll_rendered. split.
    + destruct (startsWithSpace (rendered _ _ 0 [] _)) eqn:E; [| reflexivity].
      rewrite <- (trim_startsWithSpace (textContent e)). symmetry.
      apply Hstart, E.
    + apply Hend, trim_endsWithSpace.
  - split; [apply trim_startsWithSpace | apply trim_endsWithSpace].
Qed.

(** ** An element that wraps one image *)

Lemma elementsOf_children (k : list node) :
  concat (map elementsOf k) = concat (map elementsOf (List.filter isElement k)).
Proof.
  induction k as [| c k IH]; [reflexivity |].
  destruct c as [s | t a r d k']; cbn [List.filter isElement map concat];
    [exact IH | now rewrite IH].
Qed.

Lemma filter_marked {A B : Type} (p : A -> bool) (g : A -> B) (l : list A) :
  List.filter (fun c => fst c) (map (fun c => (p c, g c)) l)
  = map (fun c => (p c, g c)) (List.filter p l).
Proof.
  induction l as [| x l IH]; [reflexivity |].
  cbn [map List.filter fst]. destruct (p x) eqn:E; [| exact IH].
  cbn [map]. now rewrite E, IH.
Qed.

(** The element wraps nothing but its one element child. *)
Definition wrapsOneElement (e : node) : bool :=
  (length (children e) =? 1)%nat && negb (existsb textWithContent (childNodes e)).

(** X23.  An element that [_isSingleImage] accepts holds an IMG element,
    itself or a descendant, and every element of it outside that image
    has exactly one element child and no text child that
    [REGEXPS.hasContent] matches. *)
Theorem X23_isSingleImage_wraps_an_image (n : node) :
  _isSingleImage n = true ->
  exists img,
    hasTag "IMG" img = true
    /\ img ∈ elementsOf n
    /\ Forall (fun e => e ∈ elementsOf img \/ wrapsOneElement e = true)
              (elementsOf n).
Proof.
  induction n as [s | t a r d k IH] using node_ind'; [discriminate |].
  cbn [_isSingleImage]. destruct (hasTag "IMG" (Elem t a r d k)) eqn:Eimg.
  - intros _. exists (Elem t a r d k).
    split; [exact Eimg |]. split; [apply list_elem_of_here |].
    apply Forall_forall. intros e He. left. exact He.
  - cbn [orb]. rewrite filter_marked.
    destruct (List.filter isElement k) as [| c [| c' rest]] eqn:Ek;
      cbn [map]; try discriminate.
    intros H. apply andb_prop in H as [Htext Hsingle].
    assert (Hin : c ∈ k).
    { apply list_elem_of_In.
      apply (proj1 (List.filter_In isElement c k)).
      rewrite Ek. left. reflexivity. }
    pose proof (proj1 (Forall_forall _ _) IH c Hin Hsingle)
      as (img & Htag & Himg & Hall).
    assert (Hsub : elementsOf (Elem t a r d k) = Elem t a r d k :: elementsOf c).
    { cbn [elementsOf]. rewrite descendants_childNodes. cbn [childNodes].
      rewrite elementsOf_children, Ek. cbn [map concat].
      now rewrite app_nil_r. }
    exists img. split; [exact Htag |]. rewrite Hsub.
    split; [apply list_elem_of_further, Himg |].
    constructor; [| exact Hall].
    right. unfold wrapsOneElement, children. cbn [childNodes].
    rewrite Ek, Htext. reflexivity.
Qed.

Definition framedImage : node :=
  Elem (lit "DIV") [] None None
    [Text (lit " ");
     Elem (lit "A") [] None None [Elem (lit "IMG") [] None None []];
     Text (lit "caption ")].

Lemma X23_isSingleImage_wraps_an_image_witness :
  _isSingleImage framedImage = true
  /\ exists img,
       hasTag "IMG" img = true
       /\ img ∈ elementsOf framedImage
       /\ Forall (fun e => e ∈ elementsOf img \/ wrapsOneElement e = true)
                 (elementsOf framedImage).
Proof.
  split; [vm_compute; reflexivity |].
  apply (X23_isSingleImage_wraps_an_image framedImage).
  vm_compute. reflexivity.
Defined.

(** ** The nodes [_cleanMatchedNodes] leaves *)

Section CleanMatchedFacts.
Context (filter : node -> jsstring -> bool).

Let judge : list node -> node -> bool := fun _ n => filter n (matchString n).

(** An element the loop met and kept: the filter refused the element
    [c0] of the tree before that [c] comes from. *)
Definition keptFrom (e c : node) : Prop :=
  exists c0, c0 ∈ descendants e /\ shape c0 = shape c
             /\ filter c0 (matchString c0) = false.

Lemma removeForward_shape (n : node) ancestors :
  shape (removeForward isElement judge ancestors n) = shape n.
Proof. destruct n; reflexivity. Qed.

Lemma removeForward_kept (n : node) : forall ancestors,
  Forall (keptFrom n) (descendants (removeForward isElement judge ancestors n)).
Proof.
  induction n as [s | t a r d k IH] using node_ind'; intros ancestors;
    [constructor |].
  cbn [removeForward]. rewrite descendants_childNodes. cbn [childNodes].
  assert (Hlift : forall c x, c ∈ k -> x ∈ elementsOf c ->
                    x ∈ descendants (Elem t a r d k)).
  { intros c x Hc Hx. rewrite descendants_childNodes. cbn [childNodes].
    apply list_elem_of_In, List.in_concat. exists (elementsOf c).
    split; [apply List.in_map, list_elem_of_In, Hc | apply list_elem_of_In, Hx]. }
  generalize (Elem t a r d k :: ancestors). intros above.
  revert Hlift. generalize (Elem t a r d k). intros whole Hlift.
  induction IH as [| c k' Hc _ IHk]; [constructor |].
  cbn [omap list_omap].
  assert (Hrest : Forall (keptFrom whole)
            (concat (map elementsOf
               (omap (fun c => if isElement c && judge above c then None
                               else Some (removeForward isElement judge above c))
                     k')))).
  { apply IHk. intros c' x Hc' Hx.
    apply (Hlift c' x); [apply list_elem_of_further, Hc' | exact Hx]. }
  destruct (isElement c && judge above c) eqn:E; [exact Hrest |].
  cbn [map concat]. apply Forall_app. split; [| exact Hrest].
  destruct c as [s | t' a' r' d' k'']; [constructor |].
  cbn [isElement andb] in E. unfold judge in E.
  change (removeForward isElement judge above (Elem t' a' r' d' k''))
    with (Elem t' a' r' d'
            (childNodes (removeForward isElement judge above (Elem t' a' r' d' k'')))).
  cbn [elementsOf]. constructor.
  - exists (Elem t' a' r' d' k''). split; [| split; [reflexivity | exact E]].
    apply (Hlift (Elem t' a' r' d' k'')); apply list_elem_of_here.
  - specialize (Hc above). eapply Forall_impl; [exact Hc |].
    intros x (c0 & Hin & Hshape & Hno). exists c0.
    split; [| split; assumption].
    apply (Hlift (Elem t' a' r' d' k'')); [apply list_elem_of_here |].
    cbn [elementsOf]. apply list_elem_of_further, Hin.
Qed.

End CleanMatchedFacts.

Lemma matchString_shape (c c0 : node) :
  shape c0 = shape c -> matchString c0 = matchString c.
Proof.
  destruct c0, c; cbn [shape]; intros H; try discriminate; [reflexivity |].
  injection H as -> ->. reflexivity.
Qed.

(** X24.  [_cleanMatchedNodes(e, filter)] keeps [e] itself; every element
    left below [e] has the tag and the attributes of an element that was
    there and that the filter refused, so that a filter which reads the
    match string alone holds of no element left; and the text left is
    what remains of the text after taking characters out. *)
Theorem X24_cleanMatchedNodes_contract (e : node) :
  (forall filter : node -> jsstring -> bool,
     let result := _cleanMatchedNodes e filter in
     shape result = shape e
     /\ Forall (keptFrom filter e) (descendants result)
     /\ textContent result `sublist_of` textContent e)
  /\ (forall matched : jsstring -> bool,
        Forall (fun c => matched (matchString c) = false)
               (descendants (_cleanMatchedNodes e (fun _ => matched)))).
Proof.
  split.
  - intros filter. cbv zeta. unfold _cleanMatchedNodes.
    split; [apply removeForward_shape |].
    split; [apply removeForward_kept | apply removeForward_text].
  - intros matched. unfold _cleanMatchedNodes.
    eapply Forall_impl; [apply (removeForward_kept (fun _ => matched)) |].
    intros c (c0 & _ & Hshape & Hno).
    rewrite <- (matchString_shape c c0 Hshape). exact Hno.
Qed.

(** ** White space between siblings *)

Section StarToTheEnd.

(** The loop of [\s*] when the end of the string has to follow. *)
Definition spacesToEnd : nat -> mstate -> option mstate :=
  fix iter (n : nat) (s : mstate) {struct n} : option mstate :=
    match n with
    | O => rmatch (RSeq REol REps) s Some
    | S n' =>
        match rmatch REGEXPS.sp s
                (fun s1 => if (length (m_rest s1) <? length (m_rest s))%nat
                           then iter n' s1 else None) with
        | Some x => Some x
        | None => rmatch (RSeq REol REps) s Some
        end
    end.

Lemma spacesToEnd_run (n : nat) : forall pre rest caps,
  (length rest < n)%nat ->
  spacesToEnd n (MState pre rest caps)
  = if forallb isSpace rest then Some (MState (rev rest ++ pre) [] caps)
    else None.
Proof.
  induction n as [| n IH]; intros pre rest caps Hn; [lia |].
  cbn [spacesToEnd]. fold spacesToEnd.
  unfold REGEXPS.sp. cbn [rmatch m_rest m_pre m_caps].
  destruct rest as [| c t]; [reflexivity |].
  cbn [forallb]. destruct (isSpace c); [| reflexivity].
  cbn [length andb]. replace (length t <? S (length t))%nat with true
    by (symmetry; apply Nat.ltb_lt; lia).
  rewrite IH by (cbn [length] in Hn; lia).
  destruct (forallb isSpace t); [| reflexivity].
  cbn [rev]. rewrite <- app_assoc. reflexivity.
Qed.

End StarToTheEnd.

Lemma test_whitespace (s : jsstring) :
  test REGEXPS.whitespace s = forallb isSpace s.
Proof.
  unfold REGEXPS.whitespace. cbn [rseq foldr]. rewrite test_bol.
  unfold matchAt.
  change (rmatch (RSeq RBol (RSeq (RStar REGEXPS.sp) (RSeq REol REps)))
            (MState [] s []) Some)
    with (spacesToEnd (S (length s)) (MState [] s [])).
  rewrite (spacesToEnd_run (S (length s)) [] s [] (Nat.lt_succ_diag_r _)).
  destruct (forallb isSpace s); reflexivity.
Qed.

Lemma trimStart_nil (s : jsstring) :
  trimStart s = [] <-> forallb isSpace s = true.
Proof.
  induction s as [| c t IH]; [split; reflexivity |].
  cbn [trimStart forallb]. destruct (isSpace c); [exact IH |].
  split; discriminate.
Qed.

Lemma trim_nil (s : jsstring) : trim s = [] <-> forallb isSpace s = true.
Proof.
  rewrite <- trimStart_nil. unfold trim. split.
  - intros H. pose proof (trimEnd_prefix (trimStart s)) as Hsplit.
    rewrite H in Hsplit. cbn [app] in Hsplit.
    destruct (trimStart s) as [| c t] eqn:E; [reflexivity |].
    pose proof (trimStart_head s) as Hhead. rewrite E in Hhead.
    specialize (Hhead c eq_refl).
    assert (Hall : Forall (fun x => isSpace x = true) (c :: t)).
    { rewrite Hsplit. apply Forall_rev.
      generalize (rev (c :: t)). clear. intros l.
      induction l as [| x l IHl]; [constructor |].
      cbn [leadingSpaces]. destruct (isSpace x) eqn:Ex; constructor; assumption. }
    inversion Hall; congruence.
  - intros ->. reflexivity.
Qed.

Lemma isWhitespace_text (s : jsstring) :
  _isWhitespace (Text s) = forallb isSpace s.
Proof.
  cbn [_isWhitespace]. destruct (forallb isSpace s) eqn:E.
  - rewrite (proj2 (trim_nil s) E). reflexivity.
  - destruct (trim s) as [| c t] eqn:Et; [| reflexivity].
    rewrite (proj1 (trim_nil s) Et) in E. discriminate.
Qed.

(** The children of an element as the DOM has them: beside the elements
    and the text nodes, which [node] has, the comments and the processing
    instructions, whose [textContent] is their data and whose [nodeType]
    is neither [ELEMENT_NODE] nor [TEXT_NODE]. *)
Module WithComments.

Inductive child : Type :=
| Node (n : node)
| Comment (data : jsstring).

Definition isElement (c : child) : bool :=
  match c with Node n => Dom.isElement n | Comment _ => false end.

Definition textContent (c : child) : jsstring :=
  match c with Node n => Dom.textContent n | Comment data => data end.

(** [_nextNode(node)] (source lines 690-696), from the siblings that
    follow the node. *)
Fixpoint _nextNode (following : list child) : option child :=
  match following with
  | [] => None
  | next :: rest =>
      if negb (isElement next) && test REGEXPS.whitespace (textContent next)
      then _nextNode rest else Some next
  end.

(** [_isWhitespace] (source lines 1940-1945). *)
Definition _isWhitespace (c : child) : bool :=
  match c with Node n => Readability._isWhitespace n | Comment _ => false end.

End WithComments.

(** X25.  [_nextNode] returns the first of the following siblings that is
    an element, or a node of another kind, a text node or a comment,
    whose text has a character that is not white space, and [null] when
    there is none; among elements and text nodes alone it is the
    function that [_prepArticle] uses.  The text nodes it steps over are
    the ones [_isWhitespace] accepts, those whose characters are all
    white space; it steps over a blank comment as well, which
    [_isWhitespace] refuses, and not over a BR element, which
    [_isWhitespace] accepts. *)
Theorem X25_nextNode_skips_blank_text (following : list WithComments.child) :
  WithComments._nextNode following
  = List.find (fun c => WithComments.isElement c
                        || negb (forallb isSpace (WithComments.textContent c)))
              following
  /\ (forall siblings : list node,
        WithComments._nextNode (WithComments.Node <$> siblings)
        = WithComments.Node <$> _nextNode siblings)
  /\ (forall s, _isWhitespace (Text s) = forallb isSpace s)
  /\ (forall data rest,
        WithComments._isWhitespace (WithComments.Comment data) = false
        /\ (forallb isSpace data = true ->
            WithComments._nextNode (WithComments.Comment data :: rest)
            = WithComments._nextNode rest))
  /\ (forall a r d k rest,
        _isWhitespace (Elem (lit "BR") a r d k) = true
        /\ WithComments._nextNode
             (WithComments.Node (Elem (lit "BR") a r d k) :: rest)
           = Some (WithComments.Node (Elem (lit "BR") a r d k))).
Proof.
  split; [| split; [| split; [exact isWhitespace_text | split]]].
  - induction following as [| c rest IH]; [reflexivity |].
    cbn [WithComments._nextNode List.find]. rewrite test_whitespace.
    destruct (WithComments.isElement c); [reflexivity |].
    cbn [negb andb orb].
    destruct (forallb isSpace (WithComments.textContent c)); [exact IH | reflexivity].
  - intros siblings. induction siblings as [| n rest IH]; [reflexivity |].
    cbn [fmap list_fmap WithComments._nextNode _nextNode].
    cbn [WithComments.isElement WithComments.textContent].
    destruct (negb (Dom.isElement n) && test REGEXPS.whitespace (Dom.textContent n));
      [exact IH | reflexivity].
  - intros data rest. split; [reflexivity |]. intros Hblank.
    cbn [WithComments._nextNode WithComments.isElement WithComments.textContent
         negb andb].
    rewrite test_whitespace, Hblank. reflexivity.
  - intros a r d k rest. split; reflexivity.
Qed.

(** ** Text that counts as content *)

Lemma execFrom_hasContent (rest : list N) : forall pre,
  match execFrom REGEXPS.hasContent pre rest with
  | Some _ => true
  | None => false
  end
  = match last rest with Some c => negb (isSpace c) | None => false end.
Proof.
  induction rest as [| c t IH]; intros pre; [reflexivity |].
  cbn [execFrom]. unfold matchAt, REGEXPS.hasContent, REGEXPS.nonSp.
  cbn [rseq foldr rmatch m_rest m_pre m_caps].
  destruct t as [| c' t'].
  - cbn [last]. destruct (isSpace c); reflexivity.
  - change (last (c :: c' :: t')) with (last (c' :: t')).
    rewrite <- (IH (c :: pre)).
    destruct (negb (isSpace c)); reflexivity.
Qed.

Lemma test_hasContent (s : jsstring) :
  test REGEXPS.hasContent s
  = match last s with Some c => negb (isSpace c) | None => false end.
Proof. apply execFrom_hasContent. Qed.

(** X26.  An element without element children, a paragraph of plain text
    for one, is without content for [_isElementWithoutContent] exactly
    when its text is empty or ends with a white-space character: text
    before a final space counts for nothing. *)
Theorem X26_text_ending_in_space_is_no_content (n : node)
  (Helement : isElement n = true) (Hleaf : children n = []) :
  _isElementWithoutContent n
  = match last (textContent n) with Some c => isSpace c | None => true end.
Proof.
  destruct n as [s | t a r d k]; [discriminate |].
  cbn [_isElementWithoutContent]. rewrite test_hasContent.
  unfold children in Hleaf. cbn [childNodes] in Hleaf.
  assert (Hnone : existsb
            (fun child => isElement child && negb (hasTag "BR" child)
                          && negb (hasTag "HR" child)
                          && negb (_isElementWithoutContent child)) k = false).
  { clear Helement. induction k as [| c k IH]; [reflexivity |].
    cbn [List.filter] in Hleaf. cbn [existsb].
    destruct (isElement c); [discriminate |]. exact (IH Hleaf). }
  rewrite Hnone.
  destruct (last (textContent (Elem t a r d k))) as [c |]; [| reflexivity].
  destruct (isSpace c); reflexivity.
Qed.

Definition greeting : node :=
  Elem (lit "P") [] None None [Text (lit "Hello, world. ")].

Lemma X26_text_ending_in_space_is_no_content_witness :
  isElement greeting = true
  /\ children greeting = []
  /\ _isElementWithoutContent greeting
     = match last (textContent greeting) with
       | Some c => isSpace c
       | None => true
       end
  /\ last (textContent greeting) = Some 32%N.
Proof.
  split; [reflexivity |]. split; [reflexivity |].
  split; [apply (X26_text_ending_in_space_is_no_content greeting); reflexivity |].
  reflexivity.
Defined.
